(** * OSDR filter-options generator: a shallow embedding and its properties

    The development follows [src/osdr_filter_options_generator.py], class
    [OSDRFilterGenerator].  Python values are embedded as follows.

    - A [str] is a [string] whose characters are read as code points below
      256; [lower] and [strip] are Python's on that range.
    - A [set] of strings is a [gset string]; a [dict] keyed by category name
      is an association list in insertion order, because
      [find_category_for_value] depends on that order.
    - The two dicts keyed by grouping name are built from literals with fixed
      keys and never gain or lose a key, so they are records.
    - The taxonomy document and the five feeds are taken in the shape the
      code reads them in: labels and values are strings, [values] and
      [children] are lists, rows are lists of strings.  A key that is absent
      from a JSON object is [None] where the code tells it apart from an
      empty value, and the empty list where it does not.
    - The recognition of the top-level entries (lines 169-189) is also
      embedded on arbitrary JSON values, in module [Raw], where a label or a
      list of values that is null, a number or a boolean raises as it does
      in Python; on a document of the shape above the two embeddings agree.
    - An exception is a [Raise] result; the partially updated object it
      leaves behind is unreachable from [main] and is not kept. *)

From Stdlib Require Import Ascii String NArith ZArith.
From stdpp Require Import base option list gmap strings sorting.

Local Open Scope string_scope.
Local Open Scope list_scope.
Set Warnings "-clear-no-such-hyp".

(** ** Exceptions *)

Inductive exn :=
  | ValueError | IndexError | TypeError | AttributeError
  | RequestException | JSONDecodeError | OSError.

Inductive result (A : Type) :=
  | Ok (a : A)
  | Raise (e : exn).
Arguments Ok {A} a.
Arguments Raise {A} e.

Global Instance result_ret : MRet result := λ A a, Ok a.
Global Instance result_bind : MBind result := λ A B f m,
  match m with Ok a => f a | Raise e => Raise e end.

(** ** Python string operations *)

Module PyStr.

(** [str.isspace] on one code point below 256. *)
Definition is_space (c : ascii) : bool :=
  match c with
  | "009" | "010" | "011" | "012" | "013"
  | "028" | "029" | "030" | "031" | " " | "133" | "160" => true
  | _ => false
  end%char.

(** [str.lower] on one code point below 256: A-Z, and the Latin-1 capitals
    192-222 except the multiplication sign 215. *)
Definition lower_char (c : ascii) : ascii :=
  let n := N_of_ascii c in
  if ((65 <=? n) && (n <=? 90) || (192 <=? n) && (n <=? 222) && negb (n =? 215))%N
  then ascii_of_N (n + 32) else c.

Fixpoint lower (s : string) : string :=
  match s with
  | "" => ""
  | String c s' => String (lower_char c) (lower s')
  end.

Fixpoint lstrip (s : string) : string :=
  match s with
  | "" => ""
  | String c s' => if is_space c then lstrip s' else s
  end.

Fixpoint rstrip (s : string) : string :=
  match s with
  | "" => ""
  | String c s' =>
      match rstrip s' with
      | "" => if is_space c then "" else String c ""
      | r => String c r
      end
  end.

(** [s.strip()] *)
Definition strip (s : string) : string := rstrip (lstrip s).

(** [s.startswith(p)] *)
Fixpoint startswith (s p : string) : bool :=
  match p, s with
  | "", _ => true
  | String _ _, "" => false
  | String a p', String b s' => bool_decide (a = b) && startswith s' p'
  end.

(** [x in s] for two strings. *)
Fixpoint contains (x s : string) : bool :=
  startswith s x ||
  match s with
  | "" => false
  | String _ s' => contains x s'
  end.

(** [s.split(sep)] for a one-character separator. *)
Fixpoint split (sep : ascii) (s : string) : list string :=
  match s with
  | "" => [""]
  | String c s' =>
      if bool_decide (c = sep) then "" :: split sep s'
      else match split sep s' with
           | h :: t => String c h :: t
           | [] => [String c ""]
           end
  end.

(** [sep.join(l)] *)
Fixpoint join (sep : ascii) (l : list string) : string :=
  match l with
  | [] => ""
  | [s] => s
  | s :: t => s +:+ String sep (join sep t)
  end.

(** [any(x in s for x in xs)] *)
Definition any_in (xs : list string) (s : string) : bool :=
  existsb (λ x, contains x s) xs.

(** Truth value of a string: [if s:] *)
Definition truthy (s : string) : bool := negb (bool_decide (s = "")).

End PyStr.

(** [l.index(x)]: position of the first element equal to [x]. *)
Fixpoint list_index (x : string) (l : list string) : result nat :=
  match l with
  | [] => Raise ValueError
  | y :: l' => if bool_decide (y = x) then Ok 0 else n ← list_index x l'; Ok (S n)
  end.

(** [l[i]] for a non-negative [i]. *)
Definition list_item {A} (l : list A) (i : nat) : result A :=
  match l !! i with
  | Some a => Ok a
  | None => Raise IndexError
  end.

(** ** The normalizer (lines 151-155) *)

(** [norm] is only ever applied to strings here, so the [isinstance] test
    never fires; [not s] is the test for the empty string. *)
Definition norm (s : string) : string :=
  if negb (PyStr.truthy s) then "" else PyStr.lower (PyStr.strip s).

(** ** Data model *)

(** The five groupings of the snapshot, and the sixth that only the output
    has.  Their names are the dict keys of lines 161-167 and 227-234. *)
Inductive original :=
  | ProjectType | AssayTechnologyType | Factor | Organism | MaterialType.

Inductive grouping :=
  | Orig (o : original)
  | Mission.
Coercion Orig : original >-> grouping.

Global Instance original_eq_dec : EqDecision original.
Proof. solve_decision. Defined.
Global Instance grouping_eq_dec : EqDecision grouping.
Proof. solve_decision. Defined.

Definition originals : list original :=
  [ProjectType; AssayTechnologyType; Factor; Organism; MaterialType].

Definition grouping_name (g : grouping) : string :=
  match g with
  | Orig ProjectType => "Project Type"
  | Orig AssayTechnologyType => "Assay technology type"
  | Orig Factor => "Factor"
  | Orig Organism => "Organism"
  | Orig MaterialType => "Material type"
  | Mission => "Mission"
  end.

(** A dict from category name to a set of raw values, in insertion order. *)
Definition cats : Type := list (string * gset string).

Module Cats.

(** [d.get(c)] *)
Fixpoint get (c : string) (d : cats) : option (gset string) :=
  match d with
  | [] => None
  | (k, vs) :: d' => if bool_decide (k = c) then Some vs else get c d'
  end.

(** [c in d] *)
Definition mem (c : string) (d : cats) : bool :=
  match get c d with Some _ => true | None => false end.

(** The set a read of [d[c]] yields once the key is there. *)
Definition values_of (c : string) (d : cats) : gset string :=
  default ∅ (get c d).

(** [if c not in d: d[c] = set()]; this is also what reading [d[c]] does
    to a [defaultdict(set)]. *)
Definition touch (c : string) (d : cats) : cats :=
  if mem c d then d else d ++ [(c, ∅)].

(** [d[c] = vs] *)
Fixpoint set (c : string) (vs : gset string) (d : cats) : cats :=
  match d with
  | [] => [(c, vs)]
  | (k, ws) :: d' =>
      if bool_decide (k = c) then (k, vs) :: d' else (k, ws) :: set c vs d'
  end.

(** [d[c].add(v)] for a key [c] of [d]. *)
Fixpoint add (c v : string) (d : cats) : cats :=
  match d with
  | [] => []
  | (k, vs) :: d' =>
      if bool_decide (k = c) then (k, vs ∪ {[v]}) :: d' else (k, vs) :: add c v d'
  end.

Definition keys (d : cats) : list string := d.*1.

End Cats.

(** The snapshot index: one [cats] per original grouping. *)
Record index := {
  project_type : cats;
  assay_technology_type : cats;
  factor : cats;
  organism : cats;
  material_type : cats
}.

Definition idx_get (g : original) (s : index) : cats :=
  match g with
  | ProjectType => project_type s
  | AssayTechnologyType => assay_technology_type s
  | Factor => factor s
  | Organism => organism s
  | MaterialType => material_type s
  end.

Definition idx_set (g : original) (d : cats) (s : index) : index :=
  match g with
  | ProjectType =>
      {| project_type := d; assay_technology_type := assay_technology_type s;
         factor := factor s; organism := organism s; material_type := material_type s |}
  | AssayTechnologyType =>
      {| project_type := project_type s; assay_technology_type := d;
         factor := factor s; organism := organism s; material_type := material_type s |}
  | Factor =>
      {| project_type := project_type s; assay_technology_type := assay_technology_type s;
         factor := d; organism := organism s; material_type := material_type s |}
  | Organism =>
      {| project_type := project_type s; assay_technology_type := assay_technology_type s;
         factor := factor s; organism := d; material_type := material_type s |}
  | MaterialType =>
      {| project_type := project_type s; assay_technology_type := assay_technology_type s;
         factor := factor s; organism := organism s; material_type := d |}
  end.

Definition empty_index : index :=
  {| project_type := []; assay_technology_type := []; factor := [];
     organism := []; material_type := [] |}.

(** The output index: the five original groupings and Mission. *)
Record output := {
  kept : index;
  mission : cats
}.

Definition out_get (g : grouping) (o : output) : cats :=
  match g with
  | Orig g => idx_get g (kept o)
  | Mission => mission o
  end.

Definition out_set (g : grouping) (d : cats) (o : output) : output :=
  match g with
  | Orig g => {| kept := idx_set g d (kept o); mission := mission o |}
  | Mission => {| kept := kept o; mission := d |}
  end.

(** An entry of the taxonomy document; the same shape at every level.
    [displayValue] is [None] when the key is absent. *)
Unset Elimination Schemes.
Inductive node := Node {
  displayValue : option string;
  values : list string;
  children : list node
}.
Set Elimination Schemes.

(** The taxonomy document: its ['study'] section ([[]] when absent). *)
Record document := { study : list node }.

(** A feed: ['columns'] and ['data']. *)
Record feed := {
  columns : list string;
  data : list (list string)
}.

(** An Addition Record is (grouping, category, value); an Unmapped Record is
    (grouping, value, subject-identifier). *)
Definition record : Type := grouping * string * string.

(** The fields of an [OSDRFilterGenerator] object. *)
Record generator := {
  current_json : document;
  assay_data : feed;
  factor_data : feed;
  organism_data : feed;
  material_data : feed;
  mission_data : feed;
  existing_structure : index;
  new_json : output;
  additions : list record;
  unmapped : list record;
  all_osd_ids : gset string
}.

Definition with_new_json (o : output) (st : generator) : generator :=
  {| current_json := current_json st;
     assay_data := assay_data st; factor_data := factor_data st;
     organism_data := organism_data st; material_data := material_data st;
     mission_data := mission_data st;
     existing_structure := existing_structure st;
     new_json := o;
     additions := additions st; unmapped := unmapped st;
     all_osd_ids := all_osd_ids st |}.

Definition with_additions (l : list record) (st : generator) : generator :=
  {| current_json := current_json st;
     assay_data := assay_data st; factor_data := factor_data st;
     organism_data := organism_data st; material_data := material_data st;
     mission_data := mission_data st;
     existing_structure := existing_structure st;
     new_json := new_json st;
     additions := l; unmapped := unmapped st;
     all_osd_ids := all_osd_ids st |}.

Definition with_unmapped (l : list record) (st : generator) : generator :=
  {| current_json := current_json st;
     assay_data := assay_data st; factor_data := factor_data st;
     organism_data := organism_data st; material_data := material_data st;
     mission_data := mission_data st;
     existing_structure := existing_structure st;
     new_json := new_json st;
     additions := additions st; unmapped := l;
     all_osd_ids := all_osd_ids st |}.

Definition with_all_osd_ids (ids : gset string) (st : generator) : generator :=
  {| current_json := current_json st;
     assay_data := assay_data st; factor_data := factor_data st;
     organism_data := organism_data st; material_data := material_data st;
     mission_data := mission_data st;
     existing_structure := existing_structure st;
     new_json := new_json st;
     additions := additions st; unmapped := unmapped st;
     all_osd_ids := ids |}.

(** ** The Structure Extractor (lines 157-223) *)

(** Lines 175-186: the grouping of a top-level entry whose label is a
    string or absent and whose values are a list of strings, where no test
    can raise; [Raw.identify_grouping] is the same lines on any JSON value. *)
Definition identify_grouping (item : node) : option original :=
  let display := default "" (displayValue item) in
  let values := values item in
  if bool_decide ("Project Type" ∈ values) then Some ProjectType
  else if PyStr.contains "Assay Type" display
          || bool_decide ("Study Assay Technology Type" ∈ values)
  then Some AssayTechnologyType
  else if bool_decide ("organism" ∈ values) then Some Organism
  else if PyStr.contains "Tissue" display || bool_decide ("material type" ∈ values)
  then Some MaterialType
  else if PyStr.contains "Factor" display || bool_decide ("Study Factor Name" ∈ values)
  then Some Factor
  else None.

(** [n.get('values', [''])[0] if n.get('values') else ''] *)
Definition first_value (n : node) : string :=
  match values n with
  | v :: _ => v
  | [] => ""
  end.

(** [n.get('displayValue', <first value>)]: the default is used only when
    the key is absent. *)
Definition label_of (n : node) : string :=
  match displayValue n with
  | Some d => d
  | None => first_value n
  end.

(** Lines 193-196. *)
Definition category_of (child : node) : string :=
  let category := label_of child in
  if negb (PyStr.truthy category) then "Uncategorized" else category.

(** Lines 208-209. *)
Definition subcategory_of (subchild : node) : string := label_of subchild.

Definition full_category_of (category : string) (subchild : node) : string :=
  category +:+ "|" +:+ subcategory_of subchild.

(** [for val in vals: if val: d[c].add(val)] *)
Definition add_values (c : string) (vals : list string) (d : cats) : cats :=
  foldl (λ d val, if PyStr.truthy val then Cats.add c val d else d) d vals.

(** Lines 207-216, the body of the loop over grandchildren. *)
Definition extract_subchild (category : string) (d : cats) (subchild : node) : cats :=
  let full_category := full_category_of category subchild in
  add_values full_category (values subchild) (Cats.touch full_category d).

(** Lines 192-216, the body of the loop over children. *)
Definition extract_child (d : cats) (child : node) : cats :=
  let category := category_of child in
  let d := Cats.touch category d in
  let d := add_values category (values child) d in
  foldl (extract_subchild category) d (children child).

(** Lines 171-216, the body of the loop over top-level entries. *)
Definition extract_item (s : index) (item : node) : index :=
  match identify_grouping item with
  | None => s
  | Some g => idx_set g (foldl extract_child (idx_get g s) (children item)) s
  end.

Definition extract_existing_structure (doc : document) : index :=
  foldl extract_item empty_index (study doc).

(** ** The Reconciliation Engine *)

(** Lines 237-239 for one grouping: [new[category] = set(values)] for each
    category of the snapshot, in its order. *)
Definition copy_cats (d : cats) : cats :=
  foldl (λ acc kv, Cats.set kv.1 kv.2 acc) [] d.

(** Lines 225-241. *)
Definition initialize_from_existing (existing : index) : output :=
  {| kept :=
       {| project_type := copy_cats (project_type existing);
          assay_technology_type := copy_cats (assay_technology_type existing);
          factor := copy_cats (factor existing);
          organism := copy_cats (organism existing);
          material_type := copy_cats (material_type existing) |};
     mission := [] |}.

(** Lines 251-254: the first category holding a value with the given
    normalized form.  The order in which a set is walked does not show in
    the result. *)
Fixpoint scan_categories (norm_val : string) (d : cats) : option string :=
  match d with
  | [] => None
  | (category, vs) :: d' =>
      if existsb (λ existing_val, bool_decide (norm existing_val = norm_val)) (elements vs)
      then Some category
      else scan_categories norm_val d'
  end.

(** Lines 243-256. *)
Definition find_category_for_value
    (value : string) (g : grouping) (existing : index) : option string :=
  let norm_val := norm value in
  match g with
  | Mission => None
  | Orig g => scan_categories norm_val (idx_get g existing)
  end.

(** The set [new_json[g][c]] as a read would find it. *)
Definition out_values (g : grouping) (c : string) (st : generator) : gset string :=
  Cats.values_of c (out_get g (new_json st)).

(** Reading [new_json[g][c]]: a [defaultdict] creates the category when it
    is missing. *)
Definition touch_category (g : grouping) (c : string) (st : generator) : generator :=
  with_new_json (out_set g (Cats.touch c (out_get g (new_json st))) (new_json st)) st.

(** [new_json[g][c].add(v)] *)
Definition add_value (g : grouping) (c v : string) (st : generator) : generator :=
  with_new_json (out_set g (Cats.add c v (out_get g (new_json st))) (new_json st)) st.

(** [additions.append(r)] and [unmapped.append(r)] *)
Definition record_addition (r : record) (st : generator) : generator :=
  with_additions (additions st ++ [r]) st.

Definition record_unmapped (r : record) (st : generator) : generator :=
  with_unmapped (unmapped st ++ [r]) st.

(** Lines 274-284, and the same text at 292-300, 314-322 and 336-344: the
    four loops differ in the grouping, in the name of the fallback category
    and in the subject they record. *)
Definition reconcile
    (g : original) (other : string) (value subject : string)
    (st : generator) : generator :=
  let unmapped_branch :=
    let st := touch_category g other st in
    if bool_decide (value ∉ out_values g other st)
    then record_unmapped (Orig g, value, subject) (add_value g other value st)
    else st in
  match find_category_for_value value g (existing_structure st) with
  | Some category =>
      if PyStr.truthy category
      then
        let st := touch_category g category st in
        if bool_decide (value ∉ out_values g category st)
        then record_addition (Orig g, category, value) (add_value g category value st)
        else st
      else unmapped_branch
  | None => unmapped_branch
  end.

(** Lines 366-389. *)
Definition classify_mission (mission : string) : string :=
  let mission_lower := norm mission in
  if PyStr.any_in ["expedition"; "increment"; "iss"] mission_lower
  then "ISS Expeditions"
  else if PyStr.any_in ["sts-"; "sts "; "shuttle"; "sls-"] mission_lower
  then "Space Shuttle"
  else if PyStr.startswith mission "RR-" || PyStr.contains "rodent research" mission_lower
  then "Rodent Research"
  else if PyStr.any_in ["bion"; "cosmos"] mission_lower
  then "Bion/Cosmos"
  else if PyStr.any_in ["bric-"; "apex-"; "veg-"; "ffl"; "cbtm"; "cerise"] mission_lower
  then "Payload Investigations"
  else if PyStr.any_in ["ground"; "bsl"; "baseline"] mission_lower
  then "Ground Control"
  else if PyStr.any_in ["gamma_irradiation"; "heavy_ion"; "hze"; "proton_irradiation";
                         "x-ray_irradiation"; "irradiation"; "radiation"] mission_lower
  then "Radiation Studies"
  else if PyStr.any_in ["hindlimb_unloading"; "simulated_microgravity";
                         "simulated_hypergravity"; "simulated_environmental"] mission_lower
  then "Simulated Conditions"
  else if PyStr.any_in ["inspiration4"; "axiom"; "ax-"; "spacex"] mission_lower
  then "Commercial Spaceflight"
  else "Other Missions".

(** Lines 391-394. *)
Definition place_mission (mission osd_id : string) (st : generator) : generator :=
  let category := classify_mission mission in
  let st := touch_category Mission category st in
  if bool_decide (mission ∉ out_values Mission category st)
  then
    let st := add_value Mission category mission st in
    if bool_decide (category = "Other Missions")
    then record_unmapped (Mission, mission, osd_id) st
    else st
  else st.

(** Line 359. *)
Definition split_missions (missions_str : string) : list string :=
  PyStr.strip <$> PyStr.split "," missions_str.

(** Lines 359-394, what one row of the mission feed does. *)
Definition process_missions (missions_str osd_id : string) (st : generator) : generator :=
  foldl (λ st mission,
           if negb (PyStr.truthy mission) then st else place_mission mission osd_id st)
        st (split_missions missions_str).

Definition add_osd_id (osd_id : string) (st : generator) : generator :=
  with_all_osd_ids (all_osd_ids st ∪ {[osd_id]}) st.

(** The frame shared by the loops over rows (lines 265-272, 305-312,
    327-334, 349-356): read the subject and the value, skip an empty value,
    note the subject, then run the body. *)
Fixpoint process_rows
    (body : string → string → generator → generator) (col_idx : nat)
    (rows : list (list string)) (st : generator) : result generator :=
  match rows with
  | [] => Ok st
  | row :: rows' =>
      osd_id ← list_item row 0;
      value ← list_item row col_idx;
      if negb (PyStr.truthy value) then process_rows body col_idx rows' st
      else process_rows body col_idx rows' (body value osd_id (add_osd_id osd_id st))
  end.

(** Line 288. *)
Definition factor_cols (cols : list string) : list string :=
  filter (λ col, PyStr.contains "factor value" (PyStr.lower col) = true) cols.

(** Line 290: [col.split('.')[-1]]. *)
Definition factor_name_of (col : string) : string :=
  List.last (PyStr.split "." col) "".

(** Lines 288-300. *)
Definition process_factors (st : generator) : generator :=
  foldl (λ st col, reconcile Factor "other" (factor_name_of col) "schema" st)
        st (factor_cols (columns (factor_data st))).

(** The column each feed is read from. *)
Definition assay_column : string :=
  "investigation.study assays.study assay technology type".
Definition organism_column : string := "study.characteristics.organism".
Definition material_column : string := "study.characteristics.material type".
Definition mission_column : string :=
  "investigation.study.comment.project identifier".

(** Lines 258-394. *)
Definition process_api_data (st : generator) : result generator :=
  col_idx ← list_index assay_column (columns (assay_data st));
  st ← process_rows (reconcile AssayTechnologyType "Other Assay Types")
                    col_idx (data (assay_data st)) st;
  let st := process_factors st in
  col_idx ← list_index organism_column (columns (organism_data st));
  st ← process_rows (reconcile Organism "Other Organisms")
                    col_idx (data (organism_data st)) st;
  col_idx ← list_index material_column (columns (material_data st));
  st ← process_rows (reconcile MaterialType "Other Materials")
                    col_idx (data (material_data st)) st;
  col_idx ← list_index mission_column (columns (mission_data st));
  process_rows process_missions col_idx (data (mission_data st)) st.

(** ** The Completeness Verifier (lines 396-442) *)

(** [{norm(val) for values in d.values() for val in values}] *)
Definition norms_of (d : cats) : gset string :=
  foldr (λ kv acc, set_map norm kv.2 ∪ acc) ∅ d.

Definition original_values (st : generator) : gset string :=
  ⋃ ((λ g, norms_of (idx_get g (existing_structure st))) <$> originals).

Definition new_values (st : generator) : gset string :=
  ⋃ ((λ g, norms_of (out_get (Orig g) (new_json st))) <$> originals).

Definition missing (st : generator) : gset string :=
  original_values st ∖ new_values st.

Definition verify_completeness (st : generator) : bool :=
  bool_decide (missing st = ∅).

(** ** The Report Emitter, [run] and [main] (lines 444-581) *)

Global Instance by_key_dec {A} : RelDecision (λ a b : string * A, String.le a.1 b.1).
Proof. intros a b. apply _. Defined.

(** Lines 444-458: groupings in the fixed order, categories sorted by
    name, values sorted. *)
Definition generate_output_json (st : generator)
    : list (string * list (string * list string)) :=
  (λ g, (grouping_name g,
         (λ kv : string * gset string, (kv.1, merge_sort String.le (elements kv.2)))
           <$> merge_sort (λ a b, String.le a.1 b.1) (out_get g (new_json st))))
    <$> ((Orig <$> originals) ++ [Mission]).

(** What is handed to each of the three files, before it is rendered as
    text. *)
Inductive artifact :=
  | TaxonomyJson (o : list (string * list (string * list string)))
  | AdditionsReport (l : list record)
  | UnmappedReport (l : list record).

Definition files : Type := list (string * artifact).

Definition output_name : string := "filter-options-new.json".
Definition additions_name : string := "additions-report.txt".
Definition unmapped_name : string := "unmapped-report.txt".

(** The three files a completed [save_outputs] leaves. *)
Definition artifacts_of (st : generator) : files :=
  [ (output_name, TaxonomyJson (generate_output_json st));
    (additions_name, AdditionsReport (additions st));
    (unmapped_name, UnmappedReport (unmapped st)) ].

(** Lines 460-541.  [writable] says which of the files can be opened for
    writing; the result carries the files written so far. *)
Definition save_outputs (writable : string → bool) (st : generator)
    : result unit * files :=
  if negb (writable output_name) then (Raise OSError, [])
  else if negb (writable additions_name) then (Raise OSError, take 1 (artifacts_of st))
  else if negb (writable unmapped_name) then (Raise OSError, take 2 (artifacts_of st))
  else (Ok (), artifacts_of st).

(** Lines 543-562. *)
Definition run (writable : string → bool) (st : generator) : result bool * files :=
  match process_api_data st with
  | Raise e => (Raise e, [])
  | Ok st =>
      let is_complete := verify_completeness st in
      match save_outputs writable st with
      | (Raise e, fs) => (Raise e, fs)
      | (Ok _, fs) => (Ok is_complete, fs)
      end
  end.

(** What the outside world answers during one run: the six downloads, each
    already parsed and validated or failed, and which files can be written. *)
Record world := {
  filter_options : result document;
  assays : result feed;
  factors : result feed;
  organisms : result feed;
  materials : result feed;
  missions : result feed;
  writable : string → bool
}.

(** Lines 27-62, [__init__]. *)
Definition init (w : world) : result generator :=
  current ← filter_options w;
  assay ← assays w;
  fact ← factors w;
  organ ← organisms w;
  material ← materials w;
  miss ← missions w;
  let existing := extract_existing_structure current in
  Ok {| current_json := current;
        assay_data := assay; factor_data := fact; organism_data := organ;
        material_data := material; mission_data := miss;
        existing_structure := existing;
        new_json := initialize_from_existing existing;
        additions := []; unmapped := []; all_osd_ids := ∅ |}.

(** Lines 573-581: [sys.exit(0 if success else 1)], and [sys.exit(1)] in the
    handler. *)
Definition exit_code (r : result bool) : Z :=
  match r with
  | Ok success => if success then 0 else 1
  | Raise _ => 1
  end.

(** Lines 565-581: the exit code and the files the run left. *)
Definition main (w : world) : Z * files :=
  match init w with
  | Raise e => (exit_code (Raise e), [])
  | Ok generator =>
      let (success, fs) := run (writable w) generator in (exit_code success, fs)
  end.

(** ** The taxonomy document as JSON *)

(** A value as [json.load] returns it: [None], a [bool], a number (kept as
    it is written, since nothing here computes with one), a [str], a [list]
    or a [dict].  The members of an object are kept in the order of the
    text; where a name is repeated, the dict has its last value. *)
Unset Elimination Schemes.
Inductive json :=
  | JNull
  | JBool (b : bool)
  | JNum (literal : string)
  | JStr (s : string)
  | JArr (items : list json)
  | JObj (fields : list (string * json)).
Set Elimination Schemes.

Module Raw.

(** [d.get(k)] on a dict. *)
Fixpoint lookup (k : string) (fields : list (string * json)) : option json :=
  match fields with
  | [] => None
  | (k', v) :: rest =>
      match lookup k rest with
      | Some w => Some w
      | None => if bool_decide (k' = k) then Some v else None
      end
  end.

(** The keys of a dict, in insertion order. *)
Fixpoint keys (fields : list (string * json)) : list string :=
  match fields with
  | [] => []
  | (k, _) :: rest => k :: filter (λ k', k' ≠ k) (keys rest)
  end.

(** [x.get(k, d)]: only a dict has the method. *)
Definition get (x : json) (k : string) (d : json) : result json :=
  match x with
  | JObj fields => Ok (default d (lookup k fields))
  | _ => Raise AttributeError
  end.

(** [v == x] for a string [x]. *)
Definition is_str (x : string) (v : json) : bool :=
  match v with
  | JStr s => bool_decide (s = x)
  | _ => false
  end.

(** [x in v] for a string [x]: a substring test on a [str], an element
    test on a [list], a key test on a [dict], and a [TypeError] on the
    values that are not containers. *)
Definition contains (x : string) (v : json) : result bool :=
  match v with
  | JStr s => Ok (PyStr.contains x s)
  | JArr items => Ok (existsb (is_str x) items)
  | JObj fields => Ok (bool_decide (x ∈ fields.*1))
  | JNull | JBool _ | JNum _ => Raise TypeError
  end.

(** [for item in v]: the elements of a [list], the characters of a [str],
    the keys of a [dict]; the other values cannot be iterated. *)
Definition iter (v : json) : result (list json) :=
  match v with
  | JArr items => Ok items
  | JStr s => Ok ((λ c, JStr (String c "")) <$> list_ascii_of_string s)
  | JObj fields => Ok (JStr <$> keys fields)
  | JNull | JBool _ | JNum _ => Raise TypeError
  end.

(** [a or b]: [b] is evaluated only when [a] is false. *)
Definition or_else (a b : result bool) : result bool :=
  match a with
  | Ok true => Ok true
  | Ok false => b
  | Raise e => Raise e
  end.

(** [if test: grouping = g] followed by the [elif] branches. *)
Definition branch (test : result bool) (g : original)
    (otherwise : result (option original)) : result (option original) :=
  match test with
  | Ok true => Ok (Some g)
  | Ok false => otherwise
  | Raise e => Raise e
  end.

(** Lines 172-186: the grouping of a top-level entry, or [None]. *)
Definition identify_grouping (item : json) : result (option original) :=
  display ← get item "displayValue" (JStr "");
  values ← get item "values" (JArr []);
  branch (contains "Project Type" values) ProjectType $
  branch (or_else (contains "Assay Type" display)
                  (contains "Study Assay Technology Type" values))
         AssayTechnologyType $
  branch (contains "organism" values) Organism $
  branch (or_else (contains "Tissue" display) (contains "material type" values))
         MaterialType $
  branch (or_else (contains "Factor" display) (contains "Study Factor Name" values))
         Factor $
  Ok None.

(** *** The children of a recognized entry

    Lines 192-216 are embedded on children of the shape [node] describes.
    The functions below read that shape off a JSON value and give nothing
    on any other. *)

Definition read_label (v : option json) : option (option string) :=
  match v with
  | None => Some None
  | Some (JStr s) => Some (Some s)
  | Some _ => None
  end.

Definition read_string (v : json) : option string :=
  match v with
  | JStr s => Some s
  | _ => None
  end.

Definition read_list {A} (read : json → option A) (v : option json) : option (list A) :=
  match v with
  | None => Some []
  | Some (JArr items) => mapM read items
  | Some _ => None
  end.

(** A grandchild: its own children are never looked at. *)
Definition read_subchild (v : json) : option node :=
  match v with
  | JObj fields =>
      label ← read_label (lookup "displayValue" fields);
      vals ← read_list read_string (lookup "values" fields);
      Some (Node label vals [])
  | _ => None
  end.

Definition read_child (v : json) : option node :=
  match v with
  | JObj fields =>
      label ← read_label (lookup "displayValue" fields);
      vals ← read_list read_string (lookup "values" fields);
      subchildren ← read_list read_subchild (lookup "children" fields);
      Some (Node label vals subchildren)
  | _ => None
  end.

Definition read_children (item : json) : option (list node) :=
  match item with
  | JObj fields => read_list read_child (lookup "children" fields)
  | _ => None
  end.

(** Lines 171-216, the body of the loop over top-level entries: the index
    it leaves, the exception it raises, or nothing when the entry is
    recognized and its children are not of the shape read above. *)
Definition extract_item (s : index) (item : json) : option (result index) :=
  match identify_grouping item with
  | Raise e => Some (Raise e)
  | Ok None => Some (Ok s)
  | Ok (Some g) =>
      children ← read_children item;
      Some (Ok (idx_set g (foldl extract_child (idx_get g s) children) s))
  end.

Fixpoint extract_items (s : index) (items : list json) : option (result index) :=
  match items with
  | [] => Some (Ok s)
  | item :: rest =>
      match extract_item s item with
      | Some (Ok s') => extract_items s' rest
      | stopped => stopped
      end
  end.

(** Lines 157-223. *)
Definition extract_existing_structure (current_json : json) : option (result index) :=
  match get current_json "study" (JArr []) with
  | Raise e => Some (Raise e)
  | Ok study_section =>
      match iter study_section with
      | Raise e => Some (Raise e)
      | Ok items => extract_items empty_index items
      end
  end.

(** The recognition rules of the specification in their priority order, as
    tests on the entry's values and display label that can raise. *)
Definition recognition_rules : list ((json → json → result bool) * original) :=
  [ (λ values _, contains "Project Type" values, ProjectType);
    (λ values display, or_else (contains "Assay Type" display)
                               (contains "Study Assay Technology Type" values),
     AssayTechnologyType);
    (λ values _, contains "organism" values, Organism);
    (λ values display, or_else (contains "Tissue" display)
                               (contains "material type" values),
     MaterialType);
    (λ values display, or_else (contains "Factor" display)
                               (contains "Study Factor Name" values),
     Factor) ].

(** The first rule that matches; a test that raises ends the search. *)
Fixpoint first_match (rules : list ((json → json → result bool) * original))
    (values display : json) : result (option original) :=
  match rules with
  | [] => Ok None
  | (test, g) :: rules' =>
      match test values display with
      | Ok true => Ok (Some g)
      | Ok false => first_match rules' values display
      | Raise e => Raise e
      end
  end.

(** A value the [in] operator applies to. *)
Definition container (v : json) : bool :=
  match v with
  | JStr _ | JArr _ | JObj _ => true
  | JNull | JBool _ | JNum _ => false
  end.

(** The label and the values lines 172-173 read off an object. *)
Definition display_of (fields : list (string * json)) : json :=
  default (JStr "") (lookup "displayValue" fields).

Definition values_of (fields : list (string * json)) : json :=
  default (JArr []) (lookup "values" fields).

End Raw.

(** A document of the typed shape, as JSON. *)
Fixpoint json_of_node (n : node) : json :=
  match n with
  | Node label vals subnodes =>
      JObj ((match label with
             | Some d => [("displayValue", JStr d)]
             | None => []
             end) ++
            [("values", JArr (JStr <$> vals));
             ("children", JArr (json_of_node <$> subnodes))])
  end.

Definition json_of_document (doc : document) : json :=
  JObj [("study", JArr (json_of_node <$> study doc))].

(** A node without what lies below its children. *)
Definition cut_subchild (n : node) : node := Node (displayValue n) (values n) [].

Definition cut_child (n : node) : node :=
  Node (displayValue n) (values n) (cut_subchild <$> children n).
(** * Definitions used to state and prove the properties *)

(** ** Growth and well-formedness of category dicts *)

(** [d ⊑ d']: every category of [d] is a category of [d'], with at least
    the same values. *)
Definition cats_le (d d' : cats) : Prop :=
  ∀ c, (Cats.mem c d = true → Cats.mem c d' = true) ∧
       Cats.values_of c d ⊆ Cats.values_of c d'.

Global Instance cats_le_preorder : PreOrder cats_le.
Proof.
  split.
  - intros d c. done.
  - intros d1 d2 d3 H12 H23 c. destruct (H12 c), (H23 c). split; [auto|set_solver].
Qed.

(** Categories are named by non-empty strings, each once. *)
Definition cats_wf (d : cats) : Prop :=
  NoDup (Cats.keys d) ∧ Forall (λ k, k ≠ "") (Cats.keys d).

Definition index_le (s s' : index) : Prop :=
  ∀ g, cats_le (idx_get g s) (idx_get g s').

Global Instance index_le_preorder : PreOrder index_le.
Proof.
  split.
  - intros s g. done.
  - intros s1 s2 s3 H12 H23 g. etrans; [apply H12|apply H23].
Qed.

Definition index_wf (s : index) : Prop := ∀ g, cats_wf (idx_get g s).

(** ** Grouping recognition *)

(** The recognition rules of the specification, in its priority order:
    Project Type marker, Assay-type markers, Organism marker, Material-type
    markers, Factor markers.  A rule looks at the entry's marker values and
    at its display label. *)
Definition recognition_rules : list ((list string → string → bool) * original) :=
  [ (λ markers _, bool_decide ("Project Type" ∈ markers), ProjectType);
    (λ markers label, PyStr.contains "Assay Type" label
                      || bool_decide ("Study Assay Technology Type" ∈ markers),
     AssayTechnologyType);
    (λ markers _, bool_decide ("organism" ∈ markers), Organism);
    (λ markers label, PyStr.contains "Tissue" label
                      || bool_decide ("material type" ∈ markers),
     MaterialType);
    (λ markers label, PyStr.contains "Factor" label
                      || bool_decide ("Study Factor Name" ∈ markers),
     Factor) ].

(** The first rule of a list that matches. *)
Fixpoint first_match {A B C} (rules : list ((A → B → bool) * C)) (a : A) (b : B)
    : option C :=
  match rules with
  | [] => None
  | (test, c) :: rules' => if test a b then Some c else first_match rules' a b
  end.

(** ** Category names *)

(** The derivation of a name in the words of the specification: the display
    label, falling back to the first raw value when the label is empty,
    falling back to "Uncategorized" when both are empty. *)
Definition spec_derived_name (n : node) : string :=
  let label := default "" (displayValue n) in
  if PyStr.truthy label then label
  else if PyStr.truthy (first_value n) then first_value n
  else "Uncategorized".

(** The name the code derives for a child, case by case. *)
Definition derived_category (child : node) : string :=
  match displayValue child with
  | Some label => if PyStr.truthy label then label else "Uncategorized"
  | None =>
      match values child with
      | v :: _ => if PyStr.truthy v then v else "Uncategorized"
      | [] => "Uncategorized"
      end
  end.


(** ** Observations and the events of a pass *)

(** The Observation Records of a feed read at one column: subject and raw
    value of every row whose value is not empty. *)
Definition observed (col_idx : nat) (rows : list (list string)) : list (string * string) :=
  rows ≫= λ row,
    match row !! 0, row !! col_idx with
    | Some osd_id, Some value => if PyStr.truthy value then [(osd_id, value)] else []
    | _, _ => []
    end.

Definition observations (column : string) (f : feed) : list (string * string) :=
  match list_index column (columns f) with
  | Ok col_idx => observed col_idx (data f)
  | Raise _ => []
  end.

(** What a pass observes for each original grouping.  Factor names come
    from the column names and carry the subject ["schema"]; Project Type has
    no feed. *)
Definition observed_values (g : original) (st : generator) : list (string * string) :=
  match g with
  | ProjectType => []
  | AssayTechnologyType => observations assay_column (assay_data st)
  | Factor =>
      (λ col, ("schema", factor_name_of col)) <$> factor_cols (columns (factor_data st))
  | Organism => observations organism_column (organism_data st)
  | MaterialType => observations material_column (material_data st)
  end.

(** The fallback category of each grouping that has a feed (lines 282,
    298, 320, 342). *)
Definition fallback_category (g : original) : option string :=
  match g with
  | ProjectType => None
  | AssayTechnologyType => Some "Other Assay Types"
  | Factor => Some "other"
  | Organism => Some "Other Organisms"
  | MaterialType => Some "Other Materials"
  end.

(** The non-empty pieces of a composite mission string. *)
Definition mission_pieces (missions_str : string) : list string :=
  filter (λ mission, mission ≠ "") (split_missions missions_str).

(** The pieces a pass observes in the mission feed, with their subject. *)
Definition observed_missions (st : generator) : list (string * string) :=
  observations mission_column (mission_data st) ≫= λ '(osd_id, missions_str),
    (λ mission, (osd_id, mission)) <$> mission_pieces missions_str.

(** The three things a pass does to the object. *)
Inductive event :=
  | NoteSubject (osd_id : string)
  | Reconcile (g : original) (other value subject : string)
  | PlaceMission (mission osd_id : string).

Definition apply_event (st : generator) (e : event) : generator :=
  match e with
  | NoteSubject osd_id => add_osd_id osd_id st
  | Reconcile g other value subject => reconcile g other value subject st
  | PlaceMission mission osd_id => place_mission mission osd_id st
  end.

Definition row_events (g : original) (other : string) (obs : string * string) : list event :=
  [NoteSubject obs.1; Reconcile g other obs.2 obs.1].

Definition factor_event (col : string) : event :=
  Reconcile Factor "other" (factor_name_of col) "schema".

Definition mission_events (obs : string * string) : list event :=
  NoteSubject obs.1 :: ((λ mission, PlaceMission mission obs.1) <$> mission_pieces obs.2).

(** The events of [process_api_data], in the order of its five loops. *)
Definition events (st : generator) : list event :=
  (observations assay_column (assay_data st)
     ≫= row_events AssayTechnologyType "Other Assay Types") ++
  (factor_event <$> factor_cols (columns (factor_data st))) ++
  (observations organism_column (organism_data st)
     ≫= row_events Organism "Other Organisms") ++
  (observations material_column (material_data st)
     ≫= row_events MaterialType "Other Materials") ++
  (observations mission_column (mission_data st) ≫= mission_events).

(** An event names the fallback category of its grouping. *)
Definition event_ok (e : event) : Prop :=
  match e with
  | Reconcile g other _ _ => fallback_category g = Some other
  | _ => True
  end.

(** Where [reconcile] puts a value: the matched category, or the fallback
    category when there is no match; the flag tells which. *)
Definition target (g : original) (other value : string) (existing : index)
    : string * bool :=
  match find_category_for_value value g existing with
  | Some category => if PyStr.truthy category then (category, true) else (other, false)
  | None => (other, false)
  end.

(** The grouping, category and value an event inserts, if any. *)
Definition placement (existing : index) (e : event)
    : option (grouping * string * string) :=
  match e with
  | NoteSubject _ => None
  | Reconcile g other value _ => Some (Orig g, (target g other value existing).1, value)
  | PlaceMission mission _ => Some (Mission, classify_mission mission, mission)
  end.

(** An event that changes nothing any more. *)
Definition absorbed (st : generator) (e : event) : Prop :=
  match e with
  | NoteSubject osd_id => osd_id ∈ all_osd_ids st
  | _ =>
      match placement (existing_structure st) e with
      | Some (g, c, v) => v ∈ out_values g c st
      | None => True
      end
  end.

(** The feeds and the snapshot of two states agree. *)
Definition same_inputs (st st' : generator) : Prop :=
  assay_data st' = assay_data st ∧ factor_data st' = factor_data st ∧
  organism_data st' = organism_data st ∧ material_data st' = material_data st ∧
  mission_data st' = mission_data st ∧
  existing_structure st' = existing_structure st ∧
  current_json st' = current_json st.

(** The output index holds at least the snapshot. *)
Definition covers (st : generator) : Prop :=
  ∀ g, cats_le (idx_get g (existing_structure st)) (out_get (Orig g) (new_json st)).

(** The output index of one state is within that of another. *)
Definition output_le (st st' : generator) : Prop :=
  ∀ g, cats_le (out_get g (new_json st)) (out_get g (new_json st')).

(** Every row of a feed reaches the column that is read. *)
Definition feed_ok (column : string) (f : feed) : Prop :=
  ∃ col_idx, list_index column (columns f) = Ok col_idx ∧
             Forall (λ row : list string, col_idx < length row) (data f).

Definition feeds_ok (st : generator) : Prop :=
  feed_ok assay_column (assay_data st) ∧ feed_ok organism_column (organism_data st) ∧
  feed_ok material_column (material_data st) ∧ feed_ok mission_column (mission_data st).

(** Unmapped Records of a grouping and value; Addition Records of a
    grouping and value. *)
Definition unmapped_of (g : grouping) (v : string) (st : generator) : list record :=
  filter (λ r : record, r.1.1 = g ∧ r.1.2 = v) (unmapped st).

Definition additions_of (g : grouping) (v : string) (st : generator) : list record :=
  filter (λ r : record, r.1.1 = g ∧ r.2 = v) (additions st).

(** ** The shape shared by the insertions *)

(** Insert [v] at [(g, c)] unless it is there, and run [log] when it was
    inserted: the shape shared by the branches of [reconcile] and by
    [place_mission]. *)
Definition insert_then (g : grouping) (c v : string)
    (log : generator → generator) (st : generator) : generator :=
  let st := touch_category g c st in
  if bool_decide (v ∉ out_values g c st) then log (add_value g c v st) else st.

Definition log_of (o : original) (c v subject : string) (matched : bool)
    : generator → generator :=
  if matched then record_addition (Orig o, c, v)
  else record_unmapped (Orig o, v, subject).

Definition mission_log (mission osd_id : string) : generator → generator :=
  λ st, if bool_decide (classify_mission mission = "Other Missions")
        then record_unmapped (Mission, mission, osd_id) st else st.

(** A [log] only appends records. *)
Definition logs (log : generator → generator) : Prop :=
  ∀ st, new_json (log st) = new_json st ∧ same_inputs st (log st) ∧
        all_osd_ids (log st) = all_osd_ids st.


(** The records an event appends. *)
Definition new_additions (st : generator) (e : event) : list record :=
  match e with
  | Reconcile o other v _ =>
      let t := target o other v (existing_structure st) in
      if bool_decide (v ∉ out_values o t.1 st) && t.2 then [(Orig o, t.1, v)] else []
  | _ => []
  end.

Definition new_unmapped (st : generator) (e : event) : list record :=
  match e with
  | Reconcile o other v subject =>
      let t := target o other v (existing_structure st) in
      if bool_decide (v ∉ out_values o t.1 st) && negb t.2 then [(Orig o, v, subject)] else []
  | PlaceMission mission osd_id =>
      if bool_decide (mission ∉ out_values Mission (classify_mission mission) st)
         && bool_decide (classify_mission mission = "Other Missions")
      then [(Mission, mission, osd_id)] else []
  | NoteSubject _ => []
  end.

Definition noted (e : event) : gset string :=
  match e with
  | NoteSubject osd_id => {[osd_id]}
  | _ => ∅
  end.

(** The state [__init__] leaves: the snapshot extracted from the document,
    the output index copied from it, nothing recorded yet. *)
Definition initial (st : generator) : Prop :=
  existing_structure st = extract_existing_structure (current_json st) ∧
  new_json st = initialize_from_existing (existing_structure st) ∧
  additions st = [] ∧ unmapped st = [] ∧ all_osd_ids st = ∅.

(** ** Mission classification *)

(** The rules of the specification, in its priority order.  A rule sees
    the piece as observed and its normalized form; all but the prefix test
    of the third look at the normalized form only. *)
Definition mission_rules : list ((string → string → bool) * string) :=
  [ (λ _ n, PyStr.any_in ["expedition"; "increment"; "iss"] n, "ISS Expeditions");
    (λ _ n, PyStr.any_in ["sts-"; "sts "; "shuttle"; "sls-"] n, "Space Shuttle");
    (λ raw n, PyStr.startswith raw "RR-" || PyStr.contains "rodent research" n,
     "Rodent Research");
    (λ _ n, PyStr.any_in ["bion"; "cosmos"] n, "Bion/Cosmos");
    (λ _ n, PyStr.any_in ["bric-"; "apex-"; "veg-"; "ffl"; "cbtm"; "cerise"] n,
     "Payload Investigations");
    (λ _ n, PyStr.any_in ["ground"; "bsl"; "baseline"] n, "Ground Control");
    (λ _ n, PyStr.any_in ["gamma_irradiation"; "heavy_ion"; "hze"; "proton_irradiation";
                          "x-ray_irradiation"; "irradiation"; "radiation"] n,
     "Radiation Studies");
    (λ _ n, PyStr.any_in ["hindlimb_unloading"; "simulated_microgravity";
                          "simulated_hypergravity"; "simulated_environmental"] n,
     "Simulated Conditions");
    (λ _ n, PyStr.any_in ["inspiration4"; "axiom"; "ax-"; "spacex"] n,
     "Commercial Spaceflight") ].

(** The ten categories of the Mission grouping. *)
Definition mission_categories : list string :=
  mission_rules.*2 ++ ["Other Missions"].

(** ** A worked run: the end-to-end scenario *)

Module Scenario.

Definition doc : document :=
  {| study :=
       [ Node (Some "Organism") ["organism"]
           [ Node (Some "Rodents") ["Mus musculus"] [] ] ] |}.

Definition assay_feed : feed :=
  {| columns := ["id"; "investigation.study assays.study assay technology type"];
     data := [ ["OSD-100"; "Quantum Flux Sequencing"];
               ["OSD-101"; "Quantum Flux Sequencing"];
               ["OSD-102"; ""] ] |}.

Definition factor_feed : feed :=
  {| columns := ["id"; "study.factor value.Spaceflight"; "assay.name"];
     data := [] |}.

Definition organism_feed : feed :=
  {| columns := ["id"; "study.characteristics.organism"];
     data := [ ["OSD-100"; "mus musculus"]; ["OSD-101"; "Rattus norvegicus"] ] |}.

Definition material_feed : feed :=
  {| columns := ["id"; "study.characteristics.material type"]; data := [] |}.

Definition mission_feed : feed :=
  {| columns := ["id"; "investigation.study.comment.project identifier"];
     data := [ ["OSD-100"; "RR-5, Expedition 45"]; ["OSD-101"; "Foton, ,RR-5"] ] |}.

Definition w : world :=
  {| filter_options := Ok doc;
     assays := Ok assay_feed; factors := Ok factor_feed;
     organisms := Ok organism_feed; materials := Ok material_feed;
     missions := Ok mission_feed;
     writable := λ _, true |}.

Definition st0 : generator :=
  match init w with Ok st => st | Raise _ =>
    {| current_json := doc; assay_data := assay_feed; factor_data := factor_feed;
       organism_data := organism_feed; material_data := material_feed;
       mission_data := mission_feed; existing_structure := empty_index;
       new_json := initialize_from_existing empty_index;
       additions := []; unmapped := []; all_osd_ids := ∅ |} end.

(** An object whose output index has lost the snapshot's values, with
    feeds that observe nothing: verification has to fail on it. *)
Definition empty_feed (column : string) : feed :=
  {| columns := ["id"; column]; data := [] |}.

Definition lossy : generator :=
  {| current_json := doc;
     assay_data := empty_feed assay_column;
     factor_data := empty_feed "assay.name";
     organism_data := empty_feed organism_column;
     material_data := empty_feed material_column;
     mission_data := empty_feed mission_column;
     existing_structure := extract_existing_structure doc;
     new_json := initialize_from_existing empty_index;
     additions := []; unmapped := []; all_osd_ids := ∅ |}.

End Scenario.


(** ** Whitespace *)

(** The code points below 256 that [str.isspace] accepts, which are the
    ones [str.strip] removes: tab to carriage return, the four separators
    28 to 31, the blank, next line and the no-break space. *)
Definition whitespace : list ascii :=
  ascii_of_nat <$> [9; 10; 11; 12; 13; 28; 29; 30; 31; 32; 133; 160]%nat.

(** A string made of whitespace only. *)
Fixpoint blank (s : string) : Prop :=
  match s with
  | "" => True
  | String c s' => c ∈ whitespace ∧ blank s'
  end.

(** The tab character. *)
Definition tab : string := String (ascii_of_nat 9) "".

(** ** Definitions for the further properties *)

(** The category an Unmapped Record of a grouping stands for. *)
Definition unmapped_slot (g : grouping) : string :=
  match g with
  | Orig o => default "" (fallback_category o)
  | Mission => "Other Missions"
  end.

(** The grouping and value an Unmapped Record is for. *)
Definition record_key (r : record) : grouping * string := (r.1.1, r.1.2).

(** What a pass keeps true of the records, given the snapshot [ex]: the
    output index holds the snapshot; an Addition Record is there once, for a
    value that is in the category found for it and was not in that category
    of the snapshot; there is one Unmapped Record for a grouping and value
    at most, and its value is in the fallback category. *)
Definition records_ok (ex : index) (st : generator) : Prop :=
  existing_structure st = ex ∧
  covers st ∧
  NoDup (additions st) ∧
  (∀ g c v, (g, c, v) ∈ additions st →
     v ∈ out_values g c st ∧
     ∃ o, g = Orig o ∧ find_category_for_value v o ex = Some c ∧
          v ∉ Cats.values_of c (idx_get o ex)) ∧
  NoDup (record_key <$> unmapped st) ∧
  (∀ g v s, (g, v, s) ∈ unmapped st → v ∈ out_values g (unmapped_slot g) st).

(** No category of the output index is both new and empty. *)
Definition no_empty_new_category (st : generator) : Prop :=
  ∀ g c, Cats.mem c (out_get g (new_json st)) = true →
    (∃ o, g = Orig o ∧ Cats.mem c (idx_get o (existing_structure st)) = true) ∨
    ∃ v, v ∈ out_values g c st.

(** Categories are compared by name. *)
Definition by_name (a b : string * gset string) : Prop := String.le a.1 b.1.

Global Instance by_name_trans : Transitive by_name.
Proof. intros a b c. unfold by_name. apply transitivity. Qed.

Global Instance by_name_total : Total by_name.
Proof. intros a b. unfold by_name. apply total, _. Qed.

(** An object whose output index has the snapshot's only value under
    another grouping and in another spelling. *)
Definition misplaced : generator :=
  {| current_json := Scenario.doc;
     assay_data := Scenario.empty_feed assay_column;
     factor_data := Scenario.empty_feed "assay.name";
     organism_data := Scenario.empty_feed organism_column;
     material_data := Scenario.empty_feed material_column;
     mission_data := Scenario.empty_feed mission_column;
     existing_structure := extract_existing_structure Scenario.doc;
     new_json :=
       {| kept := idx_set Factor [("other", {["MUS MUSCULUS "]})] empty_index;
          mission := [] |};
     additions := []; unmapped := []; all_osd_ids := ∅ |}.

(** What a child of an entry contributes under a category name. *)
Definition contributes (child : node) (c v : string) : Prop :=
  v ≠ "" ∧
  ((c = category_of child ∧ v ∈ values child) ∨
   ∃ subchild, subchild ∈ children child ∧
               c = full_category_of (category_of child) subchild ∧
               v ∈ values subchild).

(** ** The unmapped report (lines 513-536) *)

(** [d[k].append(x)] on a dict of lists, in insertion order; the list is
    created when the key is missing ([defaultdict(list)], or the explicit
    test of lines 525-527). *)
Fixpoint append_to {A} (k : string) (x : A) (d : list (string * list A))
    : list (string * list A) :=
  match d with
  | [] => [(k, [x])]
  | (k', l) :: d' =>
      if bool_decide (k' = k) then (k', l ++ [x]) :: d' else (k', l) :: append_to k x d'
  end.

(** The pairs grouped by their first component. *)
Definition group_by_key {A} (l : list (string * A)) : list (string * list A) :=
  foldl (λ d p, append_to p.1 p.2 d) [] l.

(** What is written for one value: the value, the identifiers shown
    ([ids[:5]]) and [more = len(ids) - 5]; "and [more] more" is written
    when [more > 0]. *)
Definition report_line (vl : string * list string) : string * list string * Z :=
  (vl.1, take 5 vl.2, (Z.of_nat (length vl.2) - 5)%Z).

(** What the unmapped report is written from: for each grouping that has
    Unmapped Records, in the order of the grouping names, the lines of its
    distinct values, in the order of the values. *)
Definition unmapped_report (l : list record)
    : list (string * list (string * list string * Z)) :=
  let by_group :=
    group_by_key ((λ r : record, (grouping_name r.1.1, (r.1.2, r.2))) <$> l) in
  (λ gl : string * list (string * string),
     (gl.1, report_line <$> merge_sort (λ a b, String.le a.1 b.1) (group_by_key gl.2)))
    <$> merge_sort (λ a b, String.le a.1 b.1) by_group.
(** * Properties *)

(** ** Facts about the string operations *)

Section string_facts.
Import PyStr.

Lemma is_space_lower_char c : is_space (lower_char c) = is_space c.
Proof. by destruct c as [[] [] [] [] [] [] [] []]. Qed.

Lemma lower_char_idemp c : lower_char (lower_char c) = lower_char c.
Proof. by destruct c as [[] [] [] [] [] [] [] []]. Qed.

Lemma lower_idemp s : lower (lower s) = lower s.
Proof. induction s as [|c s IH]; simpl; [done|]. by rewrite lower_char_idemp, IH. Qed.

Lemma lstrip_lower s : lstrip (lower s) = lower (lstrip s).
Proof.
  induction s as [|c s IH]; simpl; [done|].
  rewrite is_space_lower_char. by destruct (is_space c).
Qed.

Lemma lower_empty s : lower s = "" ↔ s = "".
Proof. by destruct s. Qed.

Lemma rstrip_lower s : rstrip (lower s) = lower (rstrip s).
Proof.
  induction s as [|c s IH]; simpl; [done|].
  rewrite IH, is_space_lower_char.
  destruct (rstrip s); simpl; [|done]. by destruct (is_space c).
Qed.

Lemma strip_lower s : strip (lower s) = lower (strip s).
Proof. unfold strip. by rewrite lstrip_lower, rstrip_lower. Qed.

Lemma lstrip_idemp s : lstrip (lstrip s) = lstrip s.
Proof.
  induction s as [|c s IH]; simpl; [done|].
  destruct (is_space c) eqn:E; [done|]. simpl. by rewrite E.
Qed.

Lemma rstrip_cons c s :
  rstrip (String c s) =
  match rstrip s with
  | "" => if is_space c then "" else String c ""
  | r => String c r
  end.
Proof. done. Qed.

Lemma rstrip_nonspace c s : is_space c = false → rstrip (String c s) = String c (rstrip s).
Proof. intros E. simpl. rewrite E. by destruct (rstrip s). Qed.

Lemma rstrip_idemp s : rstrip (rstrip s) = rstrip s.
Proof.
  induction s as [|c s IH]; simpl; [done|].
  destruct (rstrip s) as [|d r] eqn:E.
  - destruct (is_space c) eqn:Ec; simpl; [done|]. by rewrite Ec.
  - by rewrite rstrip_cons, IH.
Qed.

Lemma lstrip_rstrip s : lstrip (rstrip s) = rstrip (lstrip s).
Proof.
  induction s as [|c s IH]; simpl; [done|].
  destruct (is_space c) eqn:Ec.
  - rewrite <-IH. destruct (rstrip s); simpl; [done|]. by rewrite Ec.
  - rewrite rstrip_nonspace by done.
    destruct (rstrip s); simpl; by rewrite Ec.
Qed.

Lemma strip_idemp s : strip (strip s) = strip s.
Proof.
  unfold strip. by rewrite lstrip_rstrip, rstrip_idemp, lstrip_idemp.
Qed.

Lemma truthy_spec s : truthy s = true ↔ s ≠ "".
Proof. unfold truthy. rewrite negb_true_iff, bool_decide_eq_false. done. Qed.

Lemma norm_empty : norm "" = "".
Proof. done. Qed.

Lemma norm_nonempty s : s ≠ "" → norm s = lower (strip s).
Proof. intros. unfold norm. by rewrite (proj2 (truthy_spec s)). Qed.

Lemma norm_unfold s : norm s = lower (strip s).
Proof. destruct s; [done|]. by apply norm_nonempty. Qed.

End string_facts.


(** ** Splitting, joining and searching *)

Section split_facts.
Import PyStr.

Lemma append_cons c s t : String c s +:+ t = String c (s +:+ t).
Proof. done. Qed.

Lemma append_nil_l t : "" +:+ t = t.
Proof. done. Qed.

Lemma split_nonempty sep s : split sep s ≠ [].
Proof.
  destruct s as [|c s]; simpl; [done|].
  case_bool_decide; [done|]. by destruct (split sep s).
Qed.

Lemma join_cons sep s t :
  t ≠ [] → join sep (s :: t) = s +:+ String sep (join sep t).
Proof. by destruct t. Qed.

(** Joining the pieces with the separator gives the string back. *)
Lemma join_split sep s : join sep (split sep s) = s.
Proof.
  induction s as [|c s IH]; simpl; [done|].
  case_bool_decide as Hc.
  - rewrite join_cons by apply split_nonempty. by rewrite IH, append_nil_l, Hc.
  - destruct (split sep s) as [|h t] eqn:E; [by apply split_nonempty in E|].
    destruct t as [|h' t]; simpl in *; [by rewrite IH|].
    by rewrite append_cons, IH.
Qed.

(** No piece holds the separator. *)
Lemma split_no_sep sep s :
  Forall (λ piece, contains (String sep "") piece = false) (split sep s).
Proof.
  induction s as [|c s IH]; simpl.
  - by repeat constructor.
  - case_bool_decide as Hc.
    + constructor; [done|exact IH].
    + destruct (split sep s) as [|h t] eqn:E; [by apply split_nonempty in E|].
      apply Forall_cons in IH as [Hh Ht]. constructor; [|done].
      simpl. rewrite bool_decide_eq_false_2 by congruence. simpl.
      exact Hh.
Qed.

Lemma startswith_spec s p : startswith s p = true ↔ ∃ rest, s = p +:+ rest.
Proof.
  revert s. induction p as [|a p IH]; intros s.
  - split; [|by destruct s]. intros _. by exists s.
  - destruct s as [|b s]; simpl.
    + split; [done|]. by intros (rest & ?).
    + rewrite andb_true_iff, bool_decide_eq_true, IH. split.
      * intros (-> & rest & ->). by exists rest.
      * intros (rest & E). rewrite append_cons in E. simplify_eq. eauto.
Qed.

(** [x in s] holds exactly when [s] is some text, then [x], then some
    text. *)
Lemma contains_spec x s :
  contains x s = true ↔ ∃ before after, s = before +:+ x +:+ after.
Proof.
  induction s as [|c s IH].
  - change (contains x "") with (startswith "" x || false).
    rewrite orb_false_r, startswith_spec. split.
    + intros (rest & E). by exists "", rest.
    + intros (before & after & E). destruct before; [by exists after|done].
  - change (contains x (String c s))
      with (startswith (String c s) x || contains x s).
    rewrite orb_true_iff, startswith_spec, IH. split.
    + intros [(rest & E)|(before & after & E)].
      * by exists "", rest.
      * exists (String c before), after. by rewrite append_cons, E.
    + intros ([|b before] & after & E).
      * left. by exists after.
      * right. rewrite append_cons in E. simplify_eq. by exists before, after.
Qed.

End split_facts.
(** ** Facts about category dicts *)

Section cats_facts.
Import Cats.
Implicit Types (d : cats) (c v : string) (vs : gset string).

Lemma get_app c d1 d2 :
  get c (d1 ++ d2) = match get c d1 with Some vs => Some vs | None => get c d2 end.
Proof.
  induction d1 as [|[k ws] d1 IH]; simpl; [done|]. by case_bool_decide.
Qed.

Lemma get_None c d : get c d = None ↔ c ∉ keys d.
Proof.
  unfold keys. induction d as [|[k ws] d IH]; simpl.
  - split; [|done]. intros _ H. by apply elem_of_nil in H.
  - rewrite not_elem_of_cons. case_bool_decide; naive_solver.
Qed.

Lemma mem_true c d : mem c d = true ↔ c ∈ keys d.
Proof.
  unfold mem. destruct (get c d) eqn:E.
  - split; [|done]. intros _. destruct (decide (c ∈ keys d)) as [|H]; [done|].
    apply get_None in H. congruence.
  - apply get_None in E. naive_solver.
Qed.

Lemma mem_false c d : mem c d = false ↔ c ∉ keys d.
Proof. rewrite <-mem_true. by destruct (mem c d). Qed.

Lemma mem_get c d : mem c d = true ↔ is_Some (get c d).
Proof. unfold mem. destruct (get c d); split; (done || by inversion 1 || eauto). Qed.

Lemma get_elem_of c vs d : get c d = Some vs → (c, vs) ∈ d.
Proof.
  induction d as [|[k ws] d IH]; simpl; [done|].
  case_bool_decide; intros; simplify_eq; [left | right; auto].
Qed.

Lemma elem_of_get c vs d : NoDup (keys d) → (c, vs) ∈ d → get c d = Some vs.
Proof.
  unfold keys. induction d as [|[k ws] d IH]; simpl.
  - intros _ H. by apply elem_of_nil in H.
  - rewrite NoDup_cons. intros [Hk Hd] [H|H]%elem_of_cons; simplify_eq.
    + by rewrite bool_decide_eq_true_2.
    + rewrite bool_decide_eq_false_2; [auto|].
      intros ->. apply Hk. apply list_elem_of_fmap. by exists (c, vs).
Qed.

Lemma values_of_get c vs d : get c d = Some vs → values_of c d = vs.
Proof. unfold values_of. by intros ->. Qed.

Lemma elem_of_values_of c v d : v ∈ values_of c d → mem c d = true.
Proof.
  unfold values_of, mem. destruct (get c d); simpl; [done|]. set_solver.
Qed.

Lemma touch_id c d : mem c d = true → touch c d = d.
Proof. unfold touch. by intros ->. Qed.

Lemma keys_touch c d :
  keys (touch c d) = if mem c d then keys d else keys d ++ [c].
Proof. unfold touch, keys. destruct (mem c d); [done|]. by rewrite fmap_app. Qed.

Lemma mem_touch c' c d :
  mem c' (touch c d) = bool_decide (c' = c) || mem c' d.
Proof.
  apply eq_true_iff_eq. rewrite orb_true_iff, bool_decide_eq_true, !mem_true, keys_touch.
  destruct (mem c d) eqn:E.
  - apply mem_true in E. naive_solver.
  - rewrite elem_of_app, list_elem_of_singleton. naive_solver.
Qed.

Lemma get_touch c' c d :
  get c' (touch c d) =
  if bool_decide (c' = c) then Some (values_of c d) else get c' d.
Proof.
  unfold touch, values_of, mem. destruct (get c d) as [vs|] eqn:E.
  - case_bool_decide; by simplify_eq.
  - rewrite get_app. simpl. case_bool_decide as H; simplify_eq.
    + by rewrite E, bool_decide_eq_true_2.
    + rewrite bool_decide_eq_false_2 by done. by destruct (get c' d).
Qed.

Lemma values_of_touch c' c d : values_of c' (touch c d) = values_of c' d.
Proof.
  unfold values_of at 1. rewrite get_touch. case_bool_decide; by simplify_eq.
Qed.

Lemma keys_add c v d : keys (add c v d) = keys d.
Proof.
  unfold keys. induction d as [|[k ws] d IH]; simpl; [done|].
  case_bool_decide; simpl; [done|]. by f_equal.
Qed.

Lemma mem_add c' c v d : mem c' (add c v d) = mem c' d.
Proof. apply eq_true_iff_eq. by rewrite !mem_true, keys_add. Qed.

Lemma get_add c' c v d :
  get c' (add c v d) =
  if bool_decide (c' = c) then (λ vs, vs ∪ {[v]}) <$> get c d else get c' d.
Proof.
  induction d as [|[k ws] d IH]; simpl.
  - by case_bool_decide.
  - destruct (decide (k = c)) as [->|Hk], (decide (c' = c)) as [->|Hc];
      rewrite ?(bool_decide_eq_true_2 (c = c)), ?(bool_decide_eq_false_2 (k = c)),
        ?(bool_decide_eq_false_2 (c' = c)) by done; simpl.
    + by rewrite bool_decide_eq_true_2.
    + rewrite bool_decide_eq_false_2; [done|congruence].
    + rewrite bool_decide_eq_false_2 by done. rewrite IH. by rewrite bool_decide_eq_true_2.
    + rewrite IH. by rewrite (bool_decide_eq_false_2 (c' = c)).
Qed.

Lemma values_of_add c' c v d :
  mem c d = true →
  values_of c' (add c v d) =
  if bool_decide (c' = c) then values_of c d ∪ {[v]} else values_of c' d.
Proof.
  intros [vs E]%mem_get. unfold values_of. rewrite get_add.
  case_bool_decide; [|done]. by rewrite E.
Qed.

Lemma add_id c v d : v ∈ values_of c d → add c v d = d.
Proof.
  unfold values_of. induction d as [|[k ws] d IH]; simpl; [done|].
  case_bool_decide; simpl; intros Hv.
  - f_equal. f_equal. set_solver.
  - by rewrite IH.
Qed.

Lemma NoDup_keys_touch c d : NoDup (keys d) → NoDup (keys (touch c d)).
Proof.
  intros H. rewrite keys_touch. destruct (mem c d) eqn:E; [done|].
  apply mem_false in E. apply NoDup_app. split_and!; [done| |apply NoDup_singleton].
  intros x Hx ->%list_elem_of_singleton. done.
Qed.

Lemma get_set c' c vs d :
  get c' (set c vs d) = if bool_decide (c' = c) then Some vs else get c' d.
Proof.
  induction d as [|[k ws] d IH]; simpl.
  - destruct (decide (c' = c)) as [->|Hne].
    + by rewrite !bool_decide_eq_true_2.
    + rewrite !bool_decide_eq_false_2; [done..|congruence].
  - destruct (decide (k = c)) as [->|Hk], (decide (c' = c)) as [->|Hc];
      rewrite ?(bool_decide_eq_true_2 (c = c)), ?(bool_decide_eq_false_2 (k = c)),
        ?(bool_decide_eq_false_2 (c' = c)) by done; simpl.
    + by rewrite bool_decide_eq_true_2.
    + rewrite bool_decide_eq_false_2; [done|congruence].
    + rewrite bool_decide_eq_false_2 by done. rewrite IH. by rewrite bool_decide_eq_true_2.
    + rewrite IH. by rewrite (bool_decide_eq_false_2 (c' = c)).
Qed.

Lemma set_fresh c vs d : c ∉ keys d → set c vs d = d ++ [(c, vs)].
Proof.
  unfold keys. induction d as [|[k ws] d IH]; simpl; [done|].
  rewrite not_elem_of_cons. intros [? ?].
  rewrite bool_decide_eq_false_2 by done. by rewrite IH.
Qed.

End cats_facts.

(** ** Growth of category dicts *)

Section growth.
Import Cats.
Implicit Types (d : cats) (c v : string) (vs : gset string).

Lemma foldl_incr {A B} (R : relation A) `{!PreOrder R} (f : A → B → A) :
  (∀ a x, R a (f a x)) → ∀ l a, R a (foldl f a l).
Proof.
  intros Hf l. induction l as [|x l IH]; intros a; simpl; [done|].
  etrans; [apply Hf|apply IH].
Qed.

Lemma foldl_reaches {A B} (R : relation A) `{!PreOrder R} (f : A → B → A) :
  (∀ a x, R a (f a x)) →
  ∀ l a x, x ∈ l → ∃ a', R a a' ∧ R (f a' x) (foldl f a l).
Proof.
  intros Hf l. induction l as [|y l IH]; intros a x Hx; simpl.
  - by apply elem_of_nil in Hx.
  - apply elem_of_cons in Hx as [->|Hx].
    + exists a. split; [done|]. by apply foldl_incr.
    + destruct (IH (f a y) x Hx) as (a' & Ha & Hr).
      exists a'. split; [|done]. etrans; [apply Hf|done].
Qed.

Lemma foldl_invariant {A B} (P : A → Prop) (f : A → B → A) :
  (∀ a x, P a → P (f a x)) → ∀ l a, P a → P (foldl f a l).
Proof.
  intros Hf l. induction l as [|x l IH]; intros a Ha; simpl; [done|]. auto.
Qed.

Lemma touch_le c d : cats_le d (touch c d).
Proof.
  intros c'. rewrite mem_touch, values_of_touch. split; [|done].
  intros ->. apply orb_true_r.
Qed.

Lemma add_le c v d : cats_le d (add c v d).
Proof.
  intros c'. rewrite mem_add. split; [done|].
  unfold values_of. rewrite get_add. case_bool_decide; [|done].
  simplify_eq. destruct (get c d); simpl; set_solver.
Qed.

Lemma add_values_le c vals d : cats_le d (add_values c vals d).
Proof.
  unfold add_values. apply (foldl_incr cats_le). intros a x.
  destruct (PyStr.truthy x); [apply add_le|done].
Qed.

Lemma add_values_elem c vals d v :
  mem c d = true → v ∈ vals → v ≠ "" → v ∈ values_of c (add_values c vals d).
Proof.
  intros Hc Hv Hne. unfold add_values.
  edestruct (foldl_reaches cats_le
    (λ d val, if PyStr.truthy val then add c val d else d)) as (d' & Hd & Hr);
    [|exact Hv|].
  { intros a x. destruct (PyStr.truthy x); [apply add_le|done]. }
  apply (Hr c). cbv beta. rewrite (proj2 (truthy_spec v) Hne).
  rewrite values_of_add by (by apply (Hd c)).
  rewrite bool_decide_eq_true_2 by done. set_solver.
Qed.

Lemma extract_subchild_le category d subchild :
  cats_le d (extract_subchild category d subchild).
Proof. unfold extract_subchild. etrans; [apply touch_le|apply add_values_le]. Qed.

Lemma extract_child_le d child : cats_le d (extract_child d child).
Proof.
  unfold extract_child. etrans; [apply touch_le|].
  etrans; [apply add_values_le|].
  apply (foldl_incr cats_le). intros. apply extract_subchild_le.
Qed.

Lemma mem_touch_same c d : mem c (touch c d) = true.
Proof. rewrite mem_touch. by rewrite bool_decide_eq_true_2. Qed.

(** What one child leaves in the dict. *)
Lemma extract_child_category d child :
  let d' := extract_child d child in
  mem (category_of child) d' = true ∧
  ∀ v, v ∈ values child → v ≠ "" → v ∈ values_of (category_of child) d'.
Proof.
  set (c := category_of child). simpl. unfold extract_child. fold c.
  set (d1 := add_values c (values child) (touch c d)).
  assert (cats_le d1 (foldl (extract_subchild c) d1 (children child))) as Hle.
  { apply (foldl_incr cats_le). intros. apply extract_subchild_le. }
  split.
  - apply (Hle c). apply (add_values_le c (values child) (touch c d) c).
    apply mem_touch_same.
  - intros v Hv Hne. apply (Hle c). apply add_values_elem; [|done..].
    apply mem_touch_same.
Qed.

Lemma extract_child_subcategory d child subchild :
  subchild ∈ children child →
  let d' := extract_child d child in
  let full := full_category_of (category_of child) subchild in
  mem full d' = true ∧
  ∀ v, v ∈ values subchild → v ≠ "" → v ∈ values_of full d'.
Proof.
  intros Hs. simpl. unfold extract_child.
  set (c := category_of child).
  set (d1 := add_values c (values child) (touch c d)).
  destruct (foldl_reaches cats_le (extract_subchild c)
              (extract_subchild_le c) (children child) d1 subchild Hs)
    as (d2 & _ & Hr).
  set (full := full_category_of c subchild) in *.
  unfold extract_subchild in Hr. fold full in Hr.
  split.
  - apply (Hr full). apply (add_values_le full (values subchild) (touch full d2) full).
    apply mem_touch_same.
  - intros v Hv Hne. apply (Hr full). apply add_values_elem; [|done..].
    apply mem_touch_same.
Qed.

(** Well-formedness is kept by the extractor. *)
Lemma touch_wf c d : c ≠ "" → cats_wf d → cats_wf (touch c d).
Proof.
  intros Hc [Hnd Hne]. split; [by apply NoDup_keys_touch|].
  rewrite keys_touch. destruct (mem c d); [done|].
  apply Forall_app. split; [done|]. by apply Forall_singleton.
Qed.

Lemma add_wf c v d : cats_wf d → cats_wf (add c v d).
Proof. unfold cats_wf. by rewrite keys_add. Qed.

Lemma add_values_wf c vals d : cats_wf d → cats_wf (add_values c vals d).
Proof.
  unfold add_values. apply foldl_invariant. intros a x Ha.
  destruct (PyStr.truthy x); [by apply add_wf|done].
Qed.

Lemma category_of_nonempty child : category_of child ≠ "".
Proof.
  unfold category_of. destruct (PyStr.truthy (label_of child)) eqn:E; simpl; [|done].
  by apply truthy_spec.
Qed.

Lemma append_nonempty (s t : string) : s ≠ "" → s +:+ t ≠ "".
Proof. by destruct s. Qed.

Lemma full_category_of_nonempty child subchild :
  full_category_of (category_of child) subchild ≠ "".
Proof. apply append_nonempty, category_of_nonempty. Qed.

Lemma extract_child_wf d child : cats_wf d → cats_wf (extract_child d child).
Proof.
  intros Hd. unfold extract_child. apply foldl_invariant.
  - intros a x Ha. unfold extract_subchild.
    apply add_values_wf, touch_wf; [apply full_category_of_nonempty|done].
  - apply add_values_wf, touch_wf; [apply category_of_nonempty|done].
Qed.

End growth.

(** ** Facts about the Structure Extractor *)

Section extractor_facts.

Lemma idx_get_set g g' d s :
  idx_get g (idx_set g' d s) = if decide (g = g') then d else idx_get g s.
Proof. by destruct g, g'. Qed.

Lemma idx_get_set_eq g d s : idx_get g (idx_set g d s) = d.
Proof. by destruct g. Qed.

Lemma idx_set_get g s : idx_set g (idx_get g s) s = s.
Proof. by destruct g, s. Qed.

Lemma extract_item_le s item : index_le s (extract_item s item).
Proof.
  unfold extract_item. destruct (identify_grouping item) as [g|]; [|done].
  intros g'. rewrite idx_get_set. case_decide; [|done]. subst g'.
  apply (foldl_incr cats_le). apply extract_child_le.
Qed.

Lemma extract_item_wf s item : index_wf s → index_wf (extract_item s item).
Proof.
  intros Hs. unfold extract_item. destruct (identify_grouping item) as [g|]; [|done].
  intros g'. rewrite idx_get_set. case_decide; [|done]. subst g'.
  apply foldl_invariant; [|done]. intros. by apply extract_child_wf.
Qed.

Lemma empty_index_wf : index_wf empty_index.
Proof. intros g. destruct g; split; simpl; constructor. Qed.

Lemma extract_existing_structure_wf doc : index_wf (extract_existing_structure doc).
Proof.
  unfold extract_existing_structure. apply foldl_invariant; [|apply empty_index_wf].
  intros. by apply extract_item_wf.
Qed.

(** Whatever a child of a recognized entry put into its grouping is still
    there when extraction ends. *)
Lemma extract_existing_structure_reaches doc item g child :
  item ∈ study doc → identify_grouping item = Some g → child ∈ children item →
  ∃ d, cats_le (extract_child d child) (idx_get g (extract_existing_structure doc)).
Proof.
  intros Hitem Hg Hchild. unfold extract_existing_structure.
  destruct (foldl_reaches index_le extract_item extract_item_le
              (study doc) empty_index item Hitem) as (s & _ & Hs).
  unfold extract_item in Hs at 1. rewrite Hg in Hs.
  destruct (foldl_reaches cats_le extract_child extract_child_le
              (children item) (idx_get g s) child Hchild) as (d & _ & Hd).
  exists d. etrans; [exact Hd|]. specialize (Hs g). by rewrite idx_get_set_eq in Hs.
Qed.

End extractor_facts.

(** ** Facts about the Reconciliation Engine *)

Section engine_facts.
Implicit Types (st : generator) (g : grouping) (o : original) (c v : string).

Lemma out_get_set g g' d out :
  out_get g (out_set g' d out) = if decide (g = g') then d else out_get g out.
Proof.
  destruct g as [o|], g' as [o'|]; simpl; try done.
  rewrite idx_get_set. by repeat case_decide; simplify_eq.
Qed.

Lemma out_set_get g out : out_set g (out_get g out) out = out.
Proof. destruct g as [o|], out as [k m]; simpl; [|done]. by rewrite idx_set_get. Qed.

Lemma with_new_json_id st : with_new_json (new_json st) st = st.
Proof. by destruct st. Qed.

(** *** Reading a category *)

Lemma touch_category_id g c st :
  Cats.mem c (out_get g (new_json st)) = true → touch_category g c st = st.
Proof.
  intros H. unfold touch_category. rewrite touch_id by done.
  by rewrite out_set_get, with_new_json_id.
Qed.

Lemma out_get_touch_category g' g c st :
  out_get g' (new_json (touch_category g c st)) =
  if decide (g' = g) then Cats.touch c (out_get g (new_json st))
  else out_get g' (new_json st).
Proof. unfold touch_category. simpl. apply out_get_set. Qed.

Lemma out_values_touch_category g' c' g c st :
  out_values g' c' (touch_category g c st) = out_values g' c' st.
Proof.
  unfold out_values. rewrite out_get_touch_category. case_decide; [|done].
  subst. apply values_of_touch.
Qed.

Lemma mem_touch_category g c st :
  Cats.mem c (out_get g (new_json (touch_category g c st))) = true.
Proof. rewrite out_get_touch_category, decide_True by done. apply mem_touch_same. Qed.

Lemma touch_category_le st g c : output_le st (touch_category g c st).
Proof.
  intros g'. rewrite out_get_touch_category. case_decide; [|done].
  subst. apply touch_le.
Qed.

(** *** Adding a value *)

Lemma out_get_add_value g' g c v st :
  out_get g' (new_json (add_value g c v st)) =
  if decide (g' = g) then Cats.add c v (out_get g (new_json st))
  else out_get g' (new_json st).
Proof. unfold add_value. simpl. apply out_get_set. Qed.

Lemma out_values_add_value g' c' g c v st :
  Cats.mem c (out_get g (new_json st)) = true →
  out_values g' c' (add_value g c v st) =
  if decide (g' = g ∧ c' = c) then out_values g c st ∪ {[v]}
  else out_values g' c' st.
Proof.
  intros Hm. unfold out_values. rewrite out_get_add_value.
  destruct (decide (g' = g)) as [->|Hg].
  - rewrite values_of_add by done.
    case_bool_decide; case_decide; naive_solver.
  - rewrite decide_False; [done|]. naive_solver.
Qed.

Lemma add_value_le st g c v : output_le st (add_value g c v st).
Proof.
  intros g'. rewrite out_get_add_value. case_decide; [|done].
  subst. apply add_le.
Qed.

Lemma add_value_id g c v st : v ∈ out_values g c st → add_value g c v st = st.
Proof.
  intros H. unfold add_value. rewrite add_id by done.
  by rewrite out_set_get, with_new_json_id.
Qed.

Global Instance output_le_preorder : PreOrder output_le.
Proof.
  split.
  - intros st g. done.
  - intros st1 st2 st3 H12 H23 g. etrans; [apply H12|apply H23].
Qed.

Global Instance same_inputs_preorder : PreOrder same_inputs.
Proof.
  split.
  - intros st. by repeat split.
  - intros st1 st2 st3 (?&?&?&?&?&?&?) (?&?&?&?&?&?&?).
    repeat split; congruence.
Qed.

(** *** [reconcile] through its target *)

Lemma reconcile_target o other v subject st :
  reconcile o other v subject st =
  let t := target o other v (existing_structure st) in
  insert_then o t.1 v (log_of o t.1 v subject t.2) st.
Proof.
  unfold reconcile, target.
  destruct (find_category_for_value v o (existing_structure st)) as [category|];
    [|done].
  by destruct (PyStr.truthy category).
Qed.

Lemma place_mission_insert mission osd_id st :
  place_mission mission osd_id st =
  insert_then Mission (classify_mission mission) mission (mission_log mission osd_id) st.
Proof. done. Qed.

Lemma log_of_logs o c v subject matched : logs (log_of o c v subject matched).
Proof. intros st. by destruct matched. Qed.

Lemma mission_log_logs mission osd_id : logs (mission_log mission osd_id).
Proof. intros st. unfold mission_log. by case_bool_decide. Qed.

Lemma out_values_log log g c st : logs log → out_values g c (log st) = out_values g c st.
Proof. intros H. unfold out_values. by rewrite (proj1 (H st)). Qed.

Lemma out_values_insert_then g' c' g c v log st :
  logs log →
  out_values g' c' (insert_then g c v log st) =
  if decide (g' = g ∧ c' = c) then out_values g c st ∪ {[v]}
  else out_values g' c' st.
Proof.
  intros Hlog. unfold insert_then. case_bool_decide as Hv.
  - rewrite out_values_log by done.
    rewrite out_values_add_value by apply mem_touch_category.
    by rewrite !out_values_touch_category.
  - rewrite out_values_touch_category in Hv |- *.
    case_decide as Hd; [|done].
    destruct Hd as [-> ->]. set_solver.
Qed.

Lemma insert_then_le g c v log st : logs log → output_le st (insert_then g c v log st).
Proof.
  intros Hlog. unfold insert_then. case_bool_decide.
  - etrans; [apply (touch_category_le _ g c)|].
    etrans; [apply (add_value_le _ g c v)|].
    intros g'. by rewrite (proj1 (Hlog _)).
  - apply touch_category_le.
Qed.

Lemma insert_then_same_inputs g c v log st :
  logs log → same_inputs st (insert_then g c v log st).
Proof.
  intros Hlog. unfold insert_then. case_bool_decide; [|by repeat split].
  etrans; [|apply Hlog]. by repeat split.
Qed.

Lemma insert_then_all_osd_ids g c v log st :
  logs log → all_osd_ids (insert_then g c v log st) = all_osd_ids st.
Proof.
  intros Hlog. unfold insert_then. case_bool_decide; [|done].
  by rewrite (proj2 (proj2 (Hlog _))).
Qed.

Lemma insert_then_id g c v log st :
  v ∈ out_values g c st → insert_then g c v log st = st.
Proof.
  intros Hv. unfold insert_then.
  rewrite touch_category_id by (by eapply elem_of_values_of).
  by rewrite bool_decide_eq_false_2 by (by intros ?).
Qed.

End engine_facts.
(** ** Facts about events *)

Section event_facts.
Implicit Types (st : generator) (g : grouping) (o : original) (c v : string)
  (e : event) (evs : list event).

Lemma apply_event_same_inputs st e : same_inputs st (apply_event st e).
Proof.
  destruct e as [osd|o other v subject|mission osd]; simpl.
  - by repeat split.
  - rewrite reconcile_target. apply insert_then_same_inputs, log_of_logs.
  - rewrite place_mission_insert. apply insert_then_same_inputs, mission_log_logs.
Qed.

Lemma apply_event_le st e : output_le st (apply_event st e).
Proof.
  destruct e as [osd|o other v subject|mission osd]; simpl.
  - done.
  - rewrite reconcile_target. apply insert_then_le, log_of_logs.
  - rewrite place_mission_insert. apply insert_then_le, mission_log_logs.
Qed.

Lemma out_values_apply_event g c st e :
  out_values g c (apply_event st e) =
  match placement (existing_structure st) e with
  | Some (g', c', v) =>
      if decide (g = g' ∧ c = c') then out_values g c st ∪ {[v]} else out_values g c st
  | None => out_values g c st
  end.
Proof.
  destruct e as [osd|o other v subject|mission osd]; simpl.
  - done.
  - rewrite reconcile_target. simpl.
    rewrite out_values_insert_then by apply log_of_logs.
    by case_decide as H; [destruct H as [-> ->]|].
  - rewrite place_mission_insert.
    rewrite out_values_insert_then by apply mission_log_logs.
    by case_decide as H; [destruct H as [-> ->]|].
Qed.

Lemma all_osd_ids_apply_event st e :
  all_osd_ids (apply_event st e) = all_osd_ids st ∪ noted e.
Proof.
  destruct e as [osd|o other v subject|mission osd]; simpl.
  - done.
  - rewrite reconcile_target, insert_then_all_osd_ids by apply log_of_logs. set_solver.
  - rewrite place_mission_insert, insert_then_all_osd_ids by apply mission_log_logs.
    set_solver.
Qed.

Lemma additions_apply_event st e :
  additions (apply_event st e) = additions st ++ new_additions st e.
Proof.
  destruct e as [osd|o other v subject|mission osd]; simpl.
  - by rewrite app_nil_r.
  - rewrite reconcile_target. simpl. unfold insert_then.
    rewrite out_values_touch_category.
    case_bool_decide; simpl; [|by rewrite app_nil_r].
    destruct (target o other v (existing_structure st)) as [c [|]]; simpl; [done|].
    by rewrite app_nil_r.
  - rewrite place_mission_insert. unfold insert_then, mission_log.
    repeat case_bool_decide; simpl; by rewrite app_nil_r.
Qed.

Lemma unmapped_apply_event st e :
  unmapped (apply_event st e) = unmapped st ++ new_unmapped st e.
Proof.
  destruct e as [osd|o other v subject|mission osd]; simpl.
  - by rewrite app_nil_r.
  - rewrite reconcile_target. simpl. unfold insert_then.
    rewrite out_values_touch_category.
    case_bool_decide; simpl; [|by rewrite app_nil_r].
    destruct (target o other v (existing_structure st)) as [c [|]]; simpl; [|done].
    by rewrite app_nil_r.
  - rewrite place_mission_insert. unfold insert_then, mission_log.
    rewrite out_values_touch_category.
    repeat case_bool_decide; simpl; by rewrite ?app_nil_r.
Qed.

Lemma absorbed_apply_event st e : absorbed st e → apply_event st e = st.
Proof.
  destruct e as [osd|o other v subject|mission osd]; simpl.
  - intros H. unfold add_osd_id.
    replace (all_osd_ids st ∪ {[osd]}) with (all_osd_ids st) by set_solver.
    by destruct st.
  - intros H. rewrite reconcile_target. by apply insert_then_id.
  - intros H. rewrite place_mission_insert. by apply insert_then_id.
Qed.

Lemma absorbed_after st e : absorbed (apply_event st e) e.
Proof.
  destruct e as [osd|o other v subject|mission osd].
  - simpl. set_solver.
  - unfold absorbed. rewrite (proj1 (proj2 (proj2 (proj2 (proj2 (proj2
      (apply_event_same_inputs st (Reconcile o other v subject)))))))).
    unfold placement. rewrite out_values_apply_event. unfold placement.
    rewrite decide_True by done. set_solver.
  - unfold absorbed, placement. rewrite out_values_apply_event. unfold placement.
    rewrite decide_True by done. set_solver.
Qed.

Lemma existing_structure_apply_event st e :
  existing_structure (apply_event st e) = existing_structure st.
Proof. apply (apply_event_same_inputs st e). Qed.

Lemma absorbed_mono st e e' : absorbed st e → absorbed (apply_event st e') e.
Proof.
  destruct e as [osd|o other v subject|mission osd]; unfold absorbed.
  - rewrite all_osd_ids_apply_event. set_solver.
  - rewrite existing_structure_apply_event. unfold placement.
    intros H. by apply (apply_event_le st e' o).
  - unfold placement. intros H. by apply (apply_event_le st e' Mission).
Qed.

(** *** Runs of events *)

Lemma same_inputs_foldl st evs : same_inputs st (foldl apply_event st evs).
Proof. apply (foldl_incr same_inputs), apply_event_same_inputs. Qed.

Lemma existing_structure_foldl st evs :
  existing_structure (foldl apply_event st evs) = existing_structure st.
Proof. apply (same_inputs_foldl st evs). Qed.

Lemma output_le_foldl st evs : output_le st (foldl apply_event st evs).
Proof. apply (foldl_incr output_le), apply_event_le. Qed.

Lemma out_values_foldl g c v st evs :
  v ∈ out_values g c (foldl apply_event st evs) ↔
  v ∈ out_values g c st ∨
  ∃ e, e ∈ evs ∧ placement (existing_structure st) e = Some (g, c, v).
Proof.
  revert st. induction evs as [|e evs IH]; intros st; simpl.
  - split; [by left|]. intros [H|(e & He & _)]; [done|]. by apply elem_of_nil in He.
  - rewrite IH, existing_structure_apply_event, out_values_apply_event.
    split.
    + intros [H|(e' & He' & Hp)].
      * destruct (placement (existing_structure st) e) as [[[g' c'] v']|] eqn:E;
          [|by left].
        case_decide as Hd; [|by left].
        destruct Hd as [-> ->].
        apply elem_of_union in H as [H|H]; [by left|].
        apply elem_of_singleton in H as ->. right. exists e. split; [left|done].
      * right. exists e'. split; [by right|done].
    + intros [H|(e' & He' & Hp)].
      * left. destruct (placement (existing_structure st) e) as [[[g' c'] v']|];
          [|done].
        case_decide; set_solver.
      * apply elem_of_cons in He' as [->|He'].
        -- left. rewrite Hp. rewrite decide_True by done. set_solver.
        -- right. by exists e'.
Qed.

Lemma all_osd_ids_foldl osd st evs :
  osd ∈ all_osd_ids (foldl apply_event st evs) ↔
  osd ∈ all_osd_ids st ∨ NoteSubject osd ∈ evs.
Proof.
  revert st. induction evs as [|e evs IH]; intros st; simpl.
  - rewrite elem_of_nil. naive_solver.
  - rewrite IH, all_osd_ids_apply_event, elem_of_cons, elem_of_union.
    destruct e; simpl; rewrite ?elem_of_singleton; set_solver.
Qed.

Lemma absorbed_foldl st evs e :
  e ∈ evs → absorbed (foldl apply_event st evs) e.
Proof.
  revert st. induction evs as [|e' evs IH]; intros st He; simpl.
  - by apply elem_of_nil in He.
  - apply elem_of_cons in He as [->|He]; [|by apply IH].
    clear IH. generalize (absorbed_after st e'). generalize (apply_event st e').
    induction evs as [|e'' evs IH]; intros st' H; simpl; [done|].
    apply IH. by apply absorbed_mono.
Qed.

Lemma foldl_absorbed st evs :
  (∀ e, e ∈ evs → absorbed st e) → foldl apply_event st evs = st.
Proof.
  induction evs as [|e evs IH]; intros H; simpl; [done|].
  rewrite absorbed_apply_event by (apply H; left). apply IH.
  intros e' He'. apply H. by right.
Qed.

End event_facts.
(** ** [process_api_data] as a run of events *)

Section pass_facts.
Implicit Types (st : generator) (e : event) (evs : list event).

Lemma foldl_bind {A B C} (f : A → B → A) (h : C → list B) (l : list C) (a : A) :
  foldl f a (l ≫= h) = foldl (λ a x, foldl f a (h x)) a l.
Proof.
  revert a. induction l as [|x l IH]; intros a; simpl; [done|].
  by rewrite foldl_app, IH.
Qed.

Lemma foldl_ext_in {A B} (f f' : A → B → A) (l : list B) (a : A) :
  (∀ a x, x ∈ l → f a x = f' a x) → foldl f a l = foldl f' a l.
Proof.
  revert a. induction l as [|x l IH]; intros a H; simpl; [done|].
  rewrite H by left. apply IH. intros. apply H. by right.
Qed.

Lemma process_rows_observed body col_idx rows st st' :
  process_rows body col_idx rows st = Ok st' →
  st' = foldl (λ st obs, body obs.2 obs.1 (add_osd_id obs.1 st)) st
              (observed col_idx rows).
Proof.
  unfold observed. revert st. induction rows as [|row rows IH]; intros st; simpl.
  - by intros [= <-].
  - unfold list_item. destruct (row !! 0) as [osd_id|]; simpl; [|done].
    destruct (row !! col_idx) as [value|]; simpl; [|done].
    destruct (PyStr.truthy value); simpl; apply IH.
Qed.

Lemma process_rows_total body col_idx rows st :
  Forall (λ row : list string, col_idx < length row) rows →
  process_rows body col_idx rows st =
  Ok (foldl (λ st obs, body obs.2 obs.1 (add_osd_id obs.1 st)) st
            (observed col_idx rows)).
Proof.
  unfold observed. intros H. revert st.
  induction H as [|row rows Hrow _ IH]; intros st; simpl; [done|].
  unfold list_item.
  destruct (lookup_lt_is_Some_2 row 0) as [osd_id ->]; [lia|].
  destruct (lookup_lt_is_Some_2 row col_idx) as [value ->]; [done|]. simpl.
  destruct (PyStr.truthy value); simpl; apply IH.
Qed.

Lemma reconcile_rows_events o other obs st :
  foldl (λ st ob, reconcile o other ob.2 ob.1 (add_osd_id ob.1 st)) st obs =
  foldl apply_event st (obs ≫= row_events o other).
Proof. by rewrite foldl_bind. Qed.

Lemma process_missions_events missions_str osd_id st :
  process_missions missions_str osd_id st =
  foldl apply_event st
    ((λ mission, PlaceMission mission osd_id) <$> mission_pieces missions_str).
Proof.
  unfold process_missions, mission_pieces.
  generalize (split_missions missions_str). intros l. revert st.
  induction l as [|m l IH]; intros st; simpl; [done|].
  rewrite filter_cons. destruct (decide (m ≠ "")) as [Hm|Hm].
  - rewrite (proj2 (truthy_spec m) Hm). simpl. apply IH.
  - apply dec_stable in Hm as ->. simpl. apply IH.
Qed.

Lemma mission_rows_events obs st :
  foldl (λ st ob, process_missions ob.2 ob.1 (add_osd_id ob.1 st)) st obs =
  foldl apply_event st (obs ≫= mission_events).
Proof.
  rewrite foldl_bind. apply foldl_ext_in. intros a ob _.
  unfold mission_events. simpl. by rewrite process_missions_events.
Qed.

Lemma process_factors_events st :
  process_factors st =
  foldl apply_event st (factor_event <$> factor_cols (columns (factor_data st))).
Proof.
  unfold process_factors. generalize (factor_cols (columns (factor_data st))).
  intros l. revert st. induction l as [|col l IH]; intros st; simpl; [done|].
  apply IH.
Qed.

(** The events of a state depend on its feeds only. *)
Lemma events_same_inputs st st' : same_inputs st st' → events st' = events st.
Proof. intros (E1 & E2 & E3 & E4 & E5 & _). unfold events. by rewrite E1, E2, E3, E4, E5. Qed.

(** A pass that completes has applied the events of its feeds, in order. *)
Lemma process_api_data_events st st' :
  process_api_data st = Ok st' → st' = foldl apply_event st (events st).
Proof.
  unfold process_api_data. intros H.
  destruct (list_index assay_column (columns (assay_data st))) as [i1|] eqn:E1;
    simpl in H; [|done].
  destruct (process_rows _ i1 _ st) as [st1|] eqn:P1; simpl in H; [|done].
  apply process_rows_observed in P1. rewrite reconcile_rows_events in P1.
  assert (same_inputs st st1) as S1 by (subst st1; apply same_inputs_foldl).
  remember (process_factors st1) as st2 eqn:P2.
  rewrite process_factors_events in P2.
  assert (same_inputs st1 st2) as S2 by (subst st2; apply same_inputs_foldl).
  destruct (list_index organism_column (columns (organism_data st2))) as [i3|] eqn:E3;
    simpl in H; [|done].
  destruct (process_rows _ i3 _ st2) as [st3|] eqn:P3; simpl in H; [|done].
  apply process_rows_observed in P3. rewrite reconcile_rows_events in P3.
  assert (same_inputs st2 st3) as S3 by (subst st3; apply same_inputs_foldl).
  destruct (list_index material_column (columns (material_data st3))) as [i4|] eqn:E4;
    simpl in H; [|done].
  destruct (process_rows _ i4 _ st3) as [st4|] eqn:P4; simpl in H; [|done].
  apply process_rows_observed in P4. rewrite reconcile_rows_events in P4.
  assert (same_inputs st3 st4) as S4 by (subst st4; apply same_inputs_foldl).
  destruct (list_index mission_column (columns (mission_data st4))) as [i5|] eqn:E5;
    simpl in H; [|done].
  apply process_rows_observed in H. rewrite mission_rows_events in H.
  assert (same_inputs st st2) as S02 by (etrans; done).
  assert (same_inputs st st3) as S03 by (etrans; done).
  assert (same_inputs st st4) as S04 by (etrans; done).
  destruct S1 as (A1 & F1 & O1 & M1 & I1 & _).
  destruct S02 as (A2 & F2 & O2 & M2 & I2 & _).
  destruct S03 as (A3 & F3 & O3 & M3 & I3 & _).
  destruct S04 as (A4 & F4 & O4 & M4 & I4 & _).
  rewrite O2 in E3, P3. rewrite M3 in E4, P4. rewrite I4 in E5, H. rewrite F1 in P2.
  unfold events, observations. rewrite E1, E3, E4, E5.
  rewrite !foldl_app. by rewrite <-P1, <-P2, <-P3, <-P4.
Qed.

(** With the columns present and the rows long enough, a pass completes. *)
Lemma process_api_data_total st :
  feeds_ok st → process_api_data st = Ok (foldl apply_event st (events st)).
Proof.
  intros ((i1 & E1 & R1) & (i3 & E3 & R3) & (i4 & E4 & R4) & (i5 & E5 & R5)).
  unfold process_api_data.
  rewrite E1. simpl. rewrite process_rows_total by done. simpl.
  rewrite reconcile_rows_events.
  set (st1 := foldl apply_event st _).
  assert (same_inputs st st1) as S1 by apply same_inputs_foldl.
  rewrite process_factors_events.
  set (st2 := foldl apply_event st1 _). cbv zeta.
  assert (same_inputs st st2) as S2 by (etrans; [exact S1|apply same_inputs_foldl]).
  destruct S2 as (A2 & F2 & O2 & M2 & I2 & _).
  rewrite O2, E3. simpl. rewrite process_rows_total by done. simpl.
  rewrite reconcile_rows_events.
  set (st3 := foldl apply_event st2 _).
  assert (same_inputs st st3) as S3.
  { etrans; [|apply same_inputs_foldl]. etrans; [exact S1|apply same_inputs_foldl]. }
  destruct S3 as (A3 & F3 & O3 & M3 & I3 & _).
  rewrite M3, E4. simpl. rewrite process_rows_total by done. simpl.
  rewrite reconcile_rows_events.
  set (st4 := foldl apply_event st3 _).
  assert (same_inputs st3 st4) as S4 by apply same_inputs_foldl.
  destruct S4 as (A4 & F4 & O4 & M4 & I4 & _).
  rewrite I4, I3, E5. simpl. rewrite process_rows_total by done.
  rewrite mission_rows_events. f_equal.
  unfold events, observations. rewrite E1, E3, E4, E5. rewrite !foldl_app.
  destruct S1 as (_ & F1 & _). unfold st4, st3, st2. by rewrite F1.
Qed.

Lemma process_rows_rows_ok body col_idx rows st st' :
  process_rows body col_idx rows st = Ok st' →
  Forall (λ row : list string, col_idx < length row) rows.
Proof.
  revert st. induction rows as [|row rows IH]; intros st; simpl; [by constructor|].
  unfold list_item. destruct (row !! 0) as [osd_id|]; simpl; [|done].
  destruct (row !! col_idx) as [value|] eqn:E; simpl; [|done].
  intros H. constructor.
  - apply lookup_lt_is_Some. eauto.
  - destruct (PyStr.truthy value); simpl in H; by eapply IH.
Qed.

(** A pass completes only on feeds that have their column in every row. *)
Lemma process_api_data_feeds_ok st st' : process_api_data st = Ok st' → feeds_ok st.
Proof.
  unfold process_api_data. intros H.
  destruct (list_index assay_column (columns (assay_data st))) as [i1|] eqn:E1;
    simpl in H; [|done].
  destruct (process_rows _ i1 _ st) as [st1|] eqn:P1; simpl in H; [|done].
  pose proof (process_rows_rows_ok _ _ _ _ _ P1) as R1.
  apply process_rows_observed in P1. rewrite reconcile_rows_events in P1.
  assert (same_inputs st st1) as S1 by (subst st1; apply same_inputs_foldl).
  remember (process_factors st1) as st2 eqn:P2.
  rewrite process_factors_events in P2.
  assert (same_inputs st1 st2) as S2 by (subst st2; apply same_inputs_foldl).
  destruct (list_index organism_column (columns (organism_data st2))) as [i3|] eqn:E3;
    simpl in H; [|done].
  destruct (process_rows _ i3 _ st2) as [st3|] eqn:P3; simpl in H; [|done].
  pose proof (process_rows_rows_ok _ _ _ _ _ P3) as R3.
  apply process_rows_observed in P3. rewrite reconcile_rows_events in P3.
  assert (same_inputs st2 st3) as S3 by (subst st3; apply same_inputs_foldl).
  destruct (list_index material_column (columns (material_data st3))) as [i4|] eqn:E4;
    simpl in H; [|done].
  destruct (process_rows _ i4 _ st3) as [st4|] eqn:P4; simpl in H; [|done].
  pose proof (process_rows_rows_ok _ _ _ _ _ P4) as R4.
  apply process_rows_observed in P4. rewrite reconcile_rows_events in P4.
  assert (same_inputs st3 st4) as S4 by (subst st4; apply same_inputs_foldl).
  destruct (list_index mission_column (columns (mission_data st4))) as [i5|] eqn:E5;
    simpl in H; [|done].
  pose proof (process_rows_rows_ok _ _ _ _ _ H) as R5.
  assert (same_inputs st st2) as S02 by (etrans; done).
  assert (same_inputs st st3) as S03 by (etrans; done).
  assert (same_inputs st st4) as S04 by (etrans; done).
  destruct S02 as (A2 & F2 & O2 & M2 & I2 & _).
  destruct S03 as (A3 & F3 & O3 & M3 & I3 & _).
  destruct S04 as (A4 & F4 & O4 & M4 & I4 & _).
  rewrite O2 in E3, R3. rewrite M3 in E4, R4. rewrite I4 in E5, R5.
  unfold feeds_ok, feed_ok. split_and!; eexists; split; done.
Qed.

Lemma feeds_ok_same_inputs st st' : same_inputs st st' → feeds_ok st → feeds_ok st'.
Proof.
  intros (E1 & E2 & E3 & E4 & E5 & _). unfold feeds_ok. by rewrite E1, E3, E4, E5.
Qed.

End pass_facts.
(** ** Facts about matching, initialisation and verification *)

Section matching_facts.
Implicit Types (st : generator) (o : original) (c v : string) (d : cats).

Lemma existsb_norm nv (vs : gset string) :
  existsb (λ w, bool_decide (norm w = nv)) (elements vs) = true ↔
  ∃ w, w ∈ vs ∧ norm w = nv.
Proof.
  rewrite existsb_exists. split.
  - intros (w & Hw & E). exists w. split.
    + by apply elem_of_elements, list_elem_of_In.
    + by apply bool_decide_eq_true in E.
  - intros (w & Hw & E). exists w. split.
    + by apply list_elem_of_In, elem_of_elements.
    + by apply bool_decide_eq_true.
Qed.

Lemma scan_categories_None nv d :
  scan_categories nv d = None ↔
  ∀ c vs w, (c, vs) ∈ d → w ∈ vs → norm w ≠ nv.
Proof.
  induction d as [|[k ws] d IH]; simpl.
  - split; [|done]. intros _ c vs w H. by apply elem_of_nil in H.
  - destruct (existsb _ (elements ws)) eqn:E.
    + apply existsb_norm in E as (w & Hw & E). split; [done|].
      intros H. exfalso. apply (H k ws w); [left|done..].
    + rewrite IH. split.
      * intros H c vs w [[= -> ->]|?]%elem_of_cons Hw; [|by eapply H].
        intros Hn.
        assert (existsb (λ w, bool_decide (norm w = nv)) (elements ws) = true)
          as E' by (apply existsb_norm; eauto).
        congruence.
      * intros H c vs w Hin. apply (H c vs w). by right.
Qed.

(** The category found is the first, in insertion order, holding a value
    with the normalized form looked for. *)
Lemma scan_categories_Some nv d c :
  scan_categories nv d = Some c ↔
  ∃ before vs after,
    d = before ++ (c, vs) :: after ∧
    (∃ w, w ∈ vs ∧ norm w = nv) ∧
    ∀ c' vs' w, (c', vs') ∈ before → w ∈ vs' → norm w ≠ nv.
Proof.
  revert c. induction d as [|[k ws] d IH]; intros c; simpl.
  - split; [done|]. intros (before & vs & after & E & _). by destruct before.
  - destruct (existsb _ (elements ws)) eqn:E.
    + apply existsb_norm in E. split.
      * intros [= <-]. exists [], ws, d. split_and!; [done..|].
        intros c' vs' w H. by apply elem_of_nil in H.
      * intros ([|[k' ws'] before] & vs & after & Ed & _ & Hfirst); simplify_eq/=;
          [done|].
        destruct E as (w & Hw & E). exfalso. by apply (Hfirst k' ws' w); [left|..].
    + rewrite IH. split.
      * intros (before & vs & after & -> & Hm & Hfirst).
        exists ((k, ws) :: before), vs, after. split_and!; [done..|].
        intros c' vs' w [[= -> ->]|?]%elem_of_cons Hw; [|by eapply Hfirst].
        intros Hn.
        assert (existsb (λ w, bool_decide (norm w = nv)) (elements ws) = true)
          as E' by (apply existsb_norm; eauto).
        congruence.
      * intros ([|[k' ws'] before] & vs & after & Ed & Hm & Hfirst); simplify_eq/=.
        -- apply existsb_norm in Hm. congruence.
        -- exists before, vs, after. split_and!; [done..|].
           intros c' vs' w Hin. apply (Hfirst c' vs' w). by right.
Qed.

Lemma scan_categories_key nv d c : scan_categories nv d = Some c → c ∈ Cats.keys d.
Proof.
  intros (before & vs & after & -> & _)%scan_categories_Some.
  unfold Cats.keys. rewrite fmap_app, elem_of_app. right. left.
Qed.

Lemma scan_categories_get nv d c :
  NoDup (Cats.keys d) → scan_categories nv d = Some c →
  ∃ w, w ∈ Cats.values_of c d ∧ norm w = nv.
Proof.
  intros Hnd (before & vs & after & -> & (w & Hw & E) & _)%scan_categories_Some.
  exists w. split; [|done].
  rewrite (values_of_get c vs); [done|]. apply elem_of_get; [done|].
  apply elem_of_app. right. left.
Qed.

Lemma find_category_nonempty v o existing c :
  index_wf existing → find_category_for_value v o existing = Some c → c ≠ "".
Proof.
  intros Hwf H%scan_categories_key. destruct (Hwf o) as [_ Hne].
  rewrite Forall_forall in Hne. by apply Hne.
Qed.

Lemma target_wf o other v existing :
  index_wf existing →
  target o other v existing =
  match find_category_for_value v o existing with
  | Some c => (c, true)
  | None => (other, false)
  end.
Proof.
  intros Hwf. unfold target.
  destruct (find_category_for_value v o existing) as [c|] eqn:E; [|done].
  by rewrite (proj2 (truthy_spec c) (find_category_nonempty _ _ _ _ Hwf E)).
Qed.

(** *** Initialisation *)

Lemma copy_cats_id d : NoDup (Cats.keys d) → copy_cats d = d.
Proof.
  unfold copy_cats. change d with ([] ++ d) at 1 3. generalize (@nil (string * gset string)).
  induction d as [|[k vs] d IH]; intros acc H; simpl.
  - by rewrite app_nil_r.
  - unfold Cats.keys in *. rewrite fmap_app in H. simpl in H.
    rewrite set_fresh.
    + rewrite (IH (acc ++ [(k, vs)])); [by rewrite <-app_assoc|].
      by rewrite !fmap_app, <-app_assoc.
    + apply NoDup_app in H as (_ & H & _). intros Hk. apply (H k Hk). left.
Qed.

End matching_facts.
(** ** Facts about initialisation and verification *)

Section init_facts.
Implicit Types (st : generator) (o : original) (c v : string) (d : cats).

Lemma init_initial w st : init w = Ok st → initial st.
Proof.
  unfold init. intros H.
  destruct (filter_options w), (assays w), (factors w), (organisms w),
    (materials w), (missions w); simplify_eq/=.
  by repeat split.
Qed.

Lemma initialize_from_existing_kept existing :
  index_wf existing → kept (initialize_from_existing existing) = existing.
Proof.
  intros Hwf. unfold initialize_from_existing. simpl.
  rewrite (copy_cats_id (project_type existing)) by apply (Hwf ProjectType).
  rewrite (copy_cats_id (assay_technology_type existing))
    by apply (Hwf AssayTechnologyType).
  rewrite (copy_cats_id (factor existing)) by apply (Hwf Factor).
  rewrite (copy_cats_id (organism existing)) by apply (Hwf Organism).
  rewrite (copy_cats_id (material_type existing)) by apply (Hwf MaterialType).
  by destruct existing.
Qed.

Lemma initial_wf st : initial st → index_wf (existing_structure st).
Proof. intros (-> & _). apply extract_existing_structure_wf. Qed.

Lemma initial_out_get st o :
  initial st → out_get (Orig o) (new_json st) = idx_get o (existing_structure st).
Proof.
  intros Hi. pose proof (initial_wf st Hi) as Hwf.
  destruct Hi as (_ & -> & _). unfold out_get.
  by rewrite initialize_from_existing_kept.
Qed.

Lemma initial_mission st : initial st → out_get Mission (new_json st) = [].
Proof. by intros (_ & -> & _). Qed.

Lemma initial_covers st : initial st → covers st.
Proof. intros Hi o. by rewrite initial_out_get. Qed.

Lemma covers_foldl st evs : covers st → covers (foldl apply_event st evs).
Proof.
  intros H o. rewrite existing_structure_foldl.
  etrans; [apply H|]. apply (output_le_foldl st evs).
Qed.

(** *** The verifier *)

Lemma elem_of_norms_of x d :
  x ∈ norms_of d ↔ ∃ c vs v, (c, vs) ∈ d ∧ v ∈ vs ∧ x = norm v.
Proof.
  unfold norms_of. induction d as [|[k ws] d IH]; simpl.
  - split; [set_solver|]. intros (c & vs & v & H & _). by apply elem_of_nil in H.
  - rewrite elem_of_union, elem_of_map, IH. split.
    + intros [(v & -> & Hv)|(c & vs & v & Hin & Hv & ->)].
      * exists k, ws, v. split_and!; [left|done..].
      * exists c, vs, v. split_and!; [by right|done..].
    + intros (c & vs & v & [[= -> ->]|Hin]%elem_of_cons & Hv & ->).
      * left. by exists v.
      * right. by exists c, vs, v.
Qed.

Lemma elem_of_original_values x st :
  x ∈ original_values st ↔
  ∃ o c vs v, (c, vs) ∈ idx_get o (existing_structure st) ∧ v ∈ vs ∧ x = norm v.
Proof.
  unfold original_values, originals. simpl.
  rewrite !elem_of_union, !elem_of_norms_of. split.
  - intros [H|[H|[H|[H|[H|H]]]]]; [..|set_solver];
      destruct H as (c & vs & v & H).
    + by exists ProjectType, c, vs, v.
    + by exists AssayTechnologyType, c, vs, v.
    + by exists Factor, c, vs, v.
    + by exists Organism, c, vs, v.
    + by exists MaterialType, c, vs, v.
  - intros ([] & c & vs & v & H); eauto 10.
Qed.

Lemma elem_of_new_values x st :
  x ∈ new_values st ↔
  ∃ o c vs v, (c, vs) ∈ out_get (Orig o) (new_json st) ∧ v ∈ vs ∧ x = norm v.
Proof.
  unfold new_values, originals. simpl.
  rewrite !elem_of_union, !elem_of_norms_of. split.
  - intros [H|[H|[H|[H|[H|H]]]]]; [..|set_solver];
      destruct H as (c & vs & v & H).
    + by exists ProjectType, c, vs, v.
    + by exists AssayTechnologyType, c, vs, v.
    + by exists Factor, c, vs, v.
    + by exists Organism, c, vs, v.
    + by exists MaterialType, c, vs, v.
  - intros ([] & c & vs & v & H); eauto 10.
Qed.

Lemma verify_completeness_true st :
  verify_completeness st = true ↔ original_values st ⊆ new_values st.
Proof.
  unfold verify_completeness, missing. rewrite bool_decide_eq_true.
  generalize (original_values st) (new_values st). intros X Y. split.
  - intros H x Hx. destruct (decide (x ∈ Y)); [done|].
    assert (x ∈ X ∖ Y) by set_solver. rewrite H in *. set_solver.
  - intros H. apply leibniz_equiv. set_solver.
Qed.

(** A value of the snapshot is found, raw, in the same category of a
    covering output index. *)
Lemma covers_elem_of st o c vs v :
  index_wf (existing_structure st) → covers st →
  (c, vs) ∈ idx_get o (existing_structure st) → v ∈ vs →
  ∃ vs', (c, vs') ∈ out_get (Orig o) (new_json st) ∧ v ∈ vs'.
Proof.
  intros Hwf Hc Hin Hv.
  apply elem_of_get in Hin; [|apply (Hwf o)].
  destruct (Hc o c) as [Hmem Hsub].
  assert (Cats.mem c (out_get o (new_json st)) = true) as Hm.
  { apply Hmem, mem_get. eauto. }
  apply mem_get in Hm as [vs' Hvs'].
  exists vs'. split; [by apply get_elem_of|].
  rewrite (values_of_get _ _ _ Hin), (values_of_get _ _ _ Hvs') in Hsub. set_solver.
Qed.

Lemma covers_verify st :
  index_wf (existing_structure st) → covers st → verify_completeness st = true.
Proof.
  intros Hwf Hc. apply verify_completeness_true. intros x.
  rewrite elem_of_original_values, elem_of_new_values.
  intros (o & c & vs & v & Hin & Hv & ->).
  destruct (covers_elem_of st o c vs v Hwf Hc Hin Hv) as (vs' & ? & ?).
  by exists o, c, vs', v.
Qed.

End init_facts.
(** ** Which events a pass has *)

Section events_membership.
Implicit Types (st : generator) (o : original) (e : event).

Lemma elem_of_row_events e o other (obs : list (string * string)) :
  e ∈ obs ≫= row_events o other ↔
  ∃ ob, ob ∈ obs ∧ (e = NoteSubject ob.1 ∨ e = Reconcile o other ob.2 ob.1).
Proof.
  rewrite list_elem_of_bind. unfold row_events.
  split; intros (ob & H1 & H2); exists ob.
  - rewrite !elem_of_cons, elem_of_nil in H1. naive_solver.
  - rewrite !elem_of_cons, elem_of_nil. naive_solver.
Qed.

Lemma elem_of_mission_events e (obs : list (string * string)) :
  e ∈ obs ≫= mission_events ↔
  ∃ ob, ob ∈ obs ∧
        (e = NoteSubject ob.1 ∨
         ∃ mission, mission ∈ mission_pieces ob.2 ∧ e = PlaceMission mission ob.1).
Proof.
  rewrite list_elem_of_bind. unfold mission_events.
  split; intros (ob & H1 & H2); exists ob.
  - rewrite elem_of_cons, list_elem_of_fmap in H1. naive_solver.
  - rewrite elem_of_cons, list_elem_of_fmap. naive_solver.
Qed.

Lemma elem_of_events e st :
  e ∈ events st ↔
  (∃ ob, ob ∈ observations assay_column (assay_data st) ∧
     (e = NoteSubject ob.1 ∨ e = Reconcile AssayTechnologyType "Other Assay Types" ob.2 ob.1)) ∨
  (∃ col, col ∈ factor_cols (columns (factor_data st)) ∧ e = factor_event col) ∨
  (∃ ob, ob ∈ observations organism_column (organism_data st) ∧
     (e = NoteSubject ob.1 ∨ e = Reconcile Organism "Other Organisms" ob.2 ob.1)) ∨
  (∃ ob, ob ∈ observations material_column (material_data st) ∧
     (e = NoteSubject ob.1 ∨ e = Reconcile MaterialType "Other Materials" ob.2 ob.1)) ∨
  (∃ ob, ob ∈ observations mission_column (mission_data st) ∧
     (e = NoteSubject ob.1 ∨
      ∃ mission, mission ∈ mission_pieces ob.2 ∧ e = PlaceMission mission ob.1)).
Proof.
  unfold events.
  rewrite !elem_of_app, !elem_of_row_events, elem_of_mission_events, list_elem_of_fmap.
  naive_solver.
Qed.

Lemma elem_of_events_reconcile st o other v subject :
  Reconcile o other v subject ∈ events st ↔
  fallback_category o = Some other ∧ (subject, v) ∈ observed_values o st.
Proof.
  rewrite elem_of_events. split.
  - intros [(ob & Hin & [?|?])|[(col & Hin & ?)|[(ob & Hin & [?|?])|
            [(ob & Hin & [?|?])|(ob & Hin & [?|(m & ? & ?)])]]]];
      unfold factor_event in *; simplify_eq/=; try (by destruct ob).
    split; [done|]. apply list_elem_of_fmap. by exists col.
  - intros [Hf Hin]. destruct o; simplify_eq/=.
    + left. exists (subject, v). split; [done|]. by right.
    + right; left. apply list_elem_of_fmap in Hin as (col & [= -> ->] & Hin).
      by exists col.
    + do 2 right; left. exists (subject, v). split; [done|]. by right.
    + do 3 right; left. exists (subject, v). split; [done|]. by right.
Qed.

Lemma elem_of_events_mission st mission osd_id :
  PlaceMission mission osd_id ∈ events st ↔ (osd_id, mission) ∈ observed_missions st.
Proof.
  rewrite elem_of_events. unfold observed_missions. rewrite list_elem_of_bind. split.
  - intros [(ob & Hin & [?|?])|[(col & Hin & ?)|[(ob & Hin & [?|?])|
            [(ob & Hin & [?|?])|(ob & Hin & [?|(m & ? & ?)])]]]];
      unfold factor_event in *; simplify_eq/=.
    exists ob. split; [|done]. destruct ob as [osd s]. simpl in *.
    apply list_elem_of_fmap. by exists m.
  - intros ([osd s] & Hin & Hob).
    apply list_elem_of_fmap in Hin as (m & [= -> ->] & Hin).
    do 4 right. exists (osd, s). split; [done|]. right. by exists m.
Qed.

Lemma elem_of_events_note st osd_id :
  NoteSubject osd_id ∈ events st ↔
  ∃ value,
    (osd_id, value) ∈ observations assay_column (assay_data st) ∨
    (osd_id, value) ∈ observations organism_column (organism_data st) ∨
    (osd_id, value) ∈ observations material_column (material_data st) ∨
    (osd_id, value) ∈ observations mission_column (mission_data st).
Proof.
  rewrite elem_of_events. split.
  - intros [(ob & Hin & [?|?])|[(col & Hin & ?)|[(ob & Hin & [?|?])|
            [(ob & Hin & [?|?])|(ob & Hin & [?|(m & ? & ?)])]]]];
      unfold factor_event in *; simplify_eq/=;
      destruct ob as [osd value]; exists value; simpl; eauto.
  - intros (value & [H|[H|[H|H]]]).
    + left. exists (osd_id, value). split; [done|]. by left.
    + do 2 right; left. exists (osd_id, value). split; [done|]. by left.
    + do 3 right; left. exists (osd_id, value). split; [done|]. by left.
    + do 4 right. exists (osd_id, value). split; [done|]. by left.
Qed.

Lemma events_ok st : Forall event_ok (events st).
Proof.
  apply Forall_forall. intros e He. destruct e as [|o other v subject|]; [done| |done].
  by apply elem_of_events_reconcile in He as [? _].
Qed.

End events_membership.
(** ** Counting records *)

(** Case analysis on the test of a conjunction in the goal. *)
Ltac case_and H :=
  match goal with
  | |- context [decide (?P ∧ ?Q)] => destruct (decide (P ∧ Q)) as [H|H]
  end.

Section counting.
Implicit Types (st : generator) (g : grouping) (o : original) (c v : string)
  (e : event) (evs : list event).

(** A counter that goes up by [k] exactly when a monotone flag is raised. *)
Lemma count_once (cnt : generator → nat) (has : generator → Prop)
    {Hdec : ∀ st, Decision (has st)} (Q : generator → Prop) (k : nat) evs :
  (∀ st e, e ∈ evs → Q st → Q (apply_event st e)) →
  (∀ st e, e ∈ evs → Q st → has st → has (apply_event st e)) →
  (∀ st e, e ∈ evs → Q st →
     cnt (apply_event st e) =
     cnt st + (if decide (has st) then 0
               else if decide (has (apply_event st e)) then k else 0)) →
  ∀ st, Q st →
    cnt (foldl apply_event st evs) =
    cnt st + (if decide (has st) then 0
              else if decide (has (foldl apply_event st evs)) then k else 0).
Proof.
  induction evs as [|e evs IH]; intros HQ Hmono Hstep st Hst; simpl.
  - repeat case_decide; lia || done.
  - assert (∀ st, Q st → has st → has (foldl apply_event st evs)) as Hmono'.
    { clear -HQ Hmono. induction evs as [|e' evs IH]; intros st' ? ?; simpl; [done|].
      apply IH.
      - intros ? ? ? ?. apply HQ; [|done]. set_solver.
      - intros ? ? ? ? ?. apply Hmono; [|done..]. set_solver.
      - apply HQ; [|done]. set_solver.
      - apply Hmono; [|done..]. set_solver. }
    rewrite IH.
    + rewrite (Hstep st e) by (done || left).
      assert (Q (apply_event st e)) as HQ' by (apply HQ; [left|done]).
      destruct (decide (has st)) as [H1|H1].
      * rewrite decide_True; [lia|]. apply Hmono; [left|done..].
      * destruct (decide (has (apply_event st e))) as [H2|H2].
        -- rewrite decide_True; [lia|]. by apply Hmono'.
        -- lia.
    + intros ? ? ? ?. apply HQ; [by right|done].
    + intros ? ? ? ? ?. apply Hmono; [by right|done..].
    + intros ? ? ? ?. apply Hstep; [by right|done].
    + apply HQ; [left|done].
Qed.

Lemma unmapped_of_apply_event g v st e :
  length (unmapped_of g v (apply_event st e)) =
  length (unmapped_of g v st) +
  length (filter (λ r : record, r.1.1 = g ∧ r.1.2 = v) (new_unmapped st e)).
Proof.
  unfold unmapped_of. by rewrite unmapped_apply_event, filter_app, length_app.
Qed.

Lemma target_unmatched o other v existing :
  find_category_for_value v o existing = None →
  target o other v existing = (other, false).
Proof. unfold target. by intros ->. Qed.

Lemma target_matched o other v existing c :
  target o other v existing = (c, true) →
  find_category_for_value v o existing = Some c.
Proof.
  unfold target. destruct (find_category_for_value v o existing) as [c'|]; [|done].
  destruct (PyStr.truthy c'); naive_solver.
Qed.

(** The Unmapped Records of an unmatched value of a fed grouping: one
    more exactly when the value enters the fallback category. *)
Lemma unmapped_of_unmatched o other v existing evs :
  fallback_category o = Some other →
  find_category_for_value v o existing = None →
  Forall event_ok evs →
  ∀ st, existing_structure st = existing →
    length (unmapped_of o v (foldl apply_event st evs)) =
    length (unmapped_of o v st) +
    (if decide (v ∈ out_values o other st) then 0
     else if decide (v ∈ out_values o other (foldl apply_event st evs)) then 1 else 0).
Proof.
  intros Hfb Hfind Hok.
  apply (count_once (Hdec := λ st, decide (v ∈ out_values o other st))
           (λ st, length (unmapped_of o v st))
           (λ st, v ∈ out_values o other st)
           (λ st, existing_structure st = existing) 1 evs).
  - intros st e _ <-. apply existing_structure_apply_event.
  - intros st e _ _ H. by apply (apply_event_le st e o).
  - intros st e He Hex. rewrite unmapped_of_apply_event. f_equal.
    rewrite out_values_apply_event, Hex.
    rewrite Forall_forall in Hok. specialize (Hok e He).
    destruct e as [osd|o' other' v' subject|mission osd]; simpl.
    + repeat case_decide; done.
    + rewrite Hex.
      destruct (decide (o' = o ∧ v' = v)) as [[-> ->]|Hne].
      * simpl in Hok. assert (other' = other) as -> by congruence.
        rewrite (target_unmatched o other v existing Hfind). simpl.
        destruct (decide (Orig o = Orig o ∧ other = other)) as [_|Hn]; [|naive_solver].
        destruct (decide (v ∈ out_values o other st)) as [Hin|Hin].
        -- by rewrite bool_decide_eq_false_2 by (by intros ?).
        -- rewrite bool_decide_eq_true_2 by done. simpl.
           rewrite filter_cons_True by done. by rewrite decide_True by set_solver.
      * destruct (target o' other' v' existing) as [c t] eqn:Ht. simpl.
        destruct (_ && _);
          [rewrite filter_cons_False by (simpl; naive_solver)|]; simpl.
        all: destruct (decide (v ∈ out_values o other st)) as [|Hin]; [done|].
        all: destruct (decide (Orig o = Orig o' ∧ other = c)) as [[[= <-] <-]|_];
          [|by rewrite decide_False].
        all: assert (v ≠ v') as Hv by naive_solver.
        all: rewrite decide_False; [done|set_solver].
    + destruct (_ && _);
        [rewrite filter_cons_False by (simpl; naive_solver)|]; simpl.
      all: by repeat case_decide.
Qed.

(** The Unmapped Records of a mission piece. *)
Lemma unmapped_of_mission m evs : ∀ st,
  length (unmapped_of Mission m (foldl apply_event st evs)) =
  length (unmapped_of Mission m st) +
  (if decide (m ∈ out_values Mission (classify_mission m) st) then 0
   else if decide (m ∈ out_values Mission (classify_mission m) (foldl apply_event st evs))
        then (if decide (classify_mission m = "Other Missions") then 1 else 0)
        else 0).
Proof.
  intros st. revert st. cut (∀ st, True → length (unmapped_of Mission m (foldl apply_event st evs)) =
  length (unmapped_of Mission m st) +
  (if decide (m ∈ out_values Mission (classify_mission m) st) then 0
   else if decide (m ∈ out_values Mission (classify_mission m) (foldl apply_event st evs))
        then (if decide (classify_mission m = "Other Missions") then 1 else 0)
        else 0)); [by auto|].
  apply (count_once
           (Hdec := λ st, decide (m ∈ out_values Mission (classify_mission m) st))
           (λ st, length (unmapped_of Mission m st))
           (λ st, m ∈ out_values Mission (classify_mission m) st)
           (λ _, True)
           (if decide (classify_mission m = "Other Missions") then 1 else 0) evs);
    [done| |].
  - intros st' e _ _ H. by apply (apply_event_le st' e Mission).
  - intros st' e _ _. rewrite unmapped_of_apply_event. f_equal.
    rewrite out_values_apply_event.
    destruct e as [osd|o' other' v' subject|m' osd]; simpl.
    + repeat case_decide; done.
    + destruct (target o' other' v' (existing_structure st')) as [c t]. simpl.
      destruct (_ && _);
        [rewrite filter_cons_False by (simpl; naive_solver)|]; simpl.
      all: by repeat case_decide.
    + destruct (decide (m' = m)) as [->|Hne].
      * case_and Hn; [|naive_solver].
        destruct (decide (m ∈ out_values Mission (classify_mission m) st')) as [Hin|Hin].
        -- by rewrite bool_decide_eq_false_2 by (by intros ?).
        -- rewrite bool_decide_eq_true_2 by done. simpl.
           rewrite (decide_True (P := m ∈ _ ∪ _)) by set_solver.
           case_bool_decide.
           ++ rewrite filter_cons_True by done. by rewrite decide_True.
           ++ by rewrite decide_False.
      * destruct (_ && _);
          [rewrite filter_cons_False by (simpl; naive_solver)|]; simpl.
        all: destruct (decide (m ∈ out_values Mission (classify_mission m) st'))
          as [|Hin]; [done|].
        all: case_and Hc; [|by rewrite decide_False].
        all: rewrite decide_False; [done|set_solver].
Qed.

(** Every Addition Record is for a value that has a match in the
    snapshot, in an original grouping. *)
Lemma additions_matched existing evs :
  ∀ st, existing_structure st = existing →
    Forall (λ r : record, ∃ o, r.1.1 = Orig o ∧
              find_category_for_value r.2 o existing = Some r.1.2) (additions st) →
    Forall (λ r : record, ∃ o, r.1.1 = Orig o ∧
              find_category_for_value r.2 o existing = Some r.1.2)
           (additions (foldl apply_event st evs)).
Proof.
  induction evs as [|e evs IH]; intros st Hex H; simpl; [done|].
  apply IH; [by rewrite existing_structure_apply_event|].
  rewrite additions_apply_event. apply Forall_app. split; [done|].
  destruct e as [osd|o other v subject|mission osd]; simpl; [done| |done].
  rewrite Hex. destruct (target o other v existing) as [c [|]] eqn:Ht; simpl;
    [|by rewrite andb_false_r].
  rewrite andb_true_r. case_bool_decide; [|done].
  apply Forall_singleton. exists o. split; [done|]. simpl.
  by eapply target_matched.
Qed.

End counting.

(** ** More on strings *)

Section more_string_facts.
Import PyStr.

Lemma app_assoc_str (a b c : string) : (a +:+ b) +:+ c = a +:+ (b +:+ c).
Proof. induction a as [|x a IH]; [done|]. by rewrite !append_cons, IH. Qed.

Lemma app_nil_r_str (a : string) : a +:+ "" = a.
Proof. induction a as [|x a IH]; [done|]. by rewrite append_cons, IH. Qed.

Lemma lstrip_suffix s : ∃ before, s = before +:+ lstrip s.
Proof.
  induction s as [|c s [before IH]]; simpl; [by exists ""|].
  destruct (is_space c); [|by exists ""].
  exists (String c before). by rewrite append_cons, <-IH.
Qed.

Lemma rstrip_prefix s : ∃ after, s = rstrip s +:+ after.
Proof.
  induction s as [|c s [after IH]]; [by exists ""|].
  rewrite rstrip_cons. destruct (rstrip s) as [|d r].
  - destruct (is_space c); [by exists (String c s)|].
    exists s. done.
  - exists after. by rewrite append_cons, <-IH.
Qed.

(** Trimming yields a piece of the string. *)
Lemma strip_infix s : ∃ before after, s = before +:+ strip s +:+ after.
Proof.
  destruct (lstrip_suffix s) as [before Hb].
  destruct (rstrip_prefix (lstrip s)) as [after Ha].
  exists before, after. unfold strip. by rewrite <-Ha.
Qed.

Lemma contains_trans x y s :
  contains x y = true → contains y s = true → contains x s = true.
Proof.
  rewrite !contains_spec. intros (a & b & ->) (a' & b' & ->).
  exists (a' +:+ a), (b +:+ b'). by rewrite !app_assoc_str.
Qed.

Lemma contains_strip x s : contains x (strip s) = true → contains x s = true.
Proof.
  rewrite !contains_spec. intros (a & b & E).
  destruct (strip_infix s) as (before & after & Hs).
  exists (before +:+ a), (b +:+ after). rewrite Hs at 1. rewrite E.
  by rewrite !app_assoc_str.
Qed.

Lemma lstrip_empty_lower s : lstrip (lower s) = "" ↔ lstrip s = "".
Proof. rewrite lstrip_lower. apply lower_empty. Qed.

Lemma rstrip_empty s : rstrip s = "" → lstrip s = "".
Proof.
  induction s as [|c s IH]; [done|]. rewrite rstrip_cons. simpl.
  destruct (rstrip s); [|done]. destruct (is_space c); [auto|done].
Qed.

Lemma strip_empty s : strip s = "" ↔ lstrip s = "".
Proof.
  unfold strip. split; [|by intros ->].
  intros H%rstrip_empty. by rewrite lstrip_idemp in H.
Qed.


Lemma is_space_whitespace c : is_space c = true ↔ c ∈ whitespace.
Proof.
  assert (is_space c = bool_decide (c ∈ whitespace)) as ->
    by (destruct c as [[] [] [] [] [] [] [] []]; vm_compute; reflexivity).
  apply bool_decide_eq_true.
Qed.

Lemma blank_app a b : blank a → blank b → blank (a +:+ b).
Proof. induction a as [|c a IH]; simpl; [done|]. naive_solver. Qed.

(** What [lstrip] removes is whitespace, and what it leaves does not
    start with whitespace. *)
Lemma lstrip_blank s : ∃ before, s = before +:+ lstrip s ∧ blank before.
Proof.
  induction s as [|c s (before & IH & Hb)]; simpl; [by exists ""|].
  destruct (is_space c) eqn:E; [|by exists ""].
  exists (String c before). rewrite append_cons, <-IH. split; [done|].
  simpl. split; [by apply is_space_whitespace|done].
Qed.

Lemma lstrip_head s c rest : lstrip s = String c rest → c ∉ whitespace.
Proof.
  induction s as [|d s IH]; simpl; [done|].
  destruct (is_space d) eqn:E; [done|]. intros [= -> _].
  rewrite <-is_space_whitespace. by rewrite E.
Qed.

(** What [rstrip] removes is whitespace, what it leaves does not end with
    whitespace and starts as the string does. *)
Lemma rstrip_blank s : ∃ after, s = rstrip s +:+ after ∧ blank after.
Proof.
  induction s as [|c s (after & IH & Ha)]; [by exists ""|].
  rewrite rstrip_cons. destruct (rstrip s) as [|d r] eqn:Er.
  - change ("" +:+ after) with after in IH. subst after.
    destruct (is_space c) eqn:E.
    + exists (String c s). split; [done|].
      simpl. split; [by apply is_space_whitespace|done].
    + by exists s.
  - exists after. by rewrite append_cons, <-IH.
Qed.

Lemma rstrip_last s front c : rstrip s = front +:+ String c "" → c ∉ whitespace.
Proof.
  revert front. induction s as [|d s IH]; intros front.
  { simpl. by destruct front. }
  rewrite rstrip_cons. destruct (rstrip s) as [|e r].
  - destruct (is_space d) eqn:E; [by destruct front|].
    destruct front as [|x [|y front]]; simpl; [|done..].
    intros [= ->]. rewrite <-is_space_whitespace. by rewrite E.
  - destruct front as [|x front]; simpl; [done|].
    intros [= _ H]. by apply (IH front).
Qed.

Lemma rstrip_head s c rest : rstrip s = String c rest → ∃ rest', s = String c rest'.
Proof.
  destruct s as [|d s]; [done|]. rewrite rstrip_cons.
  destruct (rstrip s); [destruct (is_space d)|]; intros [= -> _]; eauto.
Qed.

(** Trimming removes whitespace at both ends, and all of it. *)
Lemma strip_trims s :
  (∃ before after, s = before +:+ strip s +:+ after ∧ blank before ∧ blank after) ∧
  (∀ c rest, strip s = String c rest → c ∉ whitespace) ∧
  (∀ front c, strip s = front +:+ String c "" → c ∉ whitespace).
Proof.
  split_and!.
  - destruct (lstrip_blank s) as (before & Hb & ?).
    destruct (rstrip_blank (lstrip s)) as (after & Ha & ?).
    exists before, after. unfold strip. by rewrite <-Ha.
  - intros c rest H. unfold strip in H.
    apply rstrip_head in H as [rest' H]. by apply lstrip_head in H.
  - intros front c H. by apply rstrip_last in H.
Qed.

End more_string_facts.

(** ** The extractor on JSON values *)

Section raw_facts.

Lemma raw_identify_grouping_first_match item :
  Raw.identify_grouping item =
  match item with
  | JObj fields => Raw.first_match Raw.recognition_rules (Raw.values_of fields) (Raw.display_of fields)
  | _ => Raise AttributeError
  end.
Proof. by destruct item. Qed.

Lemma contains_container x v : Raw.container v = true → ∃ b, Raw.contains x v = Ok b.
Proof. destruct v; simpl; try done; eauto. Qed.

Lemma contains_raise x v e :
  Raw.contains x v = Raise e ↔ Raw.container v = false ∧ e = TypeError.
Proof. destruct v; simpl; naive_solver. Qed.

(** A test on the values cannot raise once the first one has passed. *)
Lemma first_match_raise values display e :
  Raw.first_match Raw.recognition_rules values display = Raise e ↔
  e = TypeError ∧
  (Raw.container values = false ∨
   (Raw.container display = false ∧ Raw.contains "Project Type" values = Ok false)).
Proof.
  unfold Raw.recognition_rules, Raw.first_match, Raw.or_else.
  destruct (Raw.container values) eqn:Hv.
  - destruct (contains_container "Project Type" values Hv) as [p ->].
    destruct (contains_container "Study Assay Technology Type" values Hv) as [a ->].
    destruct (contains_container "organism" values Hv) as [o ->].
    destruct (contains_container "material type" values Hv) as [m ->].
    destruct (contains_container "Study Factor Name" values Hv) as [f ->].
    destruct p; [naive_solver|].
    destruct (Raw.container display) eqn:Hd.
    + destruct (contains_container "Assay Type" display Hd) as [a' ->].
      destruct (contains_container "Tissue" display Hd) as [m' ->].
      destruct (contains_container "Factor" display Hd) as [f' ->].
      destruct a', a, o, m', m, f', f; naive_solver.
    + assert (Raw.contains "Assay Type" display = Raise TypeError) as ->
        by by apply contains_raise.
      naive_solver.
  - assert (Raw.contains "Project Type" values = Raise TypeError) as ->
      by by apply contains_raise.
    naive_solver.
Qed.

Lemma raw_identify_grouping_raise item e :
  Raw.identify_grouping item = Raise e ↔
  match item with
  | JObj fields =>
      e = TypeError ∧
      (Raw.container (Raw.values_of fields) = false ∨
       (Raw.container (Raw.display_of fields) = false ∧
        Raw.contains "Project Type" (Raw.values_of fields) = Ok false))
  | _ => e = AttributeError
  end.
Proof.
  rewrite raw_identify_grouping_first_match.
  destruct item; try naive_solver. apply first_match_raise.
Qed.

(** *** Documents of the typed shape *)

Lemma contains_strings x (vals : list string) :
  Raw.contains x (JArr (JStr <$> vals)) = Ok (bool_decide (x ∈ vals)).
Proof.
  simpl. f_equal. induction vals as [|v vals IH]; [done|].
  rewrite fmap_cons. simpl. rewrite IH.
  destruct (decide (v = x)) as [->|Hne].
  - rewrite (bool_decide_eq_true_2 (x = x)) by done. simpl.
    symmetry. apply bool_decide_eq_true_2. left.
  - rewrite (bool_decide_eq_false_2 (v = x)) by done. simpl.
    apply bool_decide_ext. rewrite elem_of_cons. naive_solver.
Qed.

Lemma display_of_node label vals subnodes rest :
  Raw.lookup "displayValue"
    ((match label with Some d => [("displayValue", JStr d)] | None => [] end) ++
     [("values", JArr vals); ("children", JArr subnodes)] ++ rest) =
  match Raw.lookup "displayValue" rest with
  | Some w => Some w
  | None => JStr <$> label
  end.
Proof. destruct label; simpl; by destruct (Raw.lookup _ rest). Qed.

Lemma fields_of_node (n : node) :
  ∃ fields, json_of_node n = JObj fields ∧
            Raw.display_of fields = JStr (default "" (displayValue n)) ∧
            Raw.lookup "displayValue" fields = JStr <$> displayValue n ∧
            Raw.lookup "values" fields = Some (JArr (JStr <$> values n)) ∧
            Raw.lookup "children" fields = Some (JArr (json_of_node <$> children n)).
Proof.
  destruct n as [[d|] vals subnodes]; eexists; (split; [reflexivity|]); done.
Qed.

Lemma identify_grouping_json_of_node n :
  Raw.identify_grouping (json_of_node n) = Ok (identify_grouping n).
Proof.
  destruct (fields_of_node n) as (fields & -> & Hd & _ & Hv & _).
  rewrite raw_identify_grouping_first_match. unfold Raw.values_of. rewrite Hd, Hv. simpl default.
  unfold Raw.recognition_rules, Raw.first_match, Raw.or_else, identify_grouping.
  rewrite !contains_strings. simpl Raw.contains.
  repeat match goal with
         | |- context [bool_decide ?P] => destruct (bool_decide P); simpl
         | |- context [PyStr.contains ?x ?s] => destruct (PyStr.contains x s); simpl
         end; done.
Qed.

Lemma mapM_fmap_Some {A B C} (f : B → option C) (g : A → B) (h : A → C) (l : list A) :
  (∀ x, f (g x) = Some (h x)) → mapM f (g <$> l) = Some (h <$> l).
Proof.
  intros H. induction l as [|x l IH]; [done|].
  rewrite !fmap_cons. simpl. by rewrite H, IH.
Qed.

Lemma read_strings (vals : list string) :
  Raw.read_list Raw.read_string (Some (JArr (JStr <$> vals))) = Some vals.
Proof.
  simpl. rewrite (mapM_fmap_Some Raw.read_string JStr id) by done. by rewrite list_fmap_id.
Qed.

Lemma read_subchild_json_of_node n :
  Raw.read_subchild (json_of_node n) = Some (cut_subchild n).
Proof.
  destruct (fields_of_node n) as (fields & -> & _ & Hl & Hv & _).
  unfold Raw.read_subchild, cut_subchild. rewrite Hl, Hv, read_strings.
  by destruct (displayValue n).
Qed.

Lemma read_child_json_of_node n : Raw.read_child (json_of_node n) = Some (cut_child n).
Proof.
  destruct (fields_of_node n) as (fields & -> & _ & Hl & Hv & Hc).
  unfold Raw.read_child. rewrite Hl, Hv, Hc, read_strings. simpl Raw.read_list.
  rewrite (mapM_fmap_Some _ _ cut_subchild) by apply read_subchild_json_of_node.
  unfold cut_child. by destruct (displayValue n).
Qed.

Lemma read_children_json_of_node n :
  Raw.read_children (json_of_node n) = Some (cut_child <$> children n).
Proof.
  destruct (fields_of_node n) as (fields & -> & _ & _ & _ & Hc).
  unfold Raw.read_children. rewrite Hc. simpl.
  by apply mapM_fmap_Some, read_child_json_of_node.
Qed.

(** The extractor does not look below the grandchildren. *)
Lemma extract_child_cut d child : extract_child d (cut_child child) = extract_child d child.
Proof.
  unfold extract_child. simpl. rewrite foldl_fmap.
  change (category_of (cut_child child)) with (category_of child).
  generalize (add_values (category_of child) (values child)
                (Cats.touch (category_of child) d)).
  induction (children child) as [|sub subs IH]; [done|]. intros d'. simpl. apply IH.
Qed.

Lemma extract_item_json_of_node s n :
  Raw.extract_item s (json_of_node n) = Some (Ok (extract_item s n)).
Proof.
  unfold Raw.extract_item, extract_item.
  rewrite identify_grouping_json_of_node, read_children_json_of_node.
  destruct (identify_grouping n) as [g|]; [|done]. simpl. do 3 f_equal.
  rewrite foldl_fmap. generalize (idx_get g s).
  induction (children n) as [|c cs IH]; [done|]. intros d. simpl.
  by rewrite extract_child_cut.
Qed.

Lemma extract_items_json_of_node s (l : list node) :
  Raw.extract_items s (json_of_node <$> l) = Some (Ok (foldl extract_item s l)).
Proof.
  revert s. induction l as [|n l IH]; [done|]. intros s.
  rewrite fmap_cons. simpl. by rewrite extract_item_json_of_node.
Qed.

(** On a document of the typed shape the extractor returns, and returns
    what the typed embedding gives. *)
Lemma extract_json_of_document doc :
  Raw.extract_existing_structure (json_of_document doc) =
  Some (Ok (extract_existing_structure doc)).
Proof. apply extract_items_json_of_node. Qed.

(** *** Entries that are not recognized *)

Lemma raw_extract_item_skip s item :
  Raw.identify_grouping item = Ok None → Raw.extract_item s item = Some (Ok s).
Proof. unfold Raw.extract_item. by intros ->. Qed.

Lemma raw_extract_items_skip s before item after :
  Raw.identify_grouping item = Ok None →
  Raw.extract_items s (before ++ item :: after) = Raw.extract_items s (before ++ after).
Proof.
  intros H. revert s. induction before as [|x before IH]; intros s; simpl.
  - by rewrite raw_extract_item_skip.
  - destruct (Raw.extract_item s x) as [[s'|e]|]; [apply IH|done..].
Qed.

(** An object whose label is a string, a list or a dict, or is absent, and
    whose values are so too, is given a grouping or none; no test raises. *)
Lemma raw_identify_grouping_returns fields :
  Raw.container (Raw.display_of fields) = true → Raw.container (Raw.values_of fields) = true →
  ∃ g, Raw.identify_grouping (JObj fields) = Ok g.
Proof.
  intros Hd Hv. destruct (Raw.identify_grouping (JObj fields)) as [g|e] eqn:E; [eauto|].
  apply raw_identify_grouping_raise in E as [_ [?|[? _]]]; congruence.
Qed.

End raw_facts.
(** * The claims *)

(** A decidable closed proposition, settled by evaluation. *)
Ltac decide_by_compute := apply (bool_decide_unpack _); vm_compute; exact I.

(** C9.  The normalizer is idempotent: normalizing an already normalized
    string returns it unchanged, for every string; and the two spellings
    [" Mus musculus "] and ["MUS MUSCULUS"] collapse to the one key
    ["mus musculus"]. *)
Theorem norm_idempotent :
  (∀ s : string, norm (norm s) = norm s) ∧
  norm " Mus musculus " = "mus musculus" ∧
  norm "MUS MUSCULUS" = "mus musculus".
Proof.
  split; [|done].
  intros s. rewrite !norm_unfold.
  by rewrite strip_lower, strip_idemp, lower_idemp.
Qed.


(** C7, as stated, fails: an entry whose display label is null and whose
    values hold no marker matches none of the five rules, no test on it
    being true; yet the test of its label raises a [TypeError], and so does
    the extraction of the document that holds it. *)
Lemma grouping_recognition_counterexample :
  let values := JArr [JStr "GeneLab"] in
  let entry := JObj [("displayValue", JNull); ("values", values)] in
  Forall (λ rule : (json → json → result bool) * original,
            rule.1 values JNull ≠ Ok true) Raw.recognition_rules ∧
  Raw.identify_grouping entry = Raise TypeError ∧
  Raw.extract_existing_structure (JObj [("study", JArr [entry])]) =
    Some (Raise TypeError).
Proof.
  split_and!; [|reflexivity..].
  unfold Raw.recognition_rules. repeat constructor; simpl; discriminate.
Qed.

(** C7, amended.  Every top-level entry gets the grouping of the first
    recognition rule it matches, the rules being tried in the order Project
    Type, Assay type, Organism, Material type, Factor on its marker values
    and display label; an entry that matches no rule leaves the index as it
    was, whatever else it holds, so the extraction of a document does not
    depend on such entries.  Recognition raises nothing on an object whose
    label and values are each absent or a string, a list or an object.  It
    raises an [AttributeError] on an entry that is not an object, and a
    [TypeError] where a test reads values, or a label, that are null, a
    number or a boolean: the values at the first test, the label at the
    second when the first did not match.  On a document whose labels are
    strings and whose values are lists of strings the extractor returns,
    and the typed embedding gives what it returns. *)
Theorem grouping_recognition :
  (∀ item,
     identify_grouping item =
     first_match recognition_rules (values item) (default "" (displayValue item))) ∧
  (∀ s item, identify_grouping item = None → extract_item s item = s) ∧
  (∀ before item after,
     identify_grouping item = None →
     extract_existing_structure {| study := before ++ item :: after |} =
     extract_existing_structure {| study := before ++ after |}) ∧
  (∀ fields,
     Raw.identify_grouping (JObj fields) =
     Raw.first_match Raw.recognition_rules (Raw.values_of fields) (Raw.display_of fields)) ∧
  (∀ s item,
     Raw.identify_grouping item = Ok None → Raw.extract_item s item = Some (Ok s)) ∧
  (∀ s before item after,
     Raw.identify_grouping item = Ok None →
     Raw.extract_items s (before ++ item :: after) = Raw.extract_items s (before ++ after)) ∧
  (∀ before item after,
     Raw.identify_grouping item = Ok None →
     Raw.extract_existing_structure (JObj [("study", JArr (before ++ item :: after))]) =
     Raw.extract_existing_structure (JObj [("study", JArr (before ++ after))])) ∧
  (∀ fields,
     Raw.container (Raw.display_of fields) = true →
     Raw.container (Raw.values_of fields) = true →
     ∃ g, Raw.identify_grouping (JObj fields) = Ok g) ∧
  (∀ item e,
     Raw.identify_grouping item = Raise e ↔
     match item with
     | JObj fields =>
         e = TypeError ∧
         (Raw.container (Raw.values_of fields) = false ∨
          (Raw.container (Raw.display_of fields) = false ∧
           Raw.contains "Project Type" (Raw.values_of fields) = Ok false))
     | _ => e = AttributeError
     end) ∧
  (∀ item, Raw.identify_grouping (json_of_node item) = Ok (identify_grouping item)) ∧
  (∀ doc,
     Raw.extract_existing_structure (json_of_document doc) =
     Some (Ok (extract_existing_structure doc))).
Proof.
  split_and!.
  - intros item. unfold identify_grouping. simpl.
    repeat match goal with |- context [if ?b then _ else _] => destruct b; try done end.
  - intros s item H. unfold extract_item. by rewrite H.
  - intros before item after H. unfold extract_existing_structure. simpl.
    rewrite !foldl_app. simpl. unfold extract_item at 2. by rewrite H.
  - intros fields. by rewrite raw_identify_grouping_first_match.
  - apply raw_extract_item_skip.
  - apply raw_extract_items_skip.
  - intros before item after H. by apply raw_extract_items_skip.
  - apply raw_identify_grouping_returns.
  - apply raw_identify_grouping_raise.
  - apply identify_grouping_json_of_node.
  - apply extract_json_of_document.
Qed.

Lemma grouping_recognition_witness :
  let stray := Node (Some "Data Source") ["GeneLab"] [Node (Some "x") ["y"] []] in
  let entry := Node (Some "Factor of organism") ["organism"] [] in
  let odd_fields := [("displayValue", JStr "Data Source");
                     ("values", JArr [JNull; JStr "GeneLab"]);
                     ("children", JNum "7")] in
  identify_grouping stray = None ∧
  identify_grouping entry = Some Organism ∧
  extract_item empty_index stray = empty_index ∧
  extract_existing_structure {| study := [entry] ++ stray :: [] |} =
  extract_existing_structure {| study := [entry] ++ [] |} ∧
  Raw.identify_grouping (JObj odd_fields) = Ok None ∧
  Raw.extract_item empty_index (JObj odd_fields) = Some (Ok empty_index) ∧
  Raw.extract_items empty_index ([json_of_node entry] ++ JObj odd_fields :: []) =
  Raw.extract_items empty_index ([json_of_node entry] ++ []) ∧
  Raw.extract_existing_structure
    (JObj [("study", JArr ([json_of_node entry] ++ JObj odd_fields :: []))]) =
  Raw.extract_existing_structure (JObj [("study", JArr ([json_of_node entry] ++ []))]) ∧
  (∃ g, Raw.identify_grouping (JObj odd_fields) = Ok g) ∧
  Raw.identify_grouping (json_of_node entry) = Ok (Some Organism).
Proof.
  destruct grouping_recognition
    as (H1 & H2 & H3 & H4 & H5 & H6 & H6' & H7 & H8 & H9 & H10).
  split_and!.
  - by rewrite H1.
  - by rewrite H1.
  - by apply H2.
  - by apply H3.
  - by rewrite H4.
  - by apply H5.
  - by apply H6.
  - by apply H6'.
  - by apply H7.
  - by rewrite H9, H1.
Defined.

(** C6, as stated, fails: a child whose display label is present but empty
    is named "Uncategorized" although it has a first raw value. *)
Lemma category_name_counterexample :
  let child := Node (Some "") ["Mus musculus"] [] in
  spec_derived_name child = "Mus musculus" ∧
  category_of child = "Uncategorized" ∧
  category_of child ≠ spec_derived_name child.
Proof. done. Qed.

(** C6, amended.  For every child of a recognized top-level entry the
    category name is the display label when that key is present and not
    empty, the first raw value when the key is absent and that value exists
    and is not empty, and "Uncategorized" in every other case; the category
    is in the extracted index of the entry's grouping and holds the child's
    non-empty values.  A grandchild whose display label is present and not
    empty is named by it, one without the key by its first raw value when
    that is not empty, and in both cases its non-empty values are recorded
    under the compound key "<category>|<subcategory>". *)
Theorem category_name_derivation doc item g child :
  item ∈ study doc → identify_grouping item = Some g → child ∈ children item →
  let existing := idx_get g (extract_existing_structure doc) in
  category_of child = derived_category child ∧
  Cats.mem (category_of child) existing = true ∧
  (∀ v, v ∈ values child → v ≠ "" → v ∈ Cats.values_of (category_of child) existing) ∧
  ∀ subchild, subchild ∈ children child →
    (∀ label, displayValue subchild = Some label → label ≠ "" →
       subcategory_of subchild = label) ∧
    (∀ v rest, displayValue subchild = None → values subchild = v :: rest → v ≠ "" →
       subcategory_of subchild = v) ∧
    (subcategory_of subchild ≠ "" →
       let full := category_of child +:+ "|" +:+ subcategory_of subchild in
       Cats.mem full existing = true ∧
       ∀ v, v ∈ values subchild → v ≠ "" → v ∈ Cats.values_of full existing).
Proof.
  intros Hitem Hg Hchild existing.
  destruct (extract_existing_structure_reaches doc item g child Hitem Hg Hchild)
    as (d & Hd).
  fold existing in Hd.
  destruct (extract_child_category d child) as [Hmem Hvals].
  split_and!.
  - unfold category_of, derived_category, label_of, first_value.
    destruct (displayValue child) as [label|]; simpl.
    + by destruct (PyStr.truthy label).
    + destruct (values child) as [|v rest]; simpl; [done|].
      by destruct (PyStr.truthy v).
  - by apply (Hd (category_of child)).
  - intros v Hv Hne. apply (Hd (category_of child)). by apply Hvals.
  - intros subchild Hsub. split_and!.
    + intros label E _. unfold subcategory_of, label_of. by rewrite E.
    + intros v rest E1 E2 _. unfold subcategory_of, label_of, first_value.
      by rewrite E1, E2.
    + intros _ full.
      destruct (extract_child_subcategory d child subchild Hsub) as [Hm Hv].
      split.
      * by apply (Hd full).
      * intros v Hin Hne. apply (Hd full). by apply Hv.
Qed.

Lemma category_name_derivation_witness :
  let grandchild := Node None ["Liver"; "liver"] [] in
  let child := Node (Some "") ["Mus musculus"] [grandchild] in
  let item := Node (Some "Organism") ["organism"] [child] in
  let existing := idx_get Organism (extract_existing_structure {| study := [item] |}) in
  category_of child = "Uncategorized" ∧
  "Mus musculus" ∈ Cats.values_of "Uncategorized" existing ∧
  subcategory_of grandchild = "Liver" ∧
  Cats.mem "Uncategorized|Liver" existing = true ∧
  "liver" ∈ Cats.values_of "Uncategorized|Liver" existing.
Proof.
  intros grandchild child item existing.
  destruct (category_name_derivation {| study := [item] |} item Organism child)
    as (Hc & _ & Hv & Hs).
  { simpl. apply list_elem_of_singleton. reflexivity. }
  { reflexivity. }
  { simpl. apply list_elem_of_singleton. reflexivity. }
  destruct (Hs grandchild) as (_ & Hn & Hk).
  { simpl. apply list_elem_of_singleton. reflexivity. }
  destruct Hk as [Hm Hl]; [done|].
  split_and!.
  - exact Hc.
  - apply Hv; [|done]. simpl. apply list_elem_of_here.
  - by apply (Hn "Liver" ["liver"]).
  - exact Hm.
  - apply Hl; [|done]. simpl. apply list_elem_of_further, list_elem_of_here.
Defined.

(** A grandchild with an empty label: the compound key ends in the
    separator. *)
Example subcategory_of_empty_label :
  let grandchild := Node (Some "") ["Liver"] [] in
  let child := Node (Some "Rodents") [] [grandchild] in
  let item := Node (Some "Organism") ["organism"] [child] in
  Cats.keys (organism (extract_existing_structure {| study := [item] |}))
  = ["Rodents"; "Rodents|"].
Proof. reflexivity. Qed.

(** C1.  Completeness.  In a run that gets through [__init__] and through
    the reconciliation pass, every value of the five original groupings of
    the snapshot has, in the same grouping of the output index, a value with
    the same normalized form; the verifier's missing set is empty and it
    reports success, whatever was added or left unmapped. *)
Theorem completeness_invariant w st st' :
  init w = Ok st → process_api_data st = Ok st' →
  (∀ o c vs v,
     (c, vs) ∈ idx_get o (existing_structure st) → v ∈ vs →
     ∃ c' vs' v', (c', vs') ∈ out_get (Orig o) (new_json st') ∧ v' ∈ vs' ∧
                  norm v' = norm v) ∧
  missing st' = ∅ ∧
  verify_completeness st' = true.
Proof.
  intros Hinit%init_initial Hpass%process_api_data_events. subst st'.
  set (st' := foldl apply_event st (events st)).
  assert (index_wf (existing_structure st')) as Hwf.
  { unfold st'. rewrite existing_structure_foldl. by apply initial_wf. }
  assert (covers st') as Hc by (by apply covers_foldl, initial_covers).
  pose proof (covers_verify st' Hwf Hc) as Hv.
  split_and!; [|by apply bool_decide_eq_true in Hv|done].
  intros o c vs v Hin Hvs.
  assert (existing_structure st' = existing_structure st) as E
    by apply existing_structure_foldl.
  rewrite <-E in Hin.
  destruct (covers_elem_of st' o c vs v Hwf Hc Hin Hvs) as (vs' & ? & ?).
  by exists c, vs', v.
Qed.

Lemma completeness_invariant_witness :
  ∃ st', process_api_data Scenario.st0 = Ok st' ∧
         missing st' = ∅ ∧ verify_completeness st' = true ∧
         length (additions st') = 1 ∧ length (unmapped st') = 4.
Proof.
  assert (∃ st', process_api_data Scenario.st0 = Ok st') as [st' Hpass]
    by (vm_compute; eexists; reflexivity).
  exists st'. split; [exact Hpass|].
  destruct (completeness_invariant Scenario.w Scenario.st0 st') as (_ & Hm & Hv).
  { reflexivity. }
  { exact Hpass. }
  split_and!; [exact Hm|exact Hv|..].
  - vm_compute in Hpass. by injection Hpass as <-.
  - vm_compute in Hpass. by injection Hpass as <-.
Defined.

(** C2.  The insertion guard tests the raw string.  Let the snapshot come
    from the extractor and let an observed value have the normalized form
    of some value of some snapshot category of its grouping.  Then
    [find_category_for_value] finds a category holding such a value, and:
    if the raw value is not in the output set of that grouping and category,
    it is inserted there and exactly one Addition Record (grouping,
    category, value) is appended, and no Unmapped Record, whether or not
    another spelling of the value is in the set; if the raw value is in the
    set, nothing changes. *)
Theorem raw_presence_guard doc st o other value subject c0 vs w0 :
  existing_structure st = extract_existing_structure doc →
  (c0, vs) ∈ idx_get o (existing_structure st) → w0 ∈ vs → norm w0 = norm value →
  ∃ category,
    find_category_for_value value o (existing_structure st) = Some category ∧
    (∃ w1, w1 ∈ Cats.values_of category (idx_get o (existing_structure st)) ∧
           norm w1 = norm value) ∧
    let st' := reconcile o other value subject st in
    (value ∉ out_values o category st →
       out_values o category st' = out_values o category st ∪ {[value]} ∧
       additions st' = additions st ++ [(Orig o, category, value)] ∧
       unmapped st' = unmapped st) ∧
    (value ∈ out_values o category st → st' = st).
Proof.
  intros Hex Hin Hw0 Hnorm.
  assert (index_wf (existing_structure st)) as Hwf
    by (rewrite Hex; apply extract_existing_structure_wf).
  destruct (find_category_for_value value o (existing_structure st))
    as [category|] eqn:Hfind.
  2:{ exfalso. unfold find_category_for_value in Hfind.
      by apply (proj1 (scan_categories_None _ _) Hfind c0 vs w0). }
  exists category. split; [done|]. split.
  { apply scan_categories_get; [apply (Hwf o)|done]. }
  pose proof (target_wf o other value _ Hwf) as Ht. rewrite Hfind in Ht.
  set (e := Reconcile o other value subject).
  change (reconcile o other value subject st) with (apply_event st e).
  split.
  - intros Hnew. split_and!.
    + rewrite out_values_apply_event. unfold e, placement. rewrite Ht. simpl.
      by rewrite decide_True.
    + rewrite additions_apply_event. unfold e, new_additions. rewrite Ht. simpl.
      by rewrite bool_decide_eq_true_2.
    + rewrite unmapped_apply_event. unfold e, new_unmapped. rewrite Ht. simpl.
      by rewrite andb_false_r, app_nil_r.
  - intros Hold. apply absorbed_apply_event. unfold absorbed, e, placement.
    by rewrite Ht.
Qed.

Lemma raw_presence_guard_witness :
  let st' := reconcile Organism "Other Organisms" "mus musculus" "OSD-100" Scenario.st0 in
  find_category_for_value "mus musculus" Organism (existing_structure Scenario.st0)
    = Some "Rodents" ∧
  out_values Organism "Rodents" Scenario.st0 = {["Mus musculus"]} ∧
  out_values Organism "Rodents" st' = {["Mus musculus"]} ∪ {["mus musculus"]} ∧
  additions st' = [(Orig Organism, "Rodents", "mus musculus")] ∧
  unmapped st' = [].
Proof.
  destruct (raw_presence_guard Scenario.doc Scenario.st0 Organism "Other Organisms"
              "mus musculus" "OSD-100" "Rodents" {["Mus musculus"]} "Mus musculus")
    as (category & Hfind & _ & Hnew & _).
  { reflexivity. }
  { vm_compute. apply list_elem_of_here. }
  { by apply elem_of_singleton. }
  { reflexivity. }
  assert (category = "Rodents") as -> by (vm_compute in Hfind; congruence).
  assert (out_values Organism "Rodents" Scenario.st0 = {["Mus musculus"]}) as Hout
    by (by vm_compute).
  destruct Hnew as (Hv & Ha & Hu).
  { rewrite Hout. intros H%elem_of_singleton. discriminate H. }
  split_and!; [done|done| |exact Ha|exact Hu].
  rewrite <-Hout. exact Hv.
Defined.

(** C5.  Reconciliation is idempotent.  When a pass over an object
    completes, a second pass over the resulting object, with the same feeds
    and the same snapshot, completes too and leaves the object as it is: it
    appends no Addition Record and no Unmapped Record, and the number of
    Addition Records after two passes is the number after one. *)
Theorem reconciliation_idempotent st st1 :
  process_api_data st = Ok st1 →
  ∃ st2, process_api_data st1 = Ok st2 ∧
         additions st2 = additions st1 ∧ unmapped st2 = unmapped st1 ∧
         length (additions st2) = length (additions st1) ∧
         st2 = st1.
Proof.
  intros Hpass. exists st1.
  pose proof (process_api_data_feeds_ok _ _ Hpass) as Hok.
  apply process_api_data_events in Hpass.
  assert (same_inputs st st1) as Hsame by (subst st1; apply same_inputs_foldl).
  split; [|done].
  rewrite process_api_data_total by (by eapply feeds_ok_same_inputs).
  rewrite (events_same_inputs st st1 Hsame). f_equal.
  apply foldl_absorbed. intros e He. subst st1. by apply absorbed_foldl.
Qed.

Lemma reconciliation_idempotent_witness :
  ∃ st1, process_api_data Scenario.st0 = Ok st1 ∧
         process_api_data st1 = Ok st1 ∧
         length (additions st1) = 1 ∧ length (unmapped st1) = 4.
Proof.
  assert (∃ st1, process_api_data Scenario.st0 = Ok st1) as [st1 Hpass]
    by (vm_compute; eexists; reflexivity).
  exists st1. split; [exact Hpass|].
  destruct (reconciliation_idempotent Scenario.st0 st1 Hpass)
    as (st2 & Hpass2 & _ & _ & _ & ->).
  split_and!; [exact Hpass2|..].
  - vm_compute in Hpass. by injection Hpass as <-.
  - vm_compute in Hpass. by injection Hpass as <-.
Defined.

(** C4.  Fallback routing.  In a run that gets through [__init__] and the
    pass: a value observed for a grouping that has a feed, with no
    normalized match in any snapshot category of that grouping, ends up in
    the grouping's fallback category, with exactly one Unmapped Record and
    no Addition Record for it, however many rows carry it; a mission piece
    ends up in the category it classifies to, with exactly one record in
    the unmapped list when that category is "Other Missions" and none when
    it is one of the nine named categories, and never an Addition Record. *)
Theorem fallback_routing w st st' :
  init w = Ok st → process_api_data st = Ok st' →
  (∀ o other subject v,
     fallback_category o = Some other →
     (subject, v) ∈ observed_values o st →
     (∀ c vs x, (c, vs) ∈ idx_get o (existing_structure st) → x ∈ vs →
                norm x ≠ norm v) →
     v ∈ out_values o other st' ∧
     length (unmapped_of o v st') = 1 ∧
     length (additions_of o v st') = 0) ∧
  (∀ osd_id piece,
     (osd_id, piece) ∈ observed_missions st →
     piece ∈ out_values Mission (classify_mission piece) st' ∧
     length (unmapped_of Mission piece st') =
       (if decide (classify_mission piece = "Other Missions") then 1 else 0) ∧
     length (additions_of Mission piece st') = 0).
Proof.
  intros Hinit%init_initial Hpass%process_api_data_events. subst st'.
  set (existing := existing_structure st).
  assert (Forall (λ r : record, ∃ o, r.1.1 = Orig o ∧
            find_category_for_value r.2 o existing = Some r.1.2)
            (additions (foldl apply_event st (events st)))) as Hadd.
  { apply additions_matched; [done|].
    destruct Hinit as (_ & _ & -> & _). constructor. }
  rewrite Forall_forall in Hadd.
  assert (unmapped st = []) as Hun by apply Hinit.
  split.
  - intros o other subject v Hfb Hobs Hnone.
    assert (find_category_for_value v o existing = None) as Hfind
      by (by apply scan_categories_None).
    assert (Reconcile o other v subject ∈ events st) as He
      by (by apply elem_of_events_reconcile).
    assert (v ∈ out_values o other (foldl apply_event st (events st))) as Hin.
    { apply out_values_foldl. right. eexists. split; [exact He|].
      unfold placement. fold existing.
      by rewrite (target_unmatched o other v existing Hfind). }
    split_and!; [done| |].
    + rewrite (unmapped_of_unmatched o other v existing) by (done || apply events_ok).
      rewrite (decide_True (P := v ∈ out_values o other (foldl _ _ _))) by done.
      unfold unmapped_of at 1. rewrite Hun. simpl.
      rewrite decide_False; [done|].
      unfold out_values. rewrite initial_out_get by done. fold existing.
      unfold Cats.values_of. destruct (Cats.get other (idx_get o existing)) as [vs|] eqn:E;
        simpl; [|set_solver].
      intros Hv. by apply (Hnone other vs v); [apply get_elem_of|..].
    + unfold additions_of.
      destruct (filter _ _) as [|r l] eqn:E; [done|]. exfalso.
      assert (r ∈ filter (λ r : record, r.1.1 = Orig o ∧ r.2 = v)
                (additions (foldl apply_event st (events st)))) as Hr
        by (rewrite E; left).
      apply list_elem_of_filter in Hr as [[H1 H2] Hr].
      destruct (Hadd r Hr) as (o' & H3 & H4).
      assert (o' = o) as -> by congruence. congruence.
  - intros osd_id piece Hobs.
    assert (PlaceMission piece osd_id ∈ events st) as He
      by (by apply elem_of_events_mission).
    assert (piece ∈ out_values Mission (classify_mission piece)
              (foldl apply_event st (events st))) as Hin.
    { apply out_values_foldl. right. eexists. split; [exact He|done]. }
    split_and!; [done| |].
    + rewrite unmapped_of_mission.
      rewrite (decide_True (P := piece ∈ out_values Mission _ (foldl _ _ _))) by done.
      unfold unmapped_of at 1. rewrite Hun. simpl.
      rewrite decide_False; [done|].
      unfold out_values. rewrite initial_mission by done. set_solver.
    + unfold additions_of.
      destruct (filter _ _) as [|r l] eqn:E; [done|]. exfalso.
      assert (r ∈ filter (λ r : record, r.1.1 = Mission ∧ r.2 = piece)
                (additions (foldl apply_event st (events st)))) as Hr
        by (rewrite E; left).
      apply list_elem_of_filter in Hr as [[H1 H2] Hr].
      destruct (Hadd r Hr) as (o' & H3 & H4). congruence.
Qed.

Lemma fallback_routing_witness :
  ∃ st', process_api_data Scenario.st0 = Ok st' ∧
    "Quantum Flux Sequencing" ∈ out_values AssayTechnologyType "Other Assay Types" st' ∧
    length (unmapped_of AssayTechnologyType "Quantum Flux Sequencing" st') = 1 ∧
    length (additions_of AssayTechnologyType "Quantum Flux Sequencing" st') = 0 ∧
    "Foton" ∈ out_values Mission "Other Missions" st' ∧
    length (unmapped_of Mission "Foton" st') = 1 ∧
    "RR-5" ∈ out_values Mission "Rodent Research" st' ∧
    length (unmapped_of Mission "RR-5" st') = 0.
Proof.
  assert (∃ st', process_api_data Scenario.st0 = Ok st') as [st' Hpass]
    by (vm_compute; eexists; reflexivity).
  exists st'. split; [exact Hpass|].
  destruct (fallback_routing Scenario.w Scenario.st0 st') as [Hfed Hmission].
  { reflexivity. }
  { exact Hpass. }
  destruct (Hfed AssayTechnologyType "Other Assay Types" "OSD-101"
              "Quantum Flux Sequencing") as (H1 & H2 & H3).
  { reflexivity. }
  { decide_by_compute. }
  { intros c vs x H. vm_compute in H. apply elem_of_nil in H. destruct H. }
  destruct (Hmission "OSD-101" "Foton") as (H4 & H5 & _).
  { decide_by_compute. }
  destruct (Hmission "OSD-100" "RR-5") as (H6 & H7 & _).
  { decide_by_compute. }
  split_and!; [exact H1|exact H2|exact H3|exact H4|exact H5|exact H6|exact H7].
Defined.

(** C10.  The Factor feed is read from its column names.  In a pass that
    completes, every Unmapped Record the pass appends for the Factor
    grouping has the subject "schema"; the Factor loop leaves the set of
    covered identifiers as it is; and the identifiers the whole pass adds
    are exactly the first cells of the rows with a non-empty value in the
    assay, organism, material and mission feeds. *)
Theorem factor_subject_is_schema st st' :
  process_api_data st = Ok st' →
  (∃ new, unmapped st' = unmapped st ++ new ∧
          ∀ v subject, (Orig Factor, v, subject) ∈ new → subject = "schema") ∧
  all_osd_ids (process_factors st) = all_osd_ids st ∧
  (∀ osd_id,
     osd_id ∈ all_osd_ids st' ↔
     osd_id ∈ all_osd_ids st ∨
     ∃ value,
       (osd_id, value) ∈ observations assay_column (assay_data st) ∨
       (osd_id, value) ∈ observations organism_column (organism_data st) ∨
       (osd_id, value) ∈ observations material_column (material_data st) ∨
       (osd_id, value) ∈ observations mission_column (mission_data st)).
Proof.
  intros Hpass%process_api_data_events. subst st'. split_and!.
  - assert (∀ e, e ∈ events st →
              ∀ other v subject, e = Reconcile Factor other v subject → subject = "schema")
      as Hev.
    { intros e He other v subject ->.
      apply elem_of_events_reconcile in He as [_ He]. simpl in He.
      by apply list_elem_of_fmap in He as (col & [= -> _] & _). }
    revert Hev. generalize (events st). intros evs. revert st.
    induction evs as [|e evs IH]; intros st Hev; simpl.
    + exists []. split; [by rewrite app_nil_r|]. intros v subject H.
      by apply elem_of_nil in H.
    + destruct (IH (apply_event st e)) as (new & -> & Hnew).
      { intros e' He'. apply Hev. by right. }
      exists (new_unmapped st e ++ new). rewrite unmapped_apply_event.
      split; [by rewrite <-app_assoc|].
      intros v subject [H|H]%elem_of_app; [|by eapply Hnew].
      destruct e as [osd|o other v' subject'|mission osd]; simpl in H.
      * by apply elem_of_nil in H.
      * destruct (_ && _); [|by apply elem_of_nil in H].
        apply list_elem_of_singleton in H. injection H as <- <- <-.
        eapply Hev; [left|reflexivity].
      * destruct (_ && _); [|by apply elem_of_nil in H].
        by apply list_elem_of_singleton in H.
  - rewrite process_factors_events. apply set_eq. intros osd_id.
    rewrite all_osd_ids_foldl, list_elem_of_fmap. split; [|by left].
    intros [H|(col & H & _)]; [done|]. discriminate H.
  - intros osd_id. by rewrite all_osd_ids_foldl, elem_of_events_note.
Qed.

Lemma factor_subject_is_schema_witness :
  ∃ st', process_api_data Scenario.st0 = Ok st' ∧
    (Orig Factor, "Spaceflight", "schema") ∈ unmapped st' ∧
    (∀ v subject, (Orig Factor, v, subject) ∈ unmapped st' → subject = "schema") ∧
    all_osd_ids (process_factors Scenario.st0) = ∅ ∧
    "OSD-100" ∈ all_osd_ids st' ∧ "schema" ∉ all_osd_ids st'.
Proof.
  assert (∃ st', process_api_data Scenario.st0 = Ok st') as [st' Hpass]
    by (vm_compute; eexists; reflexivity).
  exists st'. split; [exact Hpass|].
  destruct (factor_subject_is_schema Scenario.st0 st' Hpass)
    as ((new & Hnew & Hschema) & Hfactor & Hids).
  change (unmapped Scenario.st0) with (@nil record) in Hnew. simpl in Hnew. subst new.
  split_and!.
  - vm_compute in Hpass. injection Hpass as <-.
    decide_by_compute.
  - exact Hschema.
  - exact Hfactor.
  - apply Hids. right. exists "Quantum Flux Sequencing". left.
    decide_by_compute.
  - intros [H|(value & H)]%Hids.
    + vm_compute in H. discriminate H.
    + vm_compute in H.
      repeat match goal with
             | H : _ ∨ _ |- _ => destruct H as [H|H]
             | H : list_elem_of _ (_ :: _) |- _ =>
                 apply elem_of_cons in H as [H|H]; [discriminate H|]
             | H : _ ∈ _ :: _ |- _ =>
                 apply elem_of_cons in H as [H|H]; [discriminate H|]
             | H : list_elem_of _ [] |- _ => apply elem_of_nil in H; destruct H
             | H : _ ∈ [] |- _ => apply elem_of_nil in H; destruct H
             end.
Defined.

(** C3.  Mission classification.  A composite string is cut at its commas
    (joining the cuts with commas gives it back, and no cut holds a comma),
    every cut is trimmed and the empty ones are dropped.  Trimming a cut
    takes whitespace, and nothing else, off its two ends and leaves none at
    either end, so that no piece starts or ends with whitespace.  What one
    row does is to place the remaining pieces one after the other.  A piece is
    classified by the first rule of section 4.4 that matches, tried in its
    order, the tenth category being the default, so that it gets exactly
    one of the ten categories and is inserted nowhere else; apart from the
    case-sensitive "RR-" prefix test the class depends on the normalized
    piece only.  "RR-5, Expedition 45" gives the pieces "RR-5", a Rodent
    Research mission, and "Expedition 45", an ISS Expedition; blanks and
    tabs before and after a comma are not part of a piece. *)
Theorem mission_classification :
  (∀ s, PyStr.join "," (PyStr.split "," s) = s ∧
        Forall (λ raw, PyStr.contains "," raw = false) (PyStr.split "," s)) ∧
  (∀ s piece,
     piece ∈ mission_pieces s ↔
     piece ≠ "" ∧ ∃ raw, raw ∈ PyStr.split "," s ∧ piece = PyStr.strip raw) ∧
  (∀ raw,
     (∃ before after,
        raw = before +:+ PyStr.strip raw +:+ after ∧ blank before ∧ blank after) ∧
     (∀ c rest, PyStr.strip raw = String c rest → c ∉ whitespace) ∧
     (∀ front c, PyStr.strip raw = front +:+ String c "" → c ∉ whitespace)) ∧
  (∀ s piece,
     piece ∈ mission_pieces s →
     (∀ c rest, piece = String c rest → c ∉ whitespace) ∧
     (∀ front c, piece = front +:+ String c "" → c ∉ whitespace)) ∧
  (∀ s osd_id st,
     process_missions s osd_id st =
     foldl (λ st piece, place_mission piece osd_id st) st (mission_pieces s)) ∧
  (∀ piece,
     classify_mission piece =
     default "Other Missions" (first_match mission_rules piece (norm piece))) ∧
  (∀ piece, classify_mission piece ∈ mission_categories) ∧
  (NoDup mission_categories ∧ length mission_categories = 10) ∧
  (∀ piece piece',
     norm piece = norm piece' →
     PyStr.startswith piece "RR-" = PyStr.startswith piece' "RR-" →
     classify_mission piece = classify_mission piece') ∧
  (∀ piece osd_id st c,
     out_values Mission c (place_mission piece osd_id st) =
     if decide (c = classify_mission piece) then out_values Mission c st ∪ {[piece]}
     else out_values Mission c st) ∧
  mission_pieces "RR-5, Expedition 45" = ["RR-5"; "Expedition 45"] ∧
  mission_pieces ("RR-5 , Foton " +:+ tab) = ["RR-5"; "Foton"] ∧
  mission_pieces (tab +:+ " Bion-M1" +:+ tab +:+ ",  ," +:+ tab +:+ ", RR-5  ") =
    ["Bion-M1"; "RR-5"] ∧
  classify_mission "RR-5" = "Rodent Research" ∧
  classify_mission "Expedition 45" = "ISS Expeditions".
Proof.
  assert (∀ piece, classify_mission piece =
            default "Other Missions" (first_match mission_rules piece (norm piece)))
    as Hrules.
  { intros piece. unfold classify_mission, mission_rules, first_match.
    repeat match goal with |- context [if ?b then _ else _] => destruct b; try done end. }
  assert (mission_pieces ("RR-5 , Foton " +:+ tab) = ["RR-5"; "Foton"]) as Hex1
    by (vm_compute; reflexivity).
  assert (mission_pieces (tab +:+ " Bion-M1" +:+ tab +:+ ",  ," +:+ tab +:+ ", RR-5  ") =
            ["Bion-M1"; "RR-5"]) as Hex2
    by (vm_compute; reflexivity).
  split_and!; try done.
  - intros s. split; [apply join_split|apply split_no_sep].
  - intros s piece. unfold mission_pieces, split_missions.
    rewrite list_elem_of_filter, list_elem_of_fmap. naive_solver.
  - intros raw. apply strip_trims.
  - intros s piece. unfold mission_pieces, split_missions.
    rewrite list_elem_of_filter, list_elem_of_fmap.
    intros (_ & raw & -> & _). destruct (strip_trims raw) as (_ & Hhead & Hlast).
    split; [exact Hhead|exact Hlast].
  - intros s osd_id st. by rewrite process_missions_events, foldl_fmap.
  - intros piece. rewrite Hrules. unfold mission_rules, first_match.
    repeat match goal with
           | |- context [if ?b then _ else _] => destruct b; [decide_by_compute|]
           end.
    decide_by_compute.
  - decide_by_compute.
  - intros piece piece' Hn Hp. rewrite !Hrules, Hn.
    unfold mission_rules, first_match. by rewrite Hp.
  - intros piece osd_id st c.
    change (place_mission piece osd_id st) with (apply_event st (PlaceMission piece osd_id)).
    rewrite out_values_apply_event. unfold placement.
    repeat case_decide; naive_solver.
Qed.

(** C8.  Exit codes.  When the pass of [run] completes and the three files
    can be written, [run] writes the reconciled taxonomy, the additions
    report and the unmapped report and returns the verdict of the verifier,
    which [main] turns into exit code 0 for success and 1 for failure: the
    three files are written in both cases.  Every exception, raised in
    [__init__] or in [run], gives exit code 1; and [main] exits with 0 only
    after a verified run that wrote the three files. *)
Theorem exit_codes :
  (∀ (can_write : string → bool) st st1,
     process_api_data st = Ok st1 → (∀ name, can_write name = true) →
     run can_write st = (Ok (verify_completeness st1), artifacts_of st1) ∧
     exit_code (run can_write st).1 = (if verify_completeness st1 then 0 else 1)%Z ∧
     (artifacts_of st1).*1 = [output_name; additions_name; unmapped_name]) ∧
  (∀ w st st1,
     init w = Ok st → process_api_data st = Ok st1 → (∀ name, writable w name = true) →
     main w = ((if verify_completeness st1 then 0 else 1)%Z, artifacts_of st1)) ∧
  (∀ w e, init w = Raise e → main w = (1%Z, [])) ∧
  (∀ w st e, init w = Ok st → (run (writable w) st).1 = Raise e → (main w).1 = 1%Z) ∧
  (∀ w, (main w).1 = 0%Z ↔
        ∃ st st1, init w = Ok st ∧ process_api_data st = Ok st1 ∧
                  (main w).2 = artifacts_of st1 ∧ verify_completeness st1 = true).
Proof.
  assert (∀ can_write st st1,
            process_api_data st = Ok st1 → (∀ name, can_write name = true) →
            run can_write st = (Ok (verify_completeness st1), artifacts_of st1)) as Hrun.
  { intros can_write st st1 Hpass Hw. unfold run, save_outputs.
    by rewrite Hpass, !Hw. }
  split_and!.
  - intros can_write st st1 Hpass Hw. rewrite (Hrun _ _ _ Hpass Hw). done.
  - intros w st st1 Hinit Hpass Hw. unfold main.
    by rewrite Hinit, (Hrun _ _ _ Hpass Hw).
  - intros w e Hinit. unfold main. by rewrite Hinit.
  - intros w st e Hinit Hr. unfold main. rewrite Hinit.
    destruct (run (writable w) st) as [r fs]. simpl in *. by subst r.
  - intros w. unfold main. destruct (init w) as [st|e] eqn:Hi; simpl.
    2:{ split; [done|]. by intros (? & ? & ? & _). }
    unfold run. destruct (process_api_data st) as [st1|e] eqn:Hp; simpl.
    2:{ split; [done|]. intros (st0 & st2 & [= <-] & Hp' & _). congruence. }
    assert (∀ fs : files, length fs < 3 →
              ¬ ∃ st0 st2, Ok st = Ok st0 ∧ process_api_data st0 = Ok st2 ∧
                           fs = artifacts_of st2 ∧ verify_completeness st2 = true)
      as Hshort.
    { intros fs Hlen (st0 & st2 & _ & _ & -> & _). simpl in Hlen. lia. }
    unfold save_outputs.
    destruct (writable w output_name); simpl;
      [|split; [done|]; intros H; exfalso; by apply (Hshort []); [simpl; lia|]].
    destruct (writable w additions_name); simpl;
      [|split; [done|]; intros H; exfalso;
        by apply (Hshort (take 1 (artifacts_of st1))); [simpl; lia|]].
    destruct (writable w unmapped_name); simpl;
      [|split; [done|]; intros H; exfalso;
        by apply (Hshort (take 2 (artifacts_of st1))); [simpl; lia|]].
    destruct (verify_completeness st1) eqn:Hv; simpl.
    + split; [|done]. intros _. by exists st, st1.
    + split; [done|]. intros (st0 & st2 & [= <-] & Hp' & _ & Hv').
      rewrite Hp in Hp'. injection Hp' as <-. congruence.
Qed.

Lemma exit_codes_witness :
  (∃ st1, process_api_data Scenario.lossy = Ok st1 ∧
          verify_completeness st1 = false ∧
          run (λ _, true) Scenario.lossy = (Ok false, artifacts_of st1) ∧
          exit_code (run (λ _, true) Scenario.lossy).1 = 1%Z) ∧
  (∃ st1, process_api_data Scenario.st0 = Ok st1 ∧
          main Scenario.w = (0%Z, artifacts_of st1)) ∧
  main {| filter_options := Raise RequestException;
          assays := Ok Scenario.assay_feed; factors := Ok Scenario.factor_feed;
          organisms := Ok Scenario.organism_feed; materials := Ok Scenario.material_feed;
          missions := Ok Scenario.mission_feed; writable := λ _, true |} = (1%Z, []).
Proof.
  destruct exit_codes as (Hrun & Hmain & Hinit & _ & _).
  split_and!.
  - assert (∃ st1, process_api_data Scenario.lossy = Ok st1) as [st1 Hpass]
      by (vm_compute; eexists; reflexivity).
    exists st1.
    destruct (Hrun (λ _, true) Scenario.lossy st1 Hpass) as (Hr & He & _);
      [reflexivity|].
    assert (match process_api_data Scenario.lossy with
            | Ok s => verify_completeness s
            | Raise _ => true
            end = false) as Hv by (vm_compute; reflexivity).
    rewrite Hpass in Hv. rewrite Hv in Hr, He.
    split_and!; [exact Hpass|exact Hv|exact Hr|exact He].
  - assert (∃ st1, process_api_data Scenario.st0 = Ok st1) as [st1 Hpass]
      by (vm_compute; eexists; reflexivity).
    exists st1. split; [exact Hpass|].
    assert (match process_api_data Scenario.st0 with
            | Ok s => verify_completeness s
            | Raise _ => false
            end = true) as Hv by (vm_compute; reflexivity).
    rewrite Hpass in Hv.
    rewrite (Hmain Scenario.w Scenario.st0 st1); [|reflexivity|exact Hpass|reflexivity].
    rewrite Hv. reflexivity.
  - apply (Hinit _ RequestException). reflexivity.
Defined.
(** * Further properties of the code *)

(** ** [find_category_for_value] (lines 243-256) *)

(** The lookup returns the first category, in insertion order, that holds a
    value with the normalized form of the argument; it returns [None]
    exactly when no category of the grouping holds such a value; and for the
    Mission grouping, which the snapshot does not have, it returns [None]. *)
Theorem find_category_first_match value (o : original) existing :
  find_category_for_value value Mission existing = None ∧
  (find_category_for_value value o existing = None ↔
   ∀ c vs w, (c, vs) ∈ idx_get o existing → w ∈ vs → norm w ≠ norm value) ∧
  (∀ c, find_category_for_value value o existing = Some c ↔
        ∃ before vs after,
          idx_get o existing = before ++ (c, vs) :: after ∧
          (∃ w, w ∈ vs ∧ norm w = norm value) ∧
          ∀ c' vs' w, (c', vs') ∈ before → w ∈ vs' → norm w ≠ norm value).
Proof.
  split_and!; [reflexivity|apply scan_categories_None|].
  intros c. apply scan_categories_Some.
Qed.

(** ** The extracted index (lines 157-223) *)

Lemma add_no_empty c v (d : cats) :
  v ≠ "" → Forall (λ kv : string * gset string, "" ∉ kv.2) d →
  Forall (λ kv : string * gset string, "" ∉ kv.2) (Cats.add c v d).
Proof.
  intros Hv. induction 1 as [|[k vs] d Hk Hd IH]; simpl; [constructor|].
  case_bool_decide; constructor; simpl in *; [set_solver|done..].
Qed.

Lemma touch_no_empty c (d : cats) :
  Forall (λ kv : string * gset string, "" ∉ kv.2) d →
  Forall (λ kv : string * gset string, "" ∉ kv.2) (Cats.touch c d).
Proof.
  intros H. unfold Cats.touch. destruct (Cats.mem c d); [done|].
  apply Forall_app. split; [done|]. apply Forall_singleton. simpl. set_solver.
Qed.

Lemma add_values_no_empty c vals (d : cats) :
  Forall (λ kv : string * gset string, "" ∉ kv.2) d →
  Forall (λ kv : string * gset string, "" ∉ kv.2) (add_values c vals d).
Proof.
  unfold add_values. apply foldl_invariant. intros a x Ha.
  destruct (PyStr.truthy x) eqn:E; [|done].
  apply add_no_empty; [by apply truthy_spec|done].
Qed.

Lemma extract_child_no_empty (d : cats) child :
  Forall (λ kv : string * gset string, "" ∉ kv.2) d →
  Forall (λ kv : string * gset string, "" ∉ kv.2) (extract_child d child).
Proof.
  intros Hd. unfold extract_child. apply foldl_invariant.
  - intros a x Ha. unfold extract_subchild. by apply add_values_no_empty, touch_no_empty.
  - by apply add_values_no_empty, touch_no_empty.
Qed.

(** Whatever the document, the extractor builds an index whose category
    names are pairwise distinct and never empty, and whose value sets never
    hold the empty string: two children with the same label share one
    category, and empty raw values are dropped. *)
Theorem extracted_index_well_formed doc (o : original) :
  let d := idx_get o (extract_existing_structure doc) in
  NoDup (Cats.keys d) ∧
  Forall (λ category, category ≠ "") (Cats.keys d) ∧
  ∀ category vs, (category, vs) ∈ d → "" ∉ vs.
Proof.
  simpl. destruct (extract_existing_structure_wf doc o) as [Hnd Hne].
  split_and!; [done..|].
  assert (Forall (λ kv : string * gset string, "" ∉ kv.2)
            (idx_get o (extract_existing_structure doc))) as H.
  { unfold extract_existing_structure.
    apply (foldl_invariant
             (λ s, ∀ o, Forall (λ kv : string * gset string, "" ∉ kv.2) (idx_get o s))).
    - intros s item Hs o'. unfold extract_item.
      destruct (identify_grouping item) as [g|]; [|done].
      rewrite idx_get_set. case_decide; [|done]. subst.
      apply foldl_invariant; [|done]. intros. by apply extract_child_no_empty.
    - intros o'. destruct o'; constructor. }
  rewrite Forall_forall in H. intros category vs Hin. apply (H _ Hin).
Qed.

(** ** [initialize_from_existing] (lines 225-241) *)

(** The output index starts as the snapshot itself, category for category
    and in the same order, with an empty Mission grouping. *)
Theorem initial_output_is_snapshot doc :
  initialize_from_existing (extract_existing_structure doc) =
  {| kept := extract_existing_structure doc; mission := [] |}.
Proof.
  pose proof (initialize_from_existing_kept _ (extract_existing_structure_wf doc)) as H.
  destruct (initialize_from_existing (extract_existing_structure doc)) as [k m] eqn:E.
  simpl in H. subst k. f_equal.
  by apply (f_equal mission) in E.
Qed.

(** ** When a pass completes (lines 258-394) *)





(** ** What a pass changes (lines 258-394) *)

Lemma additions_foldl st evs :
  ∃ new, additions (foldl apply_event st evs) = additions st ++ new.
Proof.
  revert st. induction evs as [|e evs IH]; intros st; simpl.
  - exists []. by rewrite app_nil_r.
  - destruct (IH (apply_event st e)) as [new ->]. rewrite additions_apply_event.
    eexists. by rewrite <-app_assoc.
Qed.

Lemma unmapped_foldl st evs :
  ∃ new, unmapped (foldl apply_event st evs) = unmapped st ++ new.
Proof.
  revert st. induction evs as [|e evs IH]; intros st; simpl.
  - exists []. by rewrite app_nil_r.
  - destruct (IH (apply_event st e)) as [new ->]. rewrite unmapped_apply_event.
    eexists. by rewrite <-app_assoc.
Qed.

(** A pass that completes only adds: the feeds, the document and the
    snapshot are as before; every category of the output index is still
    there with at least the values it had; the Addition and Unmapped Records
    there were are still there, in order, followed by the new ones; no
    covered identifier is dropped. *)
Theorem pass_only_adds st st' :
  process_api_data st = Ok st' →
  same_inputs st st' ∧
  (∀ g c, (Cats.mem c (out_get g (new_json st)) = true →
           Cats.mem c (out_get g (new_json st')) = true) ∧
          out_values g c st ⊆ out_values g c st') ∧
  (∃ new, additions st' = additions st ++ new) ∧
  (∃ new, unmapped st' = unmapped st ++ new) ∧
  all_osd_ids st ⊆ all_osd_ids st'.
Proof.
  intros Hpass%process_api_data_events. subst st'. split_and!.
  - apply same_inputs_foldl.
  - intros g c. apply (output_le_foldl st (events st) g c).
  - apply additions_foldl.
  - apply unmapped_foldl.
  - intros osd H. apply all_osd_ids_foldl. by left.
Qed.

Lemma pass_only_adds_witness :
  ∃ st', process_api_data Scenario.st0 = Ok st' ∧
         existing_structure st' = existing_structure Scenario.st0 ∧
         out_values Organism "Rodents" Scenario.st0 ⊆ out_values Organism "Rodents" st'.
Proof.
  assert (∃ st', process_api_data Scenario.st0 = Ok st') as [st' Hpass]
    by (vm_compute; eexists; reflexivity).
  exists st'. split; [exact Hpass|].
  destruct (pass_only_adds Scenario.st0 st' Hpass) as (Hsame & Hout & _).
  split; [apply Hsame|apply (Hout Organism "Rodents")].
Defined.

(** ** The records of a pass *)

Lemma target_false o other v ex :
  snd (target o other v ex) = false → fst (target o other v ex) = other.
Proof.
  unfold target. destruct (find_category_for_value v o ex) as [c|]; [|done].
  by destruct (PyStr.truthy c).
Qed.

Lemma new_additions_spec st e r :
  r ∈ new_additions st e →
  ∃ o c v, r = (Orig o, c, v) ∧
           placement (existing_structure st) e = Some (Orig o, c, v) ∧
           (v ∉ out_values o c st) ∧
           find_category_for_value v o (existing_structure st) = Some c.
Proof.
  destruct e as [osd|o other v subject|mission osd]; simpl;
    [by intros ?%elem_of_nil| |by intros ?%elem_of_nil].
  destruct (target o other v (existing_structure st)) as [c t] eqn:Ht. simpl.
  case_bool_decide as Hv; simpl; [|by intros ?%elem_of_nil].
  destruct t; [|by intros ?%elem_of_nil].
  intros ->%list_elem_of_singleton. exists o, c, v. split_and!; [done..|].
  by eapply target_matched.
Qed.

Lemma new_unmapped_spec st e r :
  event_ok e → r ∈ new_unmapped st e →
  placement (existing_structure st) e = Some (r.1.1, unmapped_slot r.1.1, r.1.2) ∧
  r.1.2 ∉ out_values r.1.1 (unmapped_slot r.1.1) st.
Proof.
  destruct e as [osd|o other v subject|mission osd]; simpl;
    [by intros _ ?%elem_of_nil|..].
  - intros Hok. pose proof (target_false o other v (existing_structure st)) as Hf.
    destruct (target o other v (existing_structure st)) as [c t]. simpl in *.
    case_bool_decide as Hv; simpl; [|by intros ?%elem_of_nil].
    destruct t; simpl; [by intros ?%elem_of_nil|].
    intros ->%list_elem_of_singleton. simpl. rewrite Hok. simpl.
    rewrite Hf in * by done. done.
  - intros _. case_bool_decide as Hv; simpl; [|by intros ?%elem_of_nil].
    case_bool_decide as Hc; simpl; [|by intros ?%elem_of_nil].
    intros ->%list_elem_of_singleton. simpl. by rewrite Hc in *.
Qed.

Lemma new_additions_length st e : (length (new_additions st e) ≤ 1)%nat.
Proof. destruct e; simpl; try lia. destruct (_ && _); simpl; lia. Qed.

Lemma new_unmapped_length st e : (length (new_unmapped st e) ≤ 1)%nat.
Proof. destruct e; simpl; try lia; destruct (_ && _); simpl; lia. Qed.

Lemma NoDup_short {A} (l : list A) : (length l ≤ 1)%nat → NoDup l.
Proof.
  destruct l as [|x [|y l]]; simpl; intros H; [constructor|apply NoDup_singleton|lia].
Qed.

Lemma out_values_placed st e g c v :
  placement (existing_structure st) e = Some (g, c, v) →
  v ∈ out_values g c (apply_event st e).
Proof.
  intros H. rewrite out_values_apply_event, H. rewrite decide_True by done. set_solver.
Qed.

Lemma records_ok_apply_event ex st e :
  event_ok e → records_ok ex st → records_ok ex (apply_event st e).
Proof.
  intros Hok (Hex & Hcov & Hnd & Hadd & Hndu & Hun).
  assert (∀ g c v, v ∈ out_values g c st → v ∈ out_values g c (apply_event st e))
    as Hgrow by (intros g c v; apply (apply_event_le st e g c)).
  split_and!.
  - by rewrite existing_structure_apply_event.
  - intros o. rewrite existing_structure_apply_event.
    etrans; [apply Hcov|apply apply_event_le].
  - rewrite additions_apply_event. apply NoDup_app. split_and!; [done| |].
    + intros [[g c] v] Hold Hnew.
      apply new_additions_spec in Hnew as (o & c' & v' & [= -> -> ->] & _ & Hv & _).
      by destruct (Hadd _ _ _ Hold).
    + apply NoDup_short, new_additions_length.
  - intros g c v. rewrite additions_apply_event. intros [Hold|Hnew]%elem_of_app.
    + destruct (Hadd _ _ _ Hold). split; [auto|done].
    + apply new_additions_spec in Hnew as (o & c' & v' & [= -> -> ->] & Hp & Hv & Hf).
      split; [by apply out_values_placed|].
      exists o. rewrite <-Hex. split_and!; [done..|].
      intros Hin. apply Hv. by apply (Hcov o c').
  - rewrite unmapped_apply_event, fmap_app. apply NoDup_app. split_and!; [done| |].
    + intros [g v] (r & Hr & Hold)%list_elem_of_fmap (r' & Hr' & Hnew)%list_elem_of_fmap.
      destruct r as [[g1 v1] s1], r' as [[g2 v2] s2].
      unfold record_key in Hr, Hr'. simpl in Hr, Hr'. simplify_eq.
      destruct (new_unmapped_spec st e _ Hok Hnew) as [_ Hv]. simpl in Hv.
      apply Hv. by eapply Hun.
    + apply NoDup_short. rewrite length_fmap. apply new_unmapped_length.
  - intros g v s. rewrite unmapped_apply_event. intros [Hold|Hnew]%elem_of_app.
    + eauto.
    + destruct (new_unmapped_spec st e _ Hok Hnew) as [Hp _]. simpl in Hp.
      by apply out_values_placed.
Qed.

Lemma records_ok_foldl ex evs :
  Forall event_ok evs → ∀ st, records_ok ex st → records_ok ex (foldl apply_event st evs).
Proof.
  induction 1 as [|e evs He _ IH]; intros st Hst; simpl; [done|].
  by apply IH, records_ok_apply_event.
Qed.

Lemma records_ok_initial st : initial st → records_ok (existing_structure st) st.
Proof.
  intros Hi. pose proof (initial_covers st Hi) as Hc.
  destruct Hi as (_ & _ & Ha & Hu & _).
  split_and!; [done|done|..]; rewrite ?Ha, ?Hu; simpl;
    try constructor; intros; by apply elem_of_nil in H.
Qed.

(** In a run from [__init__] through the pass, no Addition Record occurs
    twice, and no two Unmapped Records have the same grouping and value. *)
Theorem records_have_no_duplicates w st st' :
  init w = Ok st → process_api_data st = Ok st' →
  NoDup (additions st') ∧ NoDup (record_key <$> unmapped st').
Proof.
  intros Hinit%init_initial Hpass%process_api_data_events. subst st'.
  destruct (records_ok_foldl (existing_structure st) (events st) (events_ok st) st)
    as (_ & _ & Hnd & _ & Hndu & _); [by apply records_ok_initial|].
  done.
Qed.

(** In a run from [__init__] through the pass, every Addition Record
    (grouping, category, value) is for an original grouping; its category is
    the one the lookup finds for the value; the value is in that category
    of the output and was not in it in the snapshot; and the snapshot holds,
    in that category, another spelling of it: a different raw string with
    the same normalized form.  An Addition is always a respelling of a
    known value. *)
Theorem additions_are_respellings w st st' g c v :
  init w = Ok st → process_api_data st = Ok st' →
  (g, c, v) ∈ additions st' →
  ∃ o, g = Orig o ∧
       find_category_for_value v o (existing_structure st) = Some c ∧
       v ∈ out_values o c st' ∧
       (v ∉ Cats.values_of c (idx_get o (existing_structure st))) ∧
       ∃ known, known ∈ Cats.values_of c (idx_get o (existing_structure st)) ∧
                norm known = norm v ∧ known ≠ v.
Proof.
  intros Hinit%init_initial Hpass%process_api_data_events Hin. subst st'.
  pose proof (initial_wf st Hinit) as Hwf.
  destruct (records_ok_foldl (existing_structure st) (events st) (events_ok st) st)
    as (_ & _ & _ & Hadd & _); [by apply records_ok_initial|].
  destruct (Hadd _ _ _ Hin) as (Hout & o & -> & Hfind & Hnew).
  exists o. split_and!; [done..|].
  destruct (scan_categories_get (norm v) (idx_get o (existing_structure st)) c)
    as (known & Hk & Hn); [apply (Hwf o)|done|].
  exists known. split_and!; [done..|]. by intros ->.
Qed.

Lemma records_have_no_duplicates_witness :
  ∃ st', process_api_data Scenario.st0 = Ok st' ∧
         NoDup (additions st') ∧ NoDup (record_key <$> unmapped st') ∧
         length (unmapped st') = 4.
Proof.
  assert (∃ st', process_api_data Scenario.st0 = Ok st') as [st' Hpass]
    by (vm_compute; eexists; reflexivity).
  exists st'. split; [exact Hpass|].
  destruct (records_have_no_duplicates Scenario.w Scenario.st0 st') as [Ha Hu];
    [reflexivity|exact Hpass|].
  split_and!; [exact Ha|exact Hu|].
  assert (match process_api_data Scenario.st0 with
          | Ok s => length (unmapped s)
          | Raise _ => 0
          end = 4) as Hl by (vm_compute; reflexivity).
  rewrite Hpass in Hl. exact Hl.
Defined.

Lemma additions_are_respellings_witness :
  ∃ st', process_api_data Scenario.st0 = Ok st' ∧
         (Orig Organism, "Rodents", "mus musculus") ∈ additions st' ∧
         ∃ known, known ∈ Cats.values_of "Rodents"
                            (idx_get Organism (existing_structure Scenario.st0)) ∧
                  norm known = norm "mus musculus" ∧ known ≠ "mus musculus".
Proof.
  assert (∃ st', process_api_data Scenario.st0 = Ok st') as [st' Hpass]
    by (vm_compute; eexists; reflexivity).
  exists st'. split; [exact Hpass|].
  assert (match process_api_data Scenario.st0 with
          | Ok s => additions s
          | Raise _ => []
          end = [(Orig Organism, "Rodents", "mus musculus")]) as Ha
    by (vm_compute; reflexivity).
  rewrite Hpass in Ha.
  assert ((Orig Organism, "Rodents", "mus musculus") ∈ additions st') as Hin
    by (rewrite Ha; apply list_elem_of_here).
  split; [exact Hin|].
  destruct (additions_are_respellings Scenario.w Scenario.st0 st'
              Organism "Rodents" "mus musculus") as (o & Ho & _ & _ & _ & Hk);
    [reflexivity|exact Hpass|exact Hin|].
  injection Ho as <-. exact Hk.
Defined.

(** ** What the output index holds after a run *)

Lemma placement_orig ex e o c v :
  event_ok e → index_wf ex →
  placement ex e = Some (Orig o, c, v) ↔
  ∃ other subject,
    e = Reconcile o other v subject ∧ fallback_category o = Some other ∧
    c = match find_category_for_value v o ex with
        | Some found => found
        | None => other
        end.
Proof.
  intros Hok Hwf. destruct e as [osd|o' other v' subject|m osd]; simpl.
  - split; [done|]. by intros (? & ? & ? & _).
  - rewrite (target_wf o' other v' ex Hwf). simpl in Hok. split.
    + intros [= -> <- ->]. exists other, subject. split_and!; [done..|].
      by destruct (scan_categories _ _).
    + intros (other' & subject' & [= -> -> -> ->] & _ & ->).
      unfold find_category_for_value. by destruct (scan_categories _ _).
  - split; [done|]. by intros (? & ? & ? & _).
Qed.

Lemma placement_mission ex e c v :
  placement ex e = Some (Mission, c, v) ↔
  ∃ osd_id, e = PlaceMission v osd_id ∧ c = classify_mission v.
Proof.
  destruct e as [osd|o' other v' subject|m osd]; simpl.
  - split; [done|]. by intros (? & ? & _).
  - split; [done|]. by intros (? & ? & _).
  - split.
    + intros [= <- ->]. by exists osd.
    + by intros (osd' & [= -> ->] & ->).
Qed.

(** In a run from [__init__] through the pass, a category of an original
    grouping holds exactly the values the snapshot has in it and the
    observed values of the grouping that are routed to it, that is, whose
    matched category, or else the fallback category, it is; and a category
    of the Mission grouping holds exactly the observed pieces that classify
    to it.  Nothing else gets into the output index. *)
Theorem output_is_snapshot_plus_observations w st st' :
  init w = Ok st → process_api_data st = Ok st' →
  (∀ (o : original) c v,
     v ∈ out_values o c st' ↔
     v ∈ Cats.values_of c (idx_get o (existing_structure st)) ∨
     ∃ other subject,
       fallback_category o = Some other ∧ (subject, v) ∈ observed_values o st ∧
       c = match find_category_for_value v o (existing_structure st) with
           | Some found => found
           | None => other
           end) ∧
  (∀ c v,
     v ∈ out_values Mission c st' ↔
     ∃ osd_id, (osd_id, v) ∈ observed_missions st ∧ c = classify_mission v).
Proof.
  intros Hinit%init_initial Hpass%process_api_data_events. subst st'.
  pose proof (initial_wf st Hinit) as Hwf.
  pose proof (events_ok st) as Hok. rewrite Forall_forall in Hok.
  split.
  - intros o c v. rewrite out_values_foldl.
    unfold out_values at 1. rewrite initial_out_get by done.
    apply or_iff_compat_l. split.
    + intros (e & He & Hp).
      apply (placement_orig _ _ _ _ _ (Hok e He) Hwf) in Hp
        as (other & subject & -> & Hf & ->).
      exists other, subject. split_and!; [done| |done].
      by apply elem_of_events_reconcile in He as [_ ?].
    + intros (other & subject & Hf & Hobs & ->).
      exists (Reconcile o other v subject).
      assert (Reconcile o other v subject ∈ events st) as He
        by (by apply elem_of_events_reconcile).
      split; [done|].
      apply (placement_orig _ _ _ _ _ (Hok _ He) Hwf). by exists other, subject.
  - intros c v. rewrite out_values_foldl.
    unfold out_values at 1. rewrite initial_mission by done.
    split.
    + intros [H|(e & He & Hp)]; [set_solver|].
      apply placement_mission in Hp as (osd_id & -> & ->).
      exists osd_id. split; [|done]. by apply elem_of_events_mission.
    + intros (osd_id & Hobs & ->). right. exists (PlaceMission v osd_id).
      split; [by apply elem_of_events_mission|]. apply placement_mission. by exists osd_id.
Qed.

Lemma output_is_snapshot_plus_observations_witness :
  ∃ st', process_api_data Scenario.st0 = Ok st' ∧
         "Rattus norvegicus" ∈ out_values Organism "Other Organisms" st' ∧
         "Mus musculus" ∈ out_values Organism "Rodents" st' ∧
         "Expedition 45" ∈ out_values Mission "ISS Expeditions" st' ∧
         "Expedition 45" ∉ out_values Mission "Other Missions" st'.
Proof.
  assert (∃ st', process_api_data Scenario.st0 = Ok st') as [st' Hpass]
    by (vm_compute; eexists; reflexivity).
  exists st'. split; [exact Hpass|].
  destruct (output_is_snapshot_plus_observations Scenario.w Scenario.st0 st')
    as [Horig Hmission]; [reflexivity|exact Hpass|].
  split_and!.
  - apply Horig. right. exists "Other Organisms", "OSD-101".
    split_and!; [reflexivity|decide_by_compute|reflexivity].
  - apply Horig. left. decide_by_compute.
  - apply Hmission. exists "OSD-100". split; [decide_by_compute|reflexivity].
  - intros (osd_id & _ & Hc)%Hmission. discriminate Hc.
Defined.

(** *** No category is created empty *)

Lemma mem_insert_then g' c' g c v log st :
  logs log →
  Cats.mem c' (out_get g' (new_json (insert_then g c v log st))) =
  Cats.mem c' (out_get g' (new_json st)) || bool_decide (g' = g ∧ c' = c).
Proof.
  intros Hlog. unfold insert_then. case_bool_decide as Hv.
  - rewrite (proj1 (Hlog _)), out_get_add_value.
    destruct (decide (g' = g)) as [->|Hg].
    + rewrite mem_add, out_get_touch_category, decide_True, mem_touch by done.
      destruct (decide (c' = c)) as [->|Hc].
      * rewrite !bool_decide_eq_true_2 by done. by rewrite orb_true_r.
      * rewrite !bool_decide_eq_false_2 by naive_solver. by rewrite orb_false_r.
    + rewrite out_get_touch_category, decide_False by done.
      rewrite bool_decide_eq_false_2 by naive_solver. by rewrite orb_false_r.
  - rewrite out_get_touch_category.
    destruct (decide (g' = g)) as [->|Hg].
    + rewrite mem_touch. destruct (decide (c' = c)) as [->|Hc].
      * rewrite !bool_decide_eq_true_2 by done. by rewrite orb_true_r.
      * rewrite !bool_decide_eq_false_2 by naive_solver. by rewrite orb_false_r.
    + rewrite bool_decide_eq_false_2 by naive_solver. by rewrite orb_false_r.
Qed.

Lemma mem_apply_event g c st e :
  Cats.mem c (out_get g (new_json (apply_event st e))) = true →
  Cats.mem c (out_get g (new_json st)) = true ∨
  ∃ v, placement (existing_structure st) e = Some (g, c, v).
Proof.
  destruct e as [osd|o other v subject|m osd]; simpl.
  - by left.
  - rewrite reconcile_target, mem_insert_then by apply log_of_logs.
    intros [?|[-> ->]%bool_decide_eq_true]%orb_true_iff; [by left|right; by exists v].
  - rewrite place_mission_insert, mem_insert_then by apply mission_log_logs.
    intros [?|[-> ->]%bool_decide_eq_true]%orb_true_iff; [by left|right; by exists m].
Qed.

Lemma no_empty_new_category_apply_event st e :
  no_empty_new_category st → no_empty_new_category (apply_event st e).
Proof.
  intros H g c [Hm|(v & Hp)]%mem_apply_event.
  - rewrite existing_structure_apply_event.
    destruct (H g c Hm) as [?|(v & Hv)]; [by left|].
    right. exists v. by apply (apply_event_le st e g c).
  - right. exists v. by apply out_values_placed.
Qed.

(** In a run from [__init__] through the pass, every category of the
    output index is a category of the snapshot or holds at least one value:
    reading a missing category of a [defaultdict] creates it, but the pass
    reads one only to insert into it. *)
Theorem no_category_is_created_empty w st st' g c :
  init w = Ok st → process_api_data st = Ok st' →
  Cats.mem c (out_get g (new_json st')) = true →
  (∃ o, g = Orig o ∧ Cats.mem c (idx_get o (existing_structure st)) = true) ∨
  ∃ v, v ∈ out_values g c st'.
Proof.
  intros Hinit%init_initial Hpass%process_api_data_events Hm. subst st'.
  assert (no_empty_new_category (foldl apply_event st (events st))) as H.
  { apply foldl_invariant; [intros; by apply no_empty_new_category_apply_event|].
    intros g' c' Hm'. left. destruct g' as [o|].
    - exists o. split; [done|]. by rewrite initial_out_get in Hm'.
    - by rewrite initial_mission in Hm'. }
  destruct (H g c Hm) as [(o & -> & Ho)|?]; [left|by right].
  exists o. split; [done|]. by rewrite existing_structure_foldl in Ho.
Qed.

Lemma no_category_is_created_empty_witness :
  ∃ st', process_api_data Scenario.st0 = Ok st' ∧
         Cats.mem "Other Organisms" (out_get Organism (new_json st')) = true ∧
         ∃ v, v ∈ out_values Organism "Other Organisms" st'.
Proof.
  assert (∃ st', process_api_data Scenario.st0 = Ok st') as [st' Hpass]
    by (vm_compute; eexists; reflexivity).
  exists st'. split; [exact Hpass|].
  assert (match process_api_data Scenario.st0 with
          | Ok s => Cats.mem "Other Organisms" (out_get Organism (new_json s))
          | Raise _ => false
          end = true) as Hm by (vm_compute; reflexivity).
  rewrite Hpass in Hm. split; [exact Hm|].
  destruct (no_category_is_created_empty Scenario.w Scenario.st0 st'
              Organism "Other Organisms") as [(o & Ho & Hmem)|Hv];
    [reflexivity|exact Hpass|exact Hm| |exact Hv].
  injection Ho as <-. vm_compute in Hmem. discriminate Hmem.
Defined.

(** ** The normalizer (lines 151-155) *)

(** Comparison under [norm] ignores case and leading and trailing
    whitespace, and nothing else at the ends: lowering or trimming the
    argument does not change the key; a key is itself lowered and trimmed;
    and the key is empty exactly for strings made of whitespace only. *)
Theorem norm_ignores_case_and_margins s :
  norm (PyStr.lower s) = norm s ∧
  norm (PyStr.strip s) = norm s ∧
  PyStr.lower (norm s) = norm s ∧
  PyStr.strip (norm s) = norm s ∧
  (norm s = "" ↔ PyStr.lstrip s = "").
Proof.
  rewrite !norm_unfold. split_and!.
  - by rewrite strip_lower, lower_idemp.
  - by rewrite strip_idemp.
  - apply lower_idemp.
  - by rewrite strip_lower, strip_idemp.
  - by rewrite lower_empty, strip_empty.
Qed.

(** ** Mission values (lines 349-394) *)

Lemma mission_pieces_trimmed s piece :
  piece ∈ mission_pieces s →
  piece ≠ "" ∧ PyStr.strip piece = piece ∧ PyStr.contains "," piece = false.
Proof.
  unfold mission_pieces, split_missions.
  rewrite list_elem_of_filter, list_elem_of_fmap.
  intros (Hne & raw & -> & Hraw). split_and!; [done|apply strip_idemp|].
  pose proof (split_no_sep "," s) as Hsep. rewrite Forall_forall in Hsep.
  specialize (Hsep raw Hraw).
  destruct (PyStr.contains "," (PyStr.strip raw)) eqn:E; [|done].
  apply contains_strip in E. congruence.
Qed.

Lemma classify_mission_in_categories piece : classify_mission piece ∈ mission_categories.
Proof.
  unfold classify_mission.
  repeat match goal with
         | |- context [if ?b then _ else _] => destruct b; [decide_by_compute|]
         end.
  decide_by_compute.
Qed.

(** In a run from [__init__] through the pass, every value of the Mission
    grouping is a non-empty string without leading or trailing whitespace
    and without a comma, and it sits in the category it classifies to, one
    of the ten. *)
Theorem mission_values_are_trimmed w st st' c v :
  init w = Ok st → process_api_data st = Ok st' →
  v ∈ out_values Mission c st' →
  v ≠ "" ∧ PyStr.strip v = v ∧ PyStr.contains "," v = false ∧
  c = classify_mission v ∧ c ∈ mission_categories.
Proof.
  intros Hinit%init_initial Hpass%process_api_data_events. subst st'.
  rewrite out_values_foldl. unfold out_values at 1. rewrite initial_mission by done.
  intros [H|(e & He & Hp)]; [set_solver|].
  apply placement_mission in Hp as (osd_id & -> & ->).
  apply elem_of_events_mission in He. unfold observed_missions in He.
  apply list_elem_of_bind in He as ([osd s] & Hin & _).
  apply list_elem_of_fmap in Hin as (m & [= -> ->] & Hm).
  destruct (mission_pieces_trimmed s m Hm) as (? & ? & ?).
  split_and!; [done..|apply classify_mission_in_categories].
Qed.

Lemma mission_values_are_trimmed_witness :
  ∃ st', process_api_data Scenario.st0 = Ok st' ∧
         "Foton" ∈ out_values Mission "Other Missions" st' ∧
         PyStr.strip "Foton" = "Foton".
Proof.
  assert (∃ st', process_api_data Scenario.st0 = Ok st') as [st' Hpass]
    by (vm_compute; eexists; reflexivity).
  exists st'. split; [exact Hpass|].
  assert (match process_api_data Scenario.st0 with
          | Ok s => bool_decide ("Foton" ∈ out_values Mission "Other Missions" s)
          | Raise _ => false
          end = true) as Hm by (vm_compute; reflexivity).
  rewrite Hpass in Hm. apply bool_decide_eq_true in Hm. split; [exact Hm|].
  destruct (mission_values_are_trimmed Scenario.w Scenario.st0 st'
              "Other Missions" "Foton") as (_ & Hs & _);
    [reflexivity|exact Hpass|exact Hm|exact Hs].
Defined.

(** ** The verifier (lines 396-442) *)

(** The verifier succeeds exactly when every value of the snapshot has a
    value with the same normalized form somewhere in the five original
    groupings of the output index: the grouping it is found in need not be
    the one it came from, and the Mission grouping does not count. *)
Theorem verification_ignores_groupings st :
  verify_completeness st = true ↔
  ∀ (o : original) c vs v,
    (c, vs) ∈ idx_get o (existing_structure st) → v ∈ vs →
    ∃ (o' : original) c' vs' v',
      (c', vs') ∈ out_get o' (new_json st) ∧ v' ∈ vs' ∧ norm v' = norm v.
Proof.
  rewrite verify_completeness_true. split.
  - intros H o c vs v Hin Hv.
    assert (norm v ∈ new_values st) as Hn.
    { apply H, elem_of_original_values. by exists o, c, vs, v. }
    apply elem_of_new_values in Hn as (o' & c' & vs' & v' & ? & ? & ?).
    by exists o', c', vs', v'.
  - intros H x (o & c & vs & v & Hin & Hv & ->)%elem_of_original_values.
    destruct (H o c vs v Hin Hv) as (o' & c' & vs' & v' & ? & ? & ?).
    apply elem_of_new_values. by exists o', c', vs', v'.
Qed.

(** The same verdict on an object that has lost the value from its own
    grouping: the snapshot's organism is found, respelt, under Factor. *)
Example verification_accepts_misplaced_value :
  verify_completeness misplaced = true ∧
  out_get Organism (new_json misplaced) = [] ∧
  Cats.keys (idx_get Organism (existing_structure misplaced)) = ["Rodents"].
Proof. split_and!; [by vm_compute|done..]. Qed.

(** ** Factor names (lines 288-290) *)

Section factor_names.
Import PyStr.

Lemma split_single sep s :
  contains (String sep "") s = false → split sep s = [s].
Proof.
  induction s as [|c s IH]; [done|].
  change (contains (String sep "") (String c s))
    with (bool_decide (sep = c) && startswith s "" || contains (String sep "") s).
  intros [H1 H2]%orb_false_iff. simpl.
  assert (startswith s "" = true) as Hs by (by destruct s).
  rewrite Hs, andb_true_r in H1. apply bool_decide_eq_false in H1.
  rewrite bool_decide_eq_false_2 by congruence. by rewrite IH.
Qed.

Lemma last_elem_of {A} (l : list A) d : l ≠ [] → List.last l d ∈ l.
Proof.
  induction l as [|x [|y l] IH]; intros H; [done|left|].
  right. by apply IH.
Qed.

Lemma last_split sep s :
  ∃ before, s = before +:+ List.last (split sep s) "" ∧
            (before = "" ∨ ∃ b, before = b +:+ String sep "").
Proof.
  induction s as [|c s (before & IH & Hb)]; [exists ""; by split; [|left]|].
  simpl split. case_bool_decide as Hc.
  - subst c. pose proof (split_nonempty sep s) as Hne.
    destruct (split sep s) as [|h t] eqn:E; [done|].
    change (List.last ("" :: h :: t) "") with (List.last (h :: t) "").
    exists (String sep before). split; [by rewrite append_cons, <-IH|].
    right. destruct Hb as [->|(b & ->)]; [by exists ""|by exists (String sep b)].
  - pose proof (split_no_sep sep s) as Hno.
    destruct (split sep s) as [|h [|h' t]] eqn:E; [by apply split_nonempty in E| |].
    + exists "". split; [|by left]. simpl in *.
      pose proof (join_split sep s) as Hj. rewrite E in Hj. simpl in Hj.
      rewrite Hj. reflexivity.
    + change (List.last (String c h :: h' :: t) "") with (List.last (h :: h' :: t) "").
      exists (String c before). split; [by rewrite append_cons, <-IH|].
      right. destruct Hb as [->|(b & ->)]; [|by exists (String c b)].
      exfalso.
      assert (List.last (h :: h' :: t) "" ∈ h :: h' :: t) as Hl
        by (by apply last_elem_of).
      rewrite Forall_forall in Hno. specialize (Hno _ Hl).
      rewrite append_nil_l in IH. rewrite <-IH in Hno.
      apply split_single in Hno. congruence.
Qed.

End factor_names.

(** The factor name of a column is what follows its last dot: it holds no
    dot, the column name ends with it, and what precedes it is empty or ends
    with a dot; a column name without a dot is its own factor name. *)
Theorem factor_name_follows_last_dot col :
  PyStr.contains "." (factor_name_of col) = false ∧
  (∃ before, col = before +:+ factor_name_of col ∧
             (before = "" ∨ ∃ b, before = b +:+ ".")) ∧
  (PyStr.contains "." col = false → factor_name_of col = col).
Proof.
  unfold factor_name_of. split_and!.
  - pose proof (split_no_sep "." col) as H. rewrite Forall_forall in H.
    apply H, last_elem_of, split_nonempty.
  - apply last_split.
  - intros H. by rewrite split_single.
Qed.

Lemma factor_name_follows_last_dot_witness :
  factor_name_of "study.factor value.Spaceflight" = "Spaceflight" ∧
  factor_name_of "Spaceflight" = "Spaceflight".
Proof.
  split; [reflexivity|].
  apply (proj2 (proj2 (factor_name_follows_last_dot "Spaceflight"))). reflexivity.
Defined.

(** ** The Radiation Studies rule (lines 380-382) *)

(** Four of the seven keywords of the Radiation Studies rule are
    redundant: each of them contains "radiation", so the rule fires exactly
    when the normalized piece contains "heavy_ion", "hze" or "radiation";
    and a piece classified as Radiation Studies contains one of the three. *)
Theorem radiation_keywords_are_redundant :
  (∀ n, PyStr.any_in ["gamma_irradiation"; "heavy_ion"; "hze"; "proton_irradiation";
                      "x-ray_irradiation"; "irradiation"; "radiation"] n =
        PyStr.any_in ["heavy_ion"; "hze"; "radiation"] n) ∧
  (∀ piece, classify_mission piece = "Radiation Studies" →
            PyStr.any_in ["heavy_ion"; "hze"; "radiation"] (norm piece) = true).
Proof.
  assert (∀ n, PyStr.any_in ["gamma_irradiation"; "heavy_ion"; "hze"; "proton_irradiation";
                      "x-ray_irradiation"; "irradiation"; "radiation"] n =
        PyStr.any_in ["heavy_ion"; "hze"; "radiation"] n) as Hsame.
  { intros n. unfold PyStr.any_in. simpl.
    pose proof (contains_trans "radiation" "gamma_irradiation" n eq_refl) as H1.
    pose proof (contains_trans "radiation" "proton_irradiation" n eq_refl) as H2.
    pose proof (contains_trans "radiation" "x-ray_irradiation" n eq_refl) as H3.
    pose proof (contains_trans "radiation" "irradiation" n eq_refl) as H4.
    destruct (PyStr.contains "radiation" n);
      [by rewrite !orb_true_r|].
    destruct (PyStr.contains "gamma_irradiation" n); [by specialize (H1 eq_refl)|].
    destruct (PyStr.contains "proton_irradiation" n); [by specialize (H2 eq_refl)|].
    destruct (PyStr.contains "x-ray_irradiation" n); [by specialize (H3 eq_refl)|].
    destruct (PyStr.contains "irradiation" n); [by specialize (H4 eq_refl)|].
    done. }
  split; [exact Hsame|].
  intros piece. unfold classify_mission. rewrite Hsame.
  repeat match goal with
         | |- context [if ?b then _ else _] => destruct b eqn:?; try done
         end.
Qed.

Lemma radiation_keywords_are_redundant_witness :
  classify_mission "Gamma_Irradiation 2Gy" = "Radiation Studies" ∧
  PyStr.any_in ["heavy_ion"; "hze"; "radiation"] (norm "Gamma_Irradiation 2Gy") = true.
Proof.
  split; [reflexivity|].
  apply (proj2 radiation_keywords_are_redundant). reflexivity.
Defined.

(** ** The emitted taxonomy (lines 444-458) *)

Lemma StronglySorted_fst (l : list (string * gset string)) :
  StronglySorted by_name l → StronglySorted String.le l.*1.
Proof.
  induction 1 as [|x l Hl IH Hx]; simpl; constructor; [done|].
  rewrite Forall_fmap. done.
Qed.

(** The emitted taxonomy lists the six groupings in the fixed order; in
    each, the categories are exactly those of the output index, sorted by
    name; under each category the values are exactly those of its set,
    sorted and without repetition.  Sorting loses and invents nothing. *)
Theorem output_json_is_sorted_and_complete st :
  (generate_output_json st).*1 =
    ["Project Type"; "Assay technology type"; "Factor"; "Organism"; "Material type";
     "Mission"] ∧
  ∀ g, ∃ categories,
    (grouping_name g, categories) ∈ generate_output_json st ∧
    StronglySorted String.le categories.*1 ∧
    categories.*1 ≡ₚ Cats.keys (out_get g (new_json st)) ∧
    (∀ c vals, (c, vals) ∈ categories →
       StronglySorted String.le vals ∧ NoDup vals ∧
       ∃ vs, (c, vs) ∈ out_get g (new_json st) ∧ ∀ v, v ∈ vals ↔ v ∈ vs) ∧
    (∀ c vs, (c, vs) ∈ out_get g (new_json st) →
       ∃ vals, (c, vals) ∈ categories ∧ ∀ v, v ∈ vals ↔ v ∈ vs).
Proof.
  split; [done|]. intros g.
  set (d := out_get g (new_json st)).
  set (render := λ kv : string * gset string,
                   (kv.1, merge_sort String.le (elements kv.2))).
  exists (render <$> merge_sort by_name d).
  assert (merge_sort by_name d ≡ₚ d) as Hperm by apply merge_sort_Permutation.
  assert (∀ vs : gset string, ∀ v, v ∈ merge_sort String.le (elements vs) ↔ v ∈ vs)
    as Hvals.
  { intros vs v. rewrite merge_sort_Permutation. apply elem_of_elements. }
  split_and!.
  - unfold generate_output_json. apply list_elem_of_fmap. exists g.
    split; [done|]. destruct g as [[]|]; decide_by_compute.
  - rewrite <-list_fmap_compose.
    change (fst ∘ render) with (@fst string (gset string)).
    apply StronglySorted_fst, (StronglySorted_merge_sort by_name).
  - rewrite <-list_fmap_compose.
    change (fst ∘ render) with (@fst string (gset string)).
    unfold Cats.keys. by rewrite Hperm.
  - intros c vals (kv & [= -> ->] & Hin)%list_elem_of_fmap. split_and!.
    + apply (StronglySorted_merge_sort String.le).
    + rewrite merge_sort_Permutation. apply NoDup_elements.
    + exists kv.2. split; [|apply Hvals]. rewrite <-Hperm. by destruct kv.
  - intros c vs Hin. exists (merge_sort String.le (elements vs)).
    split; [|apply Hvals].
    apply list_elem_of_fmap. exists (c, vs). split; [done|]. by rewrite Hperm.
Qed.

(** ** The extractor builds the index from the children only *)

Lemma foldl_origin {A B} (P : A → Prop) (Q : B → Prop) (f : A → B → A) :
  (∀ a x, P (f a x) → P a ∨ Q x) →
  ∀ l a, P (foldl f a l) → P a ∨ ∃ x, x ∈ l ∧ Q x.
Proof.
  intros Hf l. induction l as [|x l IH]; intros a H; simpl in *; [by left|].
  destruct (IH _ H) as [H'|(y & Hy & HQ)].
  - destruct (Hf _ _ H') as [?|?]; [by left|]. right. exists x. split; [left|done].
  - right. exists y. split; [by right|done].
Qed.

Lemma values_of_add_inv c' c v v' (d : cats) :
  v' ∈ Cats.values_of c' (Cats.add c v d) →
  v' ∈ Cats.values_of c' d ∨ (c' = c ∧ v' = v).
Proof.
  unfold Cats.values_of. rewrite get_add. case_bool_decide; [|by left].
  subst. destruct (Cats.get c d); simpl; set_solver.
Qed.

Lemma add_values_origin c' c vals v' (d : cats) :
  v' ∈ Cats.values_of c' (add_values c vals d) →
  v' ∈ Cats.values_of c' d ∨ (c' = c ∧ v' ∈ vals ∧ v' ≠ "").
Proof.
  unfold add_values. intros H.
  apply (foldl_origin (λ d, v' ∈ Cats.values_of c' d) (λ val, c' = c ∧ v' = val ∧ v' ≠ ""))
    in H as [?|(val & Hin & -> & -> & ?)]; [by left|by right|].
  intros a val Ha. destruct (PyStr.truthy val) eqn:E; [|by left].
  apply values_of_add_inv in Ha as [?|[-> ->]]; [by left|].
  right. split_and!; [done..|]. by apply truthy_spec.
Qed.

Lemma extract_child_origin c v (d : cats) child :
  v ∈ Cats.values_of c (extract_child d child) →
  v ∈ Cats.values_of c d ∨ contributes child c v.
Proof.
  unfold extract_child. intros H.
  apply (foldl_origin (λ d, v ∈ Cats.values_of c d)
           (λ subchild, c = full_category_of (category_of child) subchild ∧
                        v ∈ values subchild ∧ v ≠ "")) in H
    as [H|(subchild & Hin & -> & Hv & Hne)].
  - apply add_values_origin in H as [H|(-> & Hv & Hne)].
    + left. by rewrite values_of_touch in H.
    + right. split; [done|]. by left.
  - right. split; [done|]. right. by exists subchild.
  - intros a subchild Ha. unfold extract_subchild in Ha.
    apply add_values_origin in Ha as [Ha|?]; [|by right].
    left. by rewrite values_of_touch in Ha.
Qed.

(** The extracted index holds, under a category of a grouping, exactly the
    non-empty raw values of the children named so, and of the grandchildren
    whose compound name it is, of the top-level entries recognized as that
    grouping.  Unrecognized entries and deeper levels contribute nothing. *)
Theorem extracted_values_are_the_childrens doc (o : original) c v :
  v ∈ Cats.values_of c (idx_get o (extract_existing_structure doc)) ↔
  ∃ item child,
    item ∈ study doc ∧ identify_grouping item = Some o ∧ child ∈ children item ∧
    contributes child c v.
Proof.
  split.
  - unfold extract_existing_structure. intros H.
    apply (foldl_origin (λ s, v ∈ Cats.values_of c (idx_get o s))
             (λ item, identify_grouping item = Some o ∧
                      ∃ child, child ∈ children item ∧ contributes child c v)) in H
      as [H|(item & Hin & Hg & child & Hc & Hv)].
    + destruct o; simpl in H; set_solver.
    + by exists item, child.
    + intros s item Hs. unfold extract_item in Hs.
      destruct (identify_grouping item) as [g|] eqn:Hg; [|by left].
      rewrite idx_get_set in Hs. case_decide as Ho; [|by left]. subst g.
      apply (foldl_origin (λ d, v ∈ Cats.values_of c d)
               (λ child, contributes child c v)) in Hs as [?|(child & ? & ?)];
        [by left|right; split; [done|]; by exists child|].
      intros a child. apply extract_child_origin.
  - intros (item & child & Hitem & Hg & Hchild & Hne & Hc).
    destruct (extract_existing_structure_reaches doc item o child Hitem Hg Hchild)
      as (d & Hd).
    destruct Hc as [[-> Hv]|(subchild & Hs & -> & Hv)].
    + apply (Hd (category_of child)).
      by apply (proj2 (extract_child_category d child)).
    + apply (Hd (full_category_of (category_of child) subchild)).
      by apply (proj2 (extract_child_subcategory d child subchild Hs)).
Qed.

(** ** The unmapped report (lines 503-539) *)

Section grouping.
Context {A : Type}.
Implicit Types (d : list (string * list A)) (l : list (string * A)).

Lemma append_to_cons k (x : A) k' xs d :
  append_to k x ((k', xs) :: d) =
  if bool_decide (k' = k) then (k', xs ++ [x]) :: d else (k', xs) :: append_to k x d.
Proof. done. Qed.

Lemma append_to_keys k (x : A) d :
  (append_to k x d).*1 = if bool_decide (k ∈ d.*1) then d.*1 else d.*1 ++ [k].
Proof.
  induction d as [|[k' xs] d IH]; [done|].
  rewrite append_to_cons, fmap_cons. simpl fst.
  destruct (decide (k' = k)) as [->|Hne].
  - rewrite bool_decide_eq_true_2 by done. rewrite fmap_cons.
    rewrite bool_decide_eq_true_2; [done|left].
  - rewrite bool_decide_eq_false_2 by done. rewrite fmap_cons, IH. simpl fst.
    destruct (decide (k ∈ d.*1)).
    + rewrite !bool_decide_eq_true_2; [done|by right|done].
    + rewrite !bool_decide_eq_false_2; [done| |done].
      rewrite not_elem_of_cons. naive_solver.
Qed.

Lemma append_to_NoDup k (x : A) d : NoDup d.*1 → NoDup (append_to k x d).*1.
Proof.
  intros H. rewrite append_to_keys. case_bool_decide as Hk; [done|].
  apply NoDup_app. split_and!; [done| |apply NoDup_singleton].
  intros y Hy ->%list_elem_of_singleton. done.
Qed.

Lemma elem_of_append_to k (x : A) d k' xs :
  NoDup d.*1 →
  (k', xs) ∈ append_to k x d ↔
  (k' ≠ k ∧ (k', xs) ∈ d) ∨
  (k' = k ∧ ((∃ ys, (k, ys) ∈ d ∧ xs = ys ++ [x]) ∨ ((k ∉ d.*1) ∧ xs = [x]))).
Proof.
  induction d as [|[k0 ys] d IH]; intros Hnd.
  - simpl. rewrite list_elem_of_singleton. split.
    + intros [= -> ->]. right. split; [done|]. right. split; [|done].
      apply not_elem_of_nil.
    + intros [[_ H%elem_of_nil]|[-> [(zs & H%elem_of_nil & _)|[_ ->]]]]; done.
  - rewrite fmap_cons in Hnd. apply NoDup_cons in Hnd as [Hk0 Hnd]. specialize (IH Hnd).
    assert (∀ zs, (k0, zs) ∉ d) as Hfresh.
    { intros zs Hin. apply Hk0. apply list_elem_of_fmap. by exists (k0, zs). }
    rewrite append_to_cons, fmap_cons, not_elem_of_cons. simpl fst in *.
    destruct (decide (k0 = k)) as [->|Hne].
    + rewrite bool_decide_eq_true_2 by done. rewrite !elem_of_cons. split.
      * intros [[= -> ->]|Hin].
        -- right. split; [done|]. left. exists ys. split; [by left|done].
        -- left. split; [|by right]. intros ->. by apply (Hfresh xs).
      * intros [[Hk [[= ? ?]|Hin]]|[-> [(zs & Hin & ->)|[[Hk _] _]]]];
          [done|by right| |done].
        apply elem_of_cons in Hin as [[= <-]|Hin]; [by left|].
        by apply Hfresh in Hin.
    + rewrite bool_decide_eq_false_2 by done. rewrite !elem_of_cons, IH. split.
      * intros [[= -> ->]|[[? ?]|[-> [(zs & ? & ->)|[? ->]]]]].
        -- left. split; [done|by left].
        -- left. split; [done|by right].
        -- right. split; [done|]. left. exists zs. split; [by right|done].
        -- right. split; [done|]. right. split; [|done]. split; [congruence|done].
      * intros [[? [[= -> ->]|?]]|[-> [(zs & Hin & ->)|[[? ?] ->]]]].
        -- by left.
        -- right. left. done.
        -- apply elem_of_cons in Hin as [[= ? ?]|Hin]; [done|].
           right. right. split; [done|]. left. by exists zs.
        -- right. right. split; [done|]. by right.
Qed.

(** Grouping keeps every pair, under its key and in order, and makes one
    entry per key. *)
Lemma group_by_key_spec l :
  NoDup (group_by_key l).*1 ∧
  ∀ k xs, (k, xs) ∈ group_by_key l ↔
          xs ≠ [] ∧ xs = (filter (λ p : string * A, p.1 = k) l).*2.
Proof.
  unfold group_by_key.
  cut (∀ l2 l1 d,
         (NoDup d.*1 ∧
          ∀ k xs, (k, xs) ∈ d ↔
                  xs ≠ [] ∧ xs = (filter (λ p : string * A, p.1 = k) l1).*2) →
         NoDup (foldl (λ d p, append_to p.1 p.2 d) d l2).*1 ∧
         ∀ k xs, (k, xs) ∈ foldl (λ d p, append_to p.1 p.2 d) d l2 ↔
                 xs ≠ [] ∧ xs = (filter (λ p : string * A, p.1 = k) (l1 ++ l2)).*2).
  { intros H. apply (H l [] []). split; [constructor|].
    intros k xs. split; [by intros ?%elem_of_nil|]. by intros [? ->]. }
  induction l2 as [|[k0 x] l2 IH]; intros l1 d [Hnd Hd]; simpl.
  { by rewrite app_nil_r. }
  replace (l1 ++ (k0, x) :: l2) with ((l1 ++ [(k0, x)]) ++ l2)
    by (by rewrite <-app_assoc).
  apply IH. split; [by apply append_to_NoDup|].
  intros k xs. rewrite elem_of_append_to by done.
  rewrite filter_app, fmap_app, filter_cons, filter_nil. simpl.
  destruct (decide (k0 = k)) as [->|Hne]; simpl.
  - split.
    + intros [[Hk _]|[_ [(ys & Hin & ->)|[Hk ->]]]]; [done| |].
      * apply Hd in Hin as [_ <-]. split; [|done]. by destruct ys.
      * split; [done|].
        destruct ((filter (λ p : string * A, p.1 = k) l1).*2) as [|y ys] eqn:E; [done|].
        exfalso. apply Hk. apply list_elem_of_fmap.
        exists (k, y :: ys). split; [done|]. apply Hd. by rewrite E.
    + intros [_ ->]. right. split; [done|].
      destruct ((filter (λ p : string * A, p.1 = k) l1).*2) as [|y ys] eqn:E.
      * right. split; [|done]. intros ([k' zs] & Hk' & Hin)%list_elem_of_fmap.
        simpl in Hk'. subst k'. apply Hd in Hin as [Hz Hzs]. rewrite E in Hzs. done.
      * left. exists (y :: ys). split; [|done]. apply Hd. by rewrite E.
  - rewrite app_nil_r. split.
    + intros [[_ Hin]|[-> _]]; [by apply Hd|done].
    + intros H. left. split; [done|]. by apply Hd.
Qed.

End grouping.

Lemma grouping_name_inj g g' : grouping_name g = grouping_name g' → g = g'.
Proof. by destruct g as [[]|], g' as [[]|]. Qed.

(** The subjects written for a grouping name and a value. *)
Lemma report_subjects (l : list record) gname v :
  (filter (λ p : string * string, p.1 = v)
     (filter (λ p : string * (string * string), p.1 = gname)
        ((λ r : record, (grouping_name r.1.1, (r.1.2, r.2))) <$> l)).*2).*2 =
  (filter (λ r : record, grouping_name r.1.1 = gname ∧ r.1.2 = v) l).*2.
Proof.
  induction l as [|[[g v'] s] l IH]; [done|].
  rewrite fmap_cons, !filter_cons. simpl.
  destruct (decide (grouping_name g = gname)) as [Hg|Hg].
  - rewrite fmap_cons, filter_cons. simpl.
    destruct (decide (v' = v)) as [Hv|Hv].
    + rewrite decide_True by done. rewrite !fmap_cons. simpl. by rewrite IH.
    + rewrite decide_False by naive_solver. done.
  - rewrite decide_False by naive_solver. done.
Qed.

Lemma filter_unique_key (l : list record) g v s :
  NoDup (record_key <$> l) → (g, v, s) ∈ l →
  filter (λ r : record, grouping_name r.1.1 = grouping_name g ∧ r.1.2 = v) l = [(g, v, s)].
Proof.
  induction l as [|[[g' v'] s'] l IH]; [by intros _ ?%elem_of_nil|].
  rewrite fmap_cons, NoDup_cons, filter_cons. unfold record_key at 1. simpl.
  intros [Hfresh Hnd] [[= <- <- <-]|Hin]%elem_of_cons.
  - rewrite decide_True by done. f_equal.
    destruct (filter _ l) as [|[[g1 v1] s1] rest] eqn:E; [done|]. exfalso.
    assert ((g1, v1, s1) ∈ filter (λ r : record,
              grouping_name r.1.1 = grouping_name g ∧ r.1.2 = v) l) as Hr
      by (rewrite E; left).
    apply list_elem_of_filter in Hr as [[Hg%grouping_name_inj Hv] Hr]. simpl in *.
    subst. apply Hfresh. apply list_elem_of_fmap. by exists (g, v, s1).
  - rewrite decide_False; [by apply IH|].
    intros [Hg%grouping_name_inj Hv]. subst. apply Hfresh.
    apply list_elem_of_fmap. by exists (g, v, s).
Qed.

Lemma unmapped_report_lines (l : list record) gname v shown more :
  (∃ lines, (gname, lines) ∈ unmapped_report l ∧ (v, shown, more) ∈ lines) ↔
  let subjects :=
    (filter (λ r : record, grouping_name r.1.1 = gname ∧ r.1.2 = v) l).*2 in
  subjects ≠ [] ∧ shown = take 5 subjects ∧
  more = (Z.of_nat (length subjects) - 5)%Z.
Proof.
  unfold unmapped_report. simpl.
  set (pairs := (λ r : record, (grouping_name r.1.1, (r.1.2, r.2))) <$> l).
  destruct (group_by_key_spec pairs) as [_ Hgroups].
  split.
  - intros (lines & (gl & [= -> ->] & Hgl)%list_elem_of_fmap & Hline).
    rewrite merge_sort_Permutation in Hgl. destruct gl as [gname vss]. simpl in *.
    apply Hgroups in Hgl as [_ ->].
    apply list_elem_of_fmap in Hline as ([v' ids] & [= -> -> ->] & Hin).
    rewrite merge_sort_Permutation in Hin.
    destruct (group_by_key_spec
                (filter (λ p : string * (string * string), p.1 = gname) pairs).*2)
      as [_ Hvalues].
    apply Hvalues in Hin as [Hne ->]. unfold pairs in *.
    rewrite report_subjects in *. done.
  - intros (Hne & -> & ->).
    set (vss := (filter (λ p : string * (string * string), p.1 = gname) pairs).*2).
    exists (report_line <$> merge_sort (λ a b, String.le a.1 b.1) (group_by_key vss)).
    assert ((filter (λ p : string * string, p.1 = v) vss).*2 =
            (filter (λ r : record, grouping_name r.1.1 = gname ∧ r.1.2 = v) l).*2)
      as Hsub by apply report_subjects.
    split.
    + apply list_elem_of_fmap. exists (gname, vss). split; [done|].
      rewrite merge_sort_Permutation. apply Hgroups. split; [|done].
      intros Hnil. rewrite Hnil in Hsub. by rewrite <-Hsub in Hne.
    + apply list_elem_of_fmap.
      exists (v, (filter (λ r : record, grouping_name r.1.1 = gname ∧ r.1.2 = v) l).*2).
      split; [done|]. rewrite merge_sort_Permutation.
      apply (group_by_key_spec vss). split; [done|]. by rewrite Hsub.
Qed.

(** In a run from [__init__] through the pass, the unmapped report has one
    line for every Unmapped Record and no other; every line shows exactly
    one subject, and its count of further subjects is -4: the clause "and N
    more", written when that count is positive, is never written. *)
Theorem unmapped_report_shows_one_subject w st st' :
  init w = Ok st → process_api_data st = Ok st' →
  (∀ gname lines v shown more,
     (gname, lines) ∈ unmapped_report (unmapped st') → (v, shown, more) ∈ lines →
     more = (-4)%Z ∧
     ∃ g subject, gname = grouping_name g ∧ shown = [subject] ∧
                  (g, v, subject) ∈ unmapped st') ∧
  (∀ g v subject,
     (g, v, subject) ∈ unmapped st' →
     ∃ lines, (grouping_name g, lines) ∈ unmapped_report (unmapped st') ∧
              (v, [subject], (-4)%Z) ∈ lines).
Proof.
  intros Hinit%init_initial Hpass%process_api_data_events. subst st'.
  destruct (records_ok_foldl (existing_structure st) (events st) (events_ok st) st)
    as (_ & _ & _ & _ & Hnd & _); [by apply records_ok_initial|].
  set (l := unmapped (foldl apply_event st (events st))) in *.
  split.
  - intros gname lines v shown more Hg Hl.
    destruct (proj1 (unmapped_report_lines l gname v shown more)) as (Hne & -> & ->);
      [by exists lines|].
    destruct (filter (λ r : record, grouping_name r.1.1 = gname ∧ r.1.2 = v) l)
      as [|[[g v'] s] rest] eqn:E; [done|].
    assert ((g, v', s) ∈ filter (λ r : record,
              grouping_name r.1.1 = gname ∧ r.1.2 = v) l) as Hr by (rewrite E; left).
    apply list_elem_of_filter in Hr as [[<- <-] Hr]. simpl in *.
    rewrite (filter_unique_key l g v' s Hnd Hr) in E. injection E as <-.
    split; [done|]. by exists g, s.
  - intros g v subject Hin.
    apply unmapped_report_lines. simpl.
    by rewrite (filter_unique_key l g v subject Hnd Hin).
Qed.

Lemma unmapped_report_shows_one_subject_witness :
  ∃ st', process_api_data Scenario.st0 = Ok st' ∧
         (Orig AssayTechnologyType, "Quantum Flux Sequencing", "OSD-100") ∈ unmapped st' ∧
         ∃ lines, ("Assay technology type", lines) ∈ unmapped_report (unmapped st') ∧
                  ("Quantum Flux Sequencing", ["OSD-100"], (-4)%Z) ∈ lines.
Proof.
  assert (∃ st', process_api_data Scenario.st0 = Ok st') as [st' Hpass]
    by (vm_compute; eexists; reflexivity).
  exists st'. split; [exact Hpass|].
  assert (match process_api_data Scenario.st0 with
          | Ok s => bool_decide ((Orig AssayTechnologyType, "Quantum Flux Sequencing",
                                  "OSD-100") ∈ unmapped s)
          | Raise _ => false
          end = true) as Hin by (vm_compute; reflexivity).
  rewrite Hpass in Hin. apply bool_decide_eq_true in Hin. split; [exact Hin|].
  destruct (unmapped_report_shows_one_subject Scenario.w Scenario.st0 st') as [_ H];
    [reflexivity|exact Hpass|].
  exact (H _ _ _ Hin).
Defined.

(** ** The extractor on a malformed document (lines 169-189) *)

Lemma raw_extract_items_skipped s skipped rest :
  Forall (λ item, Raw.identify_grouping item = Ok None) skipped →
  Raw.extract_items s (skipped ++ rest) = Raw.extract_items s rest.
Proof.
  induction 1 as [|item skipped H _ IH]; [done|].
  simpl. by rewrite (raw_extract_item_skip s item H).
Qed.

(** The extractor validates nothing, so what it does with a document of
    another shape is what Python does with it.  A document that is not an
    object has no [get] and gives an [AttributeError]; without a ['study']
    member the index is empty; a ['study'] that is null, a number or a
    boolean cannot be iterated and gives a [TypeError]; a string or an
    object in its place is iterated, and since its characters or keys are
    strings the first of them gives an [AttributeError]; and in a list, the
    first entry on which recognition raises ends the extraction with its
    exception when the entries before it are all unrecognized. *)
Theorem extraction_of_malformed_document :
  (∀ doc, (∀ fields, doc ≠ JObj fields) →
     Raw.extract_existing_structure doc = Some (Raise AttributeError)) ∧
  (∀ fields, Raw.lookup "study" fields = None →
     Raw.extract_existing_structure (JObj fields) = Some (Ok empty_index)) ∧
  (∀ fields study_section,
     Raw.lookup "study" fields = Some study_section →
     Raw.container study_section = false →
     Raw.extract_existing_structure (JObj fields) = Some (Raise TypeError)) ∧
  (∀ fields s,
     Raw.lookup "study" fields = Some (JStr s) →
     Raw.extract_existing_structure (JObj fields) =
     Some (if bool_decide (s = "") then Ok empty_index else Raise AttributeError)) ∧
  (∀ fields members,
     Raw.lookup "study" fields = Some (JObj members) →
     Raw.extract_existing_structure (JObj fields) =
     Some (if bool_decide (members = []) then Ok empty_index else Raise AttributeError)) ∧
  (∀ fields skipped item rest e,
     Raw.lookup "study" fields = Some (JArr (skipped ++ item :: rest)) →
     Forall (λ item, Raw.identify_grouping item = Ok None) skipped →
     Raw.identify_grouping item = Raise e →
     Raw.extract_existing_structure (JObj fields) = Some (Raise e)).
Proof.
  unfold Raw.extract_existing_structure. split_and!.
  - intros doc H. destruct doc; try done. by destruct (H fields).
  - intros fields H. simpl. by rewrite H.
  - intros fields study_section H Hc. simpl. rewrite H. simpl.
    by destruct study_section.
  - intros fields s H. simpl. rewrite H. simpl.
    destruct s as [|c s]; [done|]. by rewrite bool_decide_eq_false_2.
  - intros fields members H. simpl. rewrite H. simpl.
    destruct members as [|[k v] members]; [done|]. by rewrite bool_decide_eq_false_2.
  - intros fields skipped item rest e H Hskip He. simpl. rewrite H. simpl.
    rewrite raw_extract_items_skipped by done. simpl.
    unfold Raw.extract_item. by rewrite He.
Qed.

Lemma extraction_of_malformed_document_witness :
  Raw.extract_existing_structure (JArr []) = Some (Raise AttributeError) ∧
  Raw.extract_existing_structure (JObj [("assay", JArr [])]) = Some (Ok empty_index) ∧
  Raw.extract_existing_structure (JObj [("study", JNull)]) = Some (Raise TypeError) ∧
  Raw.extract_existing_structure (JObj [("study", JStr "none")]) =
    Some (Raise AttributeError) ∧
  Raw.extract_existing_structure (JObj [("study", JObj [("Organism", JArr [])])]) =
    Some (Raise AttributeError) ∧
  Raw.extract_existing_structure
    (JObj [("study", JArr ([JObj [("displayValue", JStr "Data Source")]] ++
                           JObj [("values", JNum "3")] :: [JNull]))]) =
    Some (Raise TypeError).
Proof.
  destruct extraction_of_malformed_document as (H1 & H2 & H3 & H4 & H5 & H6).
  split_and!.
  - by apply H1.
  - by apply H2.
  - by apply (H3 _ JNull).
  - by rewrite (H4 _ "none").
  - by rewrite (H5 _ [("Organism", JArr [])]).
  - apply (H6 _ [JObj [("displayValue", JStr "Data Source")]]
              (JObj [("values", JNum "3")]) [JNull]); [done| |done].
    by repeat constructor.
Defined.
